(** * LotteryFactory: the settlement core of the multi-room lottery

    A shallow embedding of the Solidity contract [LotteryFactory]
    (the USDC revision with round numbers, 10% platform fee and
    [ticketClaimed] bitmap) and the properties of its room/round state
    machine, commit-reveal verification, fee and payout arithmetic and
    claim bookkeeping.

    Conventions.
    - [uint256], [uint8], [address] and [bytes32] values are numbers in [N];
      checked arithmetic of Solidity 0.8 is written out: an overflowing
      addition or multiplication reverts with [Panic].
    - A Solidity [mapping] is a [gmap] read with the type's zero value as
      default ([load]).
    - A function body is a computation in the monad [M]: it threads the
      storage and a trace of events and token calls, and may revert.  A
      revert keeps the storage reached so far inside the outcome; the
      transaction wrapper [transact] then discards it, as the EVM does. *)

From Stdlib Require Import NArith ZArith List Lia Bool Ascii String.
From stdpp Require Import gmap list fin_maps pretty.
Import ListNotations.

Local Open Scope N_scope.

(** ** Keccak-256 and packed encoding *)

Module Keccak.

Definition mask64 : N := N.ones 64.

Definition rotl64 (x n : N) : N :=
  N.lor (N.land (N.shiftl x n) mask64) (N.shiftr x (64 - n)).

Definition not64 (x : N) : N := N.lxor x mask64.

Definition lane (st : list N) (i : nat) : N := nth i st 0.

Definition rotation_offsets : list N :=
  [ 0;  1; 62; 28; 27;
   36; 44;  6; 55; 20;
    3; 10; 43; 25; 39;
   41; 45; 15; 21;  8;
   18;  2; 61; 56; 14].

Definition round_constants : list N :=
  [0x0000000000000001; 0x0000000000008082; 0x800000000000808A;
   0x8000000080008000; 0x000000000000808B; 0x0000000080000001;
   0x8000000080008081; 0x8000000000008009; 0x000000000000008A;
   0x0000000000000088; 0x0000000080008009; 0x000000008000000A;
   0x000000008000808B; 0x800000000000008B; 0x8000000000008089;
   0x8000000000008003; 0x8000000000008002; 0x8000000000000080;
   0x000000000000800A; 0x800000008000000A; 0x8000000080008081;
   0x8000000000008080; 0x0000000080000001; 0x8000000080008008].

Definition indices : list nat := seq 0 25.

Definition theta (st : list N) : list N :=
  let C := fun x : nat =>
    N.lxor (lane st x)
      (N.lxor (lane st (x + 5))
         (N.lxor (lane st (x + 10))
            (N.lxor (lane st (x + 15)) (lane st (x + 20))))) in
  let D := fun x : nat =>
    N.lxor (C ((x + 4) mod 5)%nat) (rotl64 (C ((x + 1) mod 5)%nat) 1) in
  map (fun i => N.lxor (lane st i) (D (i mod 5)%nat)) indices.

(* Lane (X, Y) of the result comes from lane ((X + 3Y) mod 5, X). *)
Definition rho_pi (st : list N) : list N :=
  map (fun i =>
         let X := (i mod 5)%nat in
         let Y := (i / 5)%nat in
         let src := (((X + 3 * Y) mod 5) + 5 * X)%nat in
         rotl64 (lane st src) (nth src rotation_offsets 0)) indices.

Definition chi (st : list N) : list N :=
  map (fun i =>
         let x := (i mod 5)%nat in
         let y := (i / 5)%nat in
         N.lxor (lane st i)
           (N.land (not64 (lane st (((x + 1) mod 5) + 5 * y)%nat))
              (lane st (((x + 2) mod 5) + 5 * y)%nat))) indices.

Definition iota (rc : N) (st : list N) : list N :=
  match st with
  | [] => []
  | a :: rest => N.lxor a rc :: rest
  end.

Definition keccak_round (st : list N) (rc : N) : list N :=
  iota rc (chi (rho_pi (theta st))).

Definition keccak_f (st : list N) : list N :=
  fold_left keccak_round round_constants st.

Definition rate : nat := 136.

(* Little-endian lanes. *)
Definition lane_of_bytes (bs : list N) : N :=
  fold_right (fun b acc => b + 256 * acc) 0 bs.

Definition bytes_of_lane (l : N) : list N :=
  map (fun i => N.shiftr l (8 * N.of_nat i) mod 256) (seq 0 8).

Fixpoint lanes_of_block (n : nat) (bs : list N) : list N :=
  match n with
  | O => []
  | S n' => lane_of_bytes (firstn 8 bs) :: lanes_of_block n' (skipn 8 bs)
  end.

Fixpoint xor_lanes (st blk : list N) : list N :=
  match st, blk with
  | a :: st', b :: blk' => N.lxor a b :: xor_lanes st' blk'
  | _, _ => st
  end.

(* pad10*1 with the Keccak domain bit. *)
Definition pad (msg : list N) : list N :=
  let q := (rate - (length msg mod rate))%nat in
  match q with
  | 1%nat => msg ++ [0x81]
  | _ => msg ++ [0x01] ++ repeat 0 (q - 2) ++ [0x80]
  end.

Fixpoint absorb (blocks : nat) (st : list N) (bs : list N) : list N :=
  match blocks with
  | O => st
  | S k =>
      absorb k (keccak_f (xor_lanes st (lanes_of_block 17 (firstn rate bs))))
        (skipn rate bs)
  end.

Definition be_to_N (bs : list N) : N :=
  fold_left (fun acc b => acc * 256 + b) bs 0.

Definition digest_bytes (msg : list N) : list N :=
  let p := pad msg in
  let st := absorb (length p / rate) (repeat 0 25) p in
  firstn 32 (flat_map bytes_of_lane st).

End Keccak.

(** [keccak256] of a byte string, as a [bytes32] number. *)
Definition keccak256 (msg : list N) : N := Keccak.be_to_N (Keccak.digest_bytes msg).

Example keccak256_empty :
  keccak256 [] = 0xc5d2460186f7233c927e7db2dcc703c0e500b653ca82273b7bfad8045d85a470.
Proof. vm_compute. reflexivity. Qed.

(* "abc" *)
Example keccak256_abc :
  keccak256 [0x61; 0x62; 0x63]
  = 0x4e03657aea45a94fc7d47ba826c8d667c0d1e6e33a64a036ec44f58fa12d6c45.
Proof. vm_compute. reflexivity. Qed.

(** ** Data model *)

Definition address := N.

Definition MAX_UINT256 : N := 2 ^ 256 - 1.

Inductive RoomState := OPEN | PENDING_REVEAL | REVEALED | CLOSED.

Module Room.
Record t := mk {
  id : N;
  name : string;
  description : string;
  entryFee : N;
  drawTime : N;
  prizePool : N;
  encryptedWinningNumber : N;
  winningNumber : N;
  revealed : bool;
  state : RoomState;
  carryOverAmount : N;
  roundNumber : N;
  feesCollected : bool;
  revealTime : N
}.

(* The value of a storage slot never written. *)
Definition zero : t := mk 0 "" "" 0 0 0 0 0 false OPEN 0 0 false 0.

Definition set_state (v : RoomState) (r : t) : t :=
  mk (id r) (name r) (description r) (entryFee r) (drawTime r) (prizePool r)
     (encryptedWinningNumber r) (winningNumber r) (revealed r) v
     (carryOverAmount r) (roundNumber r) (feesCollected r) (revealTime r).

Definition set_prizePool (v : N) (r : t) : t :=
  mk (id r) (name r) (description r) (entryFee r) (drawTime r) v
     (encryptedWinningNumber r) (winningNumber r) (revealed r) (state r)
     (carryOverAmount r) (roundNumber r) (feesCollected r) (revealTime r).

Definition set_feesCollected (v : bool) (r : t) : t :=
  mk (id r) (name r) (description r) (entryFee r) (drawTime r) (prizePool r)
     (encryptedWinningNumber r) (winningNumber r) (revealed r) (state r)
     (carryOverAmount r) (roundNumber r) v (revealTime r).

Definition set_winningNumber (v : N) (r : t) : t :=
  mk (id r) (name r) (description r) (entryFee r) (drawTime r) (prizePool r)
     (encryptedWinningNumber r) v (revealed r) (state r)
     (carryOverAmount r) (roundNumber r) (feesCollected r) (revealTime r).

Definition set_revealed (v : bool) (r : t) : t :=
  mk (id r) (name r) (description r) (entryFee r) (drawTime r) (prizePool r)
     (encryptedWinningNumber r) (winningNumber r) v (state r)
     (carryOverAmount r) (roundNumber r) (feesCollected r) (revealTime r).

Definition set_revealTime (v : N) (r : t) : t :=
  mk (id r) (name r) (description r) (entryFee r) (drawTime r) (prizePool r)
     (encryptedWinningNumber r) (winningNumber r) (revealed r) (state r)
     (carryOverAmount r) (roundNumber r) (feesCollected r) v.

Definition set_drawTime (v : N) (r : t) : t :=
  mk (id r) (name r) (description r) (entryFee r) v (prizePool r)
     (encryptedWinningNumber r) (winningNumber r) (revealed r) (state r)
     (carryOverAmount r) (roundNumber r) (feesCollected r) (revealTime r).

Definition set_encryptedWinningNumber (v : N) (r : t) : t :=
  mk (id r) (name r) (description r) (entryFee r) (drawTime r) (prizePool r)
     v (winningNumber r) (revealed r) (state r)
     (carryOverAmount r) (roundNumber r) (feesCollected r) (revealTime r).

Definition set_roundNumber (v : N) (r : t) : t :=
  mk (id r) (name r) (description r) (entryFee r) (drawTime r) (prizePool r)
     (encryptedWinningNumber r) (winningNumber r) (revealed r) (state r)
     (carryOverAmount r) v (feesCollected r) (revealTime r).
End Room.

Module Ticket.
Record t := mk {
  id : N;
  roomId : N;
  player : address;
  number : N;
  roundNumber : N;
  win : bool
}.

Definition set_win (v : bool) (k : t) : t :=
  mk (id k) (roomId k) (player k) (number k) (roundNumber k) v.
End Ticket.

Module PlayerStats.
Record t := mk {
  totalTickets : N;
  totalWins : N;
  totalClaimed : N;
  roomTickets : gmap N N;
  roomWins : gmap N N
}.

Definition zero : t := mk 0 0 0 ∅ ∅.

Definition set_totalTickets (v : N) (p : t) : t :=
  mk v (totalWins p) (totalClaimed p) (roomTickets p) (roomWins p).
Definition set_totalWins (v : N) (p : t) : t :=
  mk (totalTickets p) v (totalClaimed p) (roomTickets p) (roomWins p).
Definition set_totalClaimed (v : N) (p : t) : t :=
  mk (totalTickets p) (totalWins p) v (roomTickets p) (roomWins p).
Definition set_roomTickets (v : gmap N N) (p : t) : t :=
  mk (totalTickets p) (totalWins p) (totalClaimed p) v (roomWins p).
Definition set_roomWins (v : gmap N N) (p : t) : t :=
  mk (totalTickets p) (totalWins p) (totalClaimed p) (roomTickets p) v.
End PlayerStats.

(* ReentrancyGuard's status word. *)
Inductive GuardStatus := NOT_ENTERED | ENTERED.

Record Storage := mkStorage {
  rooms : gmap N Room.t;
  playerTicketIds : gmap (N * address) (list N);
  roomTicketsByRound : gmap (N * N) (list Ticket.t);
  playerStats : gmap address PlayerStats.t;
  ticketClaimed : gmap (N * N * N) bool;
  roomCount : N;
  activeRoomIds : list N;
  collectedFees : N;
  USDCToken : address;
  _owner : address;        (* Ownable *)
  _paused : bool;          (* Pausable *)
  _status : GuardStatus    (* ReentrancyGuard *)
}.

Definition set_rooms v s :=
  mkStorage v (playerTicketIds s) (roomTicketsByRound s) (playerStats s)
    (ticketClaimed s) (roomCount s) (activeRoomIds s) (collectedFees s)
    (USDCToken s) (_owner s) (_paused s) (_status s).
Definition set_playerTicketIds v s :=
  mkStorage (rooms s) v (roomTicketsByRound s) (playerStats s)
    (ticketClaimed s) (roomCount s) (activeRoomIds s) (collectedFees s)
    (USDCToken s) (_owner s) (_paused s) (_status s).
Definition set_roomTicketsByRound v s :=
  mkStorage (rooms s) (playerTicketIds s) v (playerStats s)
    (ticketClaimed s) (roomCount s) (activeRoomIds s) (collectedFees s)
    (USDCToken s) (_owner s) (_paused s) (_status s).
Definition set_playerStats v s :=
  mkStorage (rooms s) (playerTicketIds s) (roomTicketsByRound s) v
    (ticketClaimed s) (roomCount s) (activeRoomIds s) (collectedFees s)
    (USDCToken s) (_owner s) (_paused s) (_status s).
Definition set_ticketClaimed v s :=
  mkStorage (rooms s) (playerTicketIds s) (roomTicketsByRound s) (playerStats s)
    v (roomCount s) (activeRoomIds s) (collectedFees s)
    (USDCToken s) (_owner s) (_paused s) (_status s).
Definition set_roomCount v s :=
  mkStorage (rooms s) (playerTicketIds s) (roomTicketsByRound s) (playerStats s)
    (ticketClaimed s) v (activeRoomIds s) (collectedFees s)
    (USDCToken s) (_owner s) (_paused s) (_status s).
Definition set_activeRoomIds v s :=
  mkStorage (rooms s) (playerTicketIds s) (roomTicketsByRound s) (playerStats s)
    (ticketClaimed s) (roomCount s) v (collectedFees s)
    (USDCToken s) (_owner s) (_paused s) (_status s).
Definition set_collectedFees v s :=
  mkStorage (rooms s) (playerTicketIds s) (roomTicketsByRound s) (playerStats s)
    (ticketClaimed s) (roomCount s) (activeRoomIds s) v
    (USDCToken s) (_owner s) (_paused s) (_status s).
Definition set_owner v s :=
  mkStorage (rooms s) (playerTicketIds s) (roomTicketsByRound s) (playerStats s)
    (ticketClaimed s) (roomCount s) (activeRoomIds s) (collectedFees s)
    (USDCToken s) v (_paused s) (_status s).
Definition set_paused v s :=
  mkStorage (rooms s) (playerTicketIds s) (roomTicketsByRound s) (playerStats s)
    (ticketClaimed s) (roomCount s) (activeRoomIds s) (collectedFees s)
    (USDCToken s) (_owner s) v (_status s).
Definition set_status v s :=
  mkStorage (rooms s) (playerTicketIds s) (roomTicketsByRound s) (playerStats s)
    (ticketClaimed s) (roomCount s) (activeRoomIds s) (collectedFees s)
    (USDCToken s) (_owner s) (_paused s) v.

(** Reading a mapping: an absent key holds the zero value. *)
Definition load {K V : Type} `{Countable K} (zero : V) (m : gmap K V) (k : K) : V :=
  default zero (m !! k).

Definition room_at (s : Storage) (roomId : N) : Room.t :=
  load Room.zero (rooms s) roomId.
Definition tickets_of (s : Storage) (roomId round : N) : list Ticket.t :=
  load [] (roomTicketsByRound s) (roomId, round).
Definition is_claimed (s : Storage) (roomId round ticketId : N) : bool :=
  load false (ticketClaimed s) (roomId, round, ticketId).
Definition stats_of (s : Storage) (player : address) : PlayerStats.t :=
  load PlayerStats.zero (playerStats s) player.
Definition ticket_ids_of (s : Storage) (roomId : N) (player : address) : list N :=
  load [] (playerTicketIds s) (roomId, player).

Definition store_room (roomId : N) (r : Room.t) (s : Storage) : Storage :=
  set_rooms (<[roomId := r]> (rooms s)) s.
Definition update_room (roomId : N) (f : Room.t -> Room.t) (s : Storage) : Storage :=
  store_room roomId (f (room_at s roomId)) s.
Definition store_tickets (roomId round : N) (ts : list Ticket.t) (s : Storage) : Storage :=
  set_roomTicketsByRound (<[(roomId, round) := ts]> (roomTicketsByRound s)) s.
Definition store_claimed (roomId round ticketId : N) (b : bool) (s : Storage) : Storage :=
  set_ticketClaimed (<[(roomId, round, ticketId) := b]> (ticketClaimed s)) s.
Definition update_stats (player : address) (f : PlayerStats.t -> PlayerStats.t)
    (s : Storage) : Storage :=
  set_playerStats (<[player := f (stats_of s player)]> (playerStats s)) s.
Definition push_ticket_id (roomId : N) (player : address) (ticketId : N)
    (s : Storage) : Storage :=
  set_playerTicketIds
    (<[(roomId, player) := ticket_ids_of s roomId player ++ [ticketId]]>
       (playerTicketIds s)) s.

(** ** Events, errors and the execution monad *)

Inductive Event :=
| RoomCreated (roomId : N) (name : string) (entryFee drawTime : N) (owner : address)
| TicketPurchased (roomId : N) (player : address) (number ticketId roundNumber : N)
| WinningNumberRevealed (roomId winningNumber roundNumber : N)
| PrizeClaimed (roomId : N) (winner : address) (amount ticketId roundNumber : N)
| RoomStateUpdated (roomId : N) (newState : RoomState) (roundNumber : N)
| RoomReset (roomId newRoundNumber newDrawTime : N)
| FeesWithdrawn (owner : address) (amount : N)
| TicketWinStatusUpdated (roomId ticketId : N) (win : bool) (roundNumber : N)
| Paused (account : address)
| Unpaused (account : address)
| OwnershipTransferred (previousOwner newOwner : address).

Inductive Error :=
| InvalidRoom | InvalidState | InvalidAmount | InvalidNumber | InvalidOwner
| InvalidTicket | InvalidAddress | TransferFailed | AlreadyRevealed
| BuyTicketAfterDrawTime | InvalidVerification | InsufficientAllowance
| RoomNotResettable | GracePeriodNotPassed
| RequireFailed (reason : string)           (* require(_, reason) *)
| Panic (code : N)                          (* 0x11 overflow, 0x32 index *)
| OwnableUnauthorizedAccount (account : address)
| OwnableInvalidOwner (account : address)
| EnforcedPause | ExpectedPause
| ReentrancyGuardReentrantCall
| TokenReverted.                            (* the token call itself reverted *)

(** What the token contract answers to a call. *)
Inductive TokenReply := ReturnsTrue | ReturnsFalse | Reverts.

(** The transaction context and the token ledger seen from the contract. *)
Record Env := mkEnv {
  msg_sender : address;
  block_timestamp : N;
  this : address;
  token_allowance : address -> address -> N;
  token_balanceOf : address -> N;
  token_transferFrom : address -> address -> N -> TokenReply;
  token_transfer : address -> N -> TokenReply
}.

(** Events emitted and token calls made, in order; a token call records the
    storage it is made from (what a re-entering callee would observe). *)
Inductive Effect :=
| Emit (e : Event)
| TokenTransferFrom (from to : address) (amount : N) (observed : Storage)
| TokenTransfer (to : address) (amount : N) (observed : Storage).

Record Machine := mkMachine { storage : Storage; trace : list Effect }.

Inductive Outcome (A : Type) :=
| Done (a : A) (m : Machine)
| Reverted (e : Error) (m : Machine).
Arguments Done {A} a m.
Arguments Reverted {A} e m.

Definition M (A : Type) : Type := Env -> Machine -> Outcome A.

Definition ret {A} (a : A) : M A := fun _ m => Done a m.
Definition bind {A B} (c : M A) (k : A -> M B) : M B :=
  fun env m =>
    match c env m with
    | Done a m' => k a env m'
    | Reverted e m' => Reverted e m'
    end.
Definition revert {A} (e : Error) : M A := fun _ m => Reverted e m.
Definition read {A} (f : Storage -> A) : M A := fun _ m => Done (f (storage m)) m.
Definition write (f : Storage -> Storage) : M unit :=
  fun _ m => Done tt (mkMachine (f (storage m)) (trace m)).
Definition ask {A} (f : Env -> A) : M A := fun env m => Done (f env) m.
Definition record (e : Effect) : M unit :=
  fun _ m => Done tt (mkMachine (storage m) (trace m ++ [e])).
Definition emit (e : Event) : M unit := record (Emit e).

Declare Scope sol_scope.
Delimit Scope sol_scope with sol.
Notation "'let*' x ':=' c 'in' k" := (bind c (fun x => k))
  (at level 10, x name, c at level 100, k at level 200) : sol_scope.
Notation "c ;; k" := (bind c (fun _ => k))
  (at level 100, k at level 200, only parsing, right associativity) : sol_scope.
Local Open Scope sol_scope.

Definition revert_if (b : bool) (e : Error) : M unit :=
  if b then revert e else ret tt.
Definition require (b : bool) (reason : string) : M unit :=
  if b then ret tt else revert (RequireFailed reason).

(** Checked arithmetic on [uint256]. *)
Definition checked_add (a b : N) : M N :=
  if a + b <=? MAX_UINT256 then ret (a + b) else revert (Panic 0x11).
Definition checked_mul (a b : N) : M N :=
  if a * b <=? MAX_UINT256 then ret (a * b) else revert (Panic 0x11).
Definition checked_sub (a b : N) : M N :=
  if b <=? a then ret (a - b) else revert (Panic 0x11).

(** Calls to the token. *)
Definition USDC_allowance (holder spender : address) : M N :=
  ask (fun env => token_allowance env holder spender).
Definition USDC_balanceOf (who : address) : M N :=
  ask (fun env => token_balanceOf env who).
Definition token_call (call : Storage -> Effect) (reply : Env -> TokenReply) : M bool :=
  let* s := read (fun s => s) in
  record (call s) ;;
  let* r := ask reply in
  match r with
  | ReturnsTrue => ret true
  | ReturnsFalse => ret false
  | Reverts => revert TokenReverted
  end.
Definition USDC_transferFrom (from to : address) (amount : N) : M bool :=
  token_call (TokenTransferFrom from to amount)
    (fun env => token_transferFrom env from to amount).
Definition USDC_transfer (to : address) (amount : N) : M bool :=
  token_call (TokenTransfer to amount) (fun env => token_transfer env to amount).

(** Modifiers of Ownable, Pausable and ReentrancyGuard, and [validRoom]. *)
Definition onlyOwner {A} (body : M A) : M A :=
  let* caller := ask msg_sender in
  let* o := read _owner in
  if caller =? o then body else revert (OwnableUnauthorizedAccount caller).

Definition whenNotPaused {A} (body : M A) : M A :=
  let* p := read _paused in
  if p then revert EnforcedPause else body.

Definition whenPaused {A} (body : M A) : M A :=
  let* p := read _paused in
  if p then body else revert ExpectedPause.

Definition nonReentrant {A} (body : M A) : M A :=
  let* st := read _status in
  match st with
  | ENTERED => revert ReentrancyGuardReentrantCall
  | NOT_ENTERED =>
      write (set_status ENTERED) ;;
      let* r := body in
      write (set_status NOT_ENTERED) ;;
      ret r
  end.

Definition validRoom {A} (roomId : N) (body : M A) : M A :=
  let* n := read roomCount in
  require (roomId <? n) "Invalid room ID" ;;
  body.

(** ** The contract *)

Definition PLATFORM_FEE : N := 10.
Definition GRACE_PERIOD : N := 86400.              (* 1 days *)
Definition DECIMAL_CONVERSION : N := 1000000000000. (* 1e12 *)

(** Storage after the constructor ran for [deployer]. *)
Definition deploy (deployer token : address) : Storage :=
  mkStorage ∅ ∅ ∅ ∅ ∅ 0 [] 0 token deployer false NOT_ENTERED.

Definition createRoom (name description : string)
    (entryFee drawTime encryptedWinningNumber : N) : M unit :=
  onlyOwner (whenNotPaused (
    revert_if (entryFee =? 0) InvalidAmount ;;
    let adjustedEntryFee := entryFee / DECIMAL_CONVERSION in
    revert_if (adjustedEntryFee =? 0) InvalidAmount ;;
    let* roomId := read roomCount in
    write (update_room roomId (fun old =>
      Room.mk roomId name description adjustedEntryFee drawTime 0
        encryptedWinningNumber (Room.winningNumber old) false OPEN 0 1 false 0)) ;;
    write (fun s => set_activeRoomIds (activeRoomIds s ++ [roomId]) s) ;;
    let* caller := ask msg_sender in
    emit (RoomCreated roomId name adjustedEntryFee drawTime caller) ;;
    let* n := checked_add roomId 1 in
    write (set_roomCount n))).

(* The scan for [roomId] in [activeRoomIds]. *)
Fixpoint is_active (roomId : N) (ids : list N) : bool :=
  match ids with
  | [] => false
  | i :: rest => if i =? roomId then true else is_active roomId rest
  end.

Definition resetRoom (roomId drawTime encryptedWinningNumber : N) : M unit :=
  onlyOwner (whenNotPaused (validRoom roomId (
    let* st := read (fun s => Room.state (room_at s roomId)) in
    revert_if (match st with CLOSED | REVEALED => false | _ => true end)
      RoomNotResettable ;;
    write (update_room roomId (Room.set_drawTime drawTime)) ;;
    write (update_room roomId (Room.set_encryptedWinningNumber encryptedWinningNumber)) ;;
    write (update_room roomId (Room.set_revealed false)) ;;
    write (update_room roomId (Room.set_state OPEN)) ;;
    write (update_room roomId (Room.set_winningNumber 0)) ;;
    let* round := read (fun s => Room.roundNumber (room_at s roomId)) in
    let* round' := checked_add round 1 in
    write (update_room roomId (Room.set_roundNumber round')) ;;
    write (update_room roomId (Room.set_feesCollected false)) ;;
    write (update_room roomId (Room.set_revealTime 0)) ;;
    let* ids := read activeRoomIds in
    (if is_active roomId ids then ret tt
     else write (set_activeRoomIds (ids ++ [roomId]))) ;;
    emit (RoomReset roomId round' drawTime) ;;
    emit (RoomStateUpdated roomId OPEN round')))).

Definition buyTicket (roomId number : N) : M unit :=
  nonReentrant (whenNotPaused (validRoom roomId (
    let* now := ask block_timestamp in
    let* drawTime := read (fun s => Room.drawTime (room_at s roomId)) in
    let* round := read (fun s => Room.roundNumber (room_at s roomId)) in
    (if drawTime <=? now then
       write (update_room roomId (Room.set_state PENDING_REVEAL)) ;;
       emit (RoomStateUpdated roomId PENDING_REVEAL round) ;;
       revert BuyTicketAfterDrawTime
     else ret tt) ;;
    revert_if (99 <? number) InvalidNumber ;;
    let* caller := ask msg_sender in
    let* self := ask this in
    let* entryFee := read (fun s => Room.entryFee (room_at s roomId)) in
    let* allowed := USDC_allowance caller self in
    revert_if (allowed <? entryFee) InsufficientAllowance ;;
    let* transferSuccess := USDC_transferFrom caller self entryFee in
    revert_if (negb transferSuccess) TransferFailed ;;
    let prizeAmount := entryFee in
    let* tickets := read (fun s => tickets_of s roomId round) in
    let ticketId := N.of_nat (length tickets) in
    let newTicket := Ticket.mk ticketId roomId caller number round false in
    write (store_tickets roomId round (tickets ++ [newTicket])) ;;
    write (push_ticket_id roomId caller ticketId) ;;
    write (store_claimed roomId round ticketId false) ;;
    let* pool := read (fun s => Room.prizePool (room_at s roomId)) in
    let* pool' := checked_add pool prizeAmount in
    write (update_room roomId (Room.set_prizePool pool')) ;;
    let* total := read (fun s => PlayerStats.totalTickets (stats_of s caller)) in
    let* total' := checked_add total 1 in
    write (update_stats caller (PlayerStats.set_totalTickets total')) ;;
    let* inRoom := read (fun s => load 0 (PlayerStats.roomTickets (stats_of s caller)) roomId) in
    let* inRoom' := checked_add inRoom 1 in
    write (update_stats caller (fun p =>
      PlayerStats.set_roomTickets (<[roomId := inRoom']> (PlayerStats.roomTickets p)) p)) ;;
    emit (TicketPurchased roomId caller number ticketId round)))).

(** Fixed-width big-endian bytes, as [abi.encodePacked] lays out static types. *)
Fixpoint be_bytes (len : nat) (v : N) : list N :=
  match len with
  | O => []
  | S k => (N.shiftr v (8 * N.of_nat k)) mod 256 :: be_bytes k v
  end.

(** [abi.encodePacked(uint8, bytes32, uint256, address, uint256)]. *)
Definition encodePacked (winningNumber privateKey roomId : N) (operator : address)
    (roundNumber : N) : list N :=
  be_bytes 1 winningNumber ++ be_bytes 32 privateKey ++ be_bytes 32 roomId
    ++ be_bytes 20 operator ++ be_bytes 32 roundNumber.

Definition verifyWinningNumber (s : Storage) (roomId privateKey winningNumber : N) : bool :=
  let room := room_at s roomId in
  let calculatedHash :=
    keccak256 (encodePacked winningNumber privateKey roomId (_owner s)
                 (Room.roundNumber room)) in
  (calculatedHash =? Room.encryptedWinningNumber room) && (winningNumber <=? 99).

(** The pass of [revealWinningNumber] over the round's tickets, from index [i];
    [todo] is the part of the array not yet visited (the loop changes only
    [win] flags, so the numbers and players read are those of the array). *)
Fixpoint reveal_loop (roomId round winningNumber : N) (todo : list Ticket.t) (i : N)
    : M unit :=
  match todo with
  | [] => ret tt
  | t :: rest =>
      (if Ticket.number t =? winningNumber then
         write (fun s => store_tickets roomId round
                  (alter (Ticket.set_win true) (N.to_nat i) (tickets_of s roomId round)) s) ;;
         let player := Ticket.player t in
         let* wins := read (fun s => PlayerStats.totalWins (stats_of s player)) in
         let* wins' := checked_add wins 1 in
         write (update_stats player (PlayerStats.set_totalWins wins')) ;;
         let* inRoom := read (fun s => load 0 (PlayerStats.roomWins (stats_of s player)) roomId) in
         let* inRoom' := checked_add inRoom 1 in
         write (update_stats player (fun p =>
           PlayerStats.set_roomWins (<[roomId := inRoom']> (PlayerStats.roomWins p)) p)) ;;
         emit (TicketWinStatusUpdated roomId i true round)
       else ret tt) ;;
      reveal_loop roomId round winningNumber rest (i + 1)
  end.

Definition revealWinningNumber (roomId privateKey winningNumber : N) : M unit :=
  onlyOwner (whenNotPaused (validRoom roomId (
    let* already := read (fun s => Room.revealed (room_at s roomId)) in
    revert_if already AlreadyRevealed ;;
    let* ok := read (fun s => verifyWinningNumber s roomId privateKey winningNumber) in
    revert_if (negb ok) InvalidVerification ;;
    write (update_room roomId (Room.set_winningNumber winningNumber)) ;;
    write (update_room roomId (Room.set_revealed true)) ;;
    write (update_room roomId (Room.set_state REVEALED)) ;;
    let* now := ask block_timestamp in
    write (update_room roomId (Room.set_revealTime now)) ;;
    let* round := read (fun s => Room.roundNumber (room_at s roomId)) in
    let* tickets := read (fun s => tickets_of s roomId round) in
    reveal_loop roomId round winningNumber tickets 0 ;;
    emit (WinningNumberRevealed roomId winningNumber round) ;;
    emit (RoomStateUpdated roomId REVEALED round)))).

(** First loop of [claimPrize]: tickets of the round whose number is the
    room's winning number ([winningTicketCount++] cannot overflow: the count
    is at most the array length). *)
Fixpoint count_winning (winningNumber : N) (ts : list Ticket.t) (count : N) : N :=
  match ts with
  | [] => count
  | t :: rest =>
      count_winning winningNumber rest
        (if Ticket.number t =? winningNumber then count + 1 else count)
  end.

(** Second loop of [claimPrize], from index [i]: false at the first winning
    ticket not yet claimed. *)
Fixpoint all_claimed (claimed : N -> bool) (winningNumber : N)
    (ts : list Ticket.t) (i : N) : bool :=
  match ts with
  | [] => true
  | t :: rest =>
      if (Ticket.number t =? winningNumber) && negb (claimed i) then false
      else all_claimed claimed winningNumber rest (i + 1)
  end.

Definition claimPrize (roomId ticketId : N) : M unit :=
  nonReentrant (whenNotPaused (validRoom roomId (
    let* round := read (fun s => Room.roundNumber (room_at s roomId)) in
    let* roundTickets := read (fun s => tickets_of s roomId round) in
    revert_if (N.of_nat (length roundTickets) <=? ticketId) InvalidTicket ;;
    match roundTickets !! N.to_nat ticketId with
    | None => revert (Panic 0x32)
    | Some ticket =>
        revert_if (negb (Ticket.roundNumber ticket =? round)) InvalidTicket ;;
        let* caller := ask msg_sender in
        revert_if (negb (Ticket.player ticket =? caller)) InvalidOwner ;;
        let* winningNumber := read (fun s => Room.winningNumber (room_at s roomId)) in
        revert_if (negb (Ticket.number ticket =? winningNumber)) InvalidTicket ;;
        let* claimed := read (fun s => is_claimed s roomId round ticketId) in
        revert_if claimed InvalidTicket ;;
        write (store_claimed roomId round ticketId true) ;;
        let* n := read (fun s => PlayerStats.totalClaimed (stats_of s caller)) in
        let* n' := checked_add n 1 in
        write (update_stats caller (PlayerStats.set_totalClaimed n')) ;;
        let winningTicketCount := count_winning winningNumber roundTickets 0 in
        (if 0 <? winningTicketCount then
           let* pool := read (fun s => Room.prizePool (room_at s roomId)) in
           let* scaled := checked_mul pool PLATFORM_FEE in
           let platformFee := scaled / 100 in
           let* adjustedPrizePool := checked_sub pool platformFee in
           let* collected := read (fun s => Room.feesCollected (room_at s roomId)) in
           (if collected then ret tt
            else
              let* fees := read collectedFees in
              let* fees' := checked_add fees platformFee in
              write (set_collectedFees fees') ;;
              write (update_room roomId (Room.set_feesCollected true))) ;;
           let prizeAmount := adjustedPrizePool / winningTicketCount in
           let* success := USDC_transfer caller prizeAmount in
           revert_if (negb success) TransferFailed ;;
           emit (PrizeClaimed roomId caller prizeAmount ticketId round)
         else ret tt) ;;
        let* allWinningTicketsClaimed :=
          read (fun s => all_claimed (is_claimed s roomId round) winningNumber roundTickets 0) in
        if allWinningTicketsClaimed then
          if winningTicketCount =? 0 then
            write (update_room roomId (Room.set_state CLOSED)) ;;
            emit (RoomStateUpdated roomId CLOSED round)
          else
            write (update_room roomId (Room.set_prizePool 0)) ;;
            write (update_room roomId (Room.set_state CLOSED)) ;;
            emit (RoomStateUpdated roomId CLOSED round)
        else ret tt
    end))).

Definition emergencyPause : M unit :=
  onlyOwner (whenNotPaused (
    write (set_paused true) ;;
    let* caller := ask msg_sender in
    emit (Paused caller))).

Definition resumeOperations : M unit :=
  onlyOwner (whenPaused (
    write (set_paused false) ;;
    let* caller := ask msg_sender in
    emit (Unpaused caller))).

Definition withdrawFees (amount : N) : M unit :=
  onlyOwner (nonReentrant (
    let* fees := read collectedFees in
    let withdrawAmount := if amount =? 0 then fees else amount in
    revert_if (fees <? withdrawAmount) InvalidAmount ;;
    let* fees' := checked_sub fees withdrawAmount in
    write (set_collectedFees fees') ;;
    let* o := read _owner in
    let* success := USDC_transfer o withdrawAmount in
    revert_if (negb success) TransferFailed ;;
    emit (FeesWithdrawn o withdrawAmount))).

Definition emergencyWithdrawTokens (amount : N) : M unit :=
  onlyOwner (
    let* self := ask this in
    let* balance := USDC_balanceOf self in
    revert_if (balance <? amount) InvalidAmount ;;
    let* o := read _owner in
    let* success := USDC_transfer o amount in
    revert_if (negb success) TransferFailed).

Definition forceCloseRoom (roomId : N) : M unit :=
  onlyOwner (nonReentrant (validRoom roomId (
    let* st := read (fun s => Room.state (room_at s roomId)) in
    revert_if (match st with REVEALED => false | _ => true end) InvalidState ;;
    let* now := ask block_timestamp in
    let* revealTime := read (fun s => Room.revealTime (room_at s roomId)) in
    let* deadline := checked_add revealTime GRACE_PERIOD in
    revert_if (now <? deadline) GracePeriodNotPassed ;;
    write (update_room roomId (Room.set_state CLOSED)) ;;
    let* round := read (fun s => Room.roundNumber (room_at s roomId)) in
    emit (RoomStateUpdated roomId CLOSED round)))).

(* Ownable *)
Definition transferOwnership (newOwner : address) : M unit :=
  onlyOwner (
    revert_if (newOwner =? 0) (OwnableInvalidOwner 0) ;;
    let* old := read _owner in
    write (set_owner newOwner) ;;
    emit (OwnershipTransferred old newOwner)).

Definition renounceOwnership : M unit :=
  onlyOwner (
    let* old := read _owner in
    write (set_owner 0) ;;
    emit (OwnershipTransferred old 0)).

(** ** Transactions *)

Inductive Receipt :=
| Success (effects : list Effect)
| Failure (e : Error).

(** A transaction commits the storage its body ends with; when the body
    reverts, every write made on the way is discarded. *)
Definition transact (body : M unit) (env : Env) (s : Storage) : Storage * Receipt :=
  match body env (mkMachine s []) with
  | Done _ m => (storage m, Success (trace m))
  | Reverted e _ => (s, Failure e)
  end.

(** The storage and trace a reverting body had reached (never committed). *)
Definition in_flight (body : M unit) (env : Env) (s : Storage) : Machine :=
  match body env (mkMachine s []) with
  | Done _ m => m
  | Reverted _ m => m
  end.

Inductive Call :=
| CreateRoom (name description : string) (entryFee drawTime encryptedWinningNumber : N)
| ResetRoom (roomId drawTime encryptedWinningNumber : N)
| BuyTicket (roomId number : N)
| RevealWinningNumber (roomId privateKey winningNumber : N)
| ClaimPrize (roomId ticketId : N)
| EmergencyPause
| ResumeOperations
| WithdrawFees (amount : N)
| EmergencyWithdrawTokens (amount : N)
| ForceCloseRoom (roomId : N)
| TransferOwnership (newOwner : address)
| RenounceOwnership.

Definition dispatch (c : Call) : M unit :=
  match c with
  | CreateRoom n d f t e => createRoom n d f t e
  | ResetRoom r t e => resetRoom r t e
  | BuyTicket r n => buyTicket r n
  | RevealWinningNumber r k n => revealWinningNumber r k n
  | ClaimPrize r t => claimPrize r t
  | EmergencyPause => emergencyPause
  | ResumeOperations => resumeOperations
  | WithdrawFees a => withdrawFees a
  | EmergencyWithdrawTokens a => emergencyWithdrawTokens a
  | ForceCloseRoom r => forceCloseRoom r
  | TransferOwnership o => transferOwnership o
  | RenounceOwnership => renounceOwnership
  end.

Definition execute (c : Call) (env : Env) (s : Storage) : Storage * Receipt :=
  transact (dispatch c) env s.

(** A history is a list of transactions, each with its own context. *)
Fixpoint run (history : list (Env * Call)) (s : Storage) : Storage :=
  match history with
  | [] => s
  | (env, c) :: rest => run rest (fst (execute c env s))
  end.

Definition reachable (s : Storage) : Prop :=
  exists deployer token history, s = run history (deploy deployer token).

(** Amounts the token was asked to pay out by a transaction. *)
Fixpoint transfers (effects : list Effect) : list (address * N) :=
  match effects with
  | [] => []
  | TokenTransfer to amount _ :: rest => (to, amount) :: transfers rest
  | _ :: rest => transfers rest
  end.

Definition paid_out (r : Receipt) : N :=
  match r with
  | Success effects => fold_right (fun p acc => snd p + acc) 0 (transfers effects)
  | Failure _ => 0
  end.

(** ** Relations used to state what the operations preserve *)

(** The machine an outcome ends in. *)
Definition final {A} (o : Outcome A) : Machine :=
  match o with Done _ m => m | Reverted _ m => m end.

(** Same ticket up to its [win] flag. *)
Definition same_ticket (t t' : Ticket.t) : Prop :=
  Ticket.id t' = Ticket.id t /\ Ticket.roomId t' = Ticket.roomId t /\
  Ticket.player t' = Ticket.player t /\ Ticket.number t' = Ticket.number t /\
  Ticket.roundNumber t' = Ticket.roundNumber t.

Definition numbers_in_range (s : Storage) : Prop :=
  forall roomId round, Forall (fun t => Ticket.number t <= 99) (tickets_of s roomId round).

(** What every write sequence of the contract preserves, from [s] to [s']. *)
Record frame (s s' : Storage) : Prop := {
  frame_roomCount : roomCount s <= roomCount s';
  frame_round : forall roomId, roomId < roomCount s ->
    Room.roundNumber (room_at s roomId) <= Room.roundNumber (room_at s' roomId);
  frame_revealed : forall roomId, roomId < roomCount s ->
    Room.roundNumber (room_at s' roomId) = Room.roundNumber (room_at s roomId) ->
    Room.revealed (room_at s roomId) = true ->
    Room.revealed (room_at s' roomId) = true /\
    Room.winningNumber (room_at s' roomId) = Room.winningNumber (room_at s roomId);
  frame_tickets : forall roomId round (i : nat) t,
    tickets_of s roomId round !! i = Some t ->
    exists t', tickets_of s' roomId round !! i = Some t' /\ same_ticket t t';
  frame_claimed : forall roomId round ticketId,
    ticketId < N.of_nat (length (tickets_of s roomId round)) ->
    is_claimed s roomId round ticketId = true ->
    is_claimed s' roomId round ticketId = true;
  frame_numbers : numbers_in_range s -> numbers_in_range s'
}.

(** Values of the five field types. *)
Definition well_typed (winningNumber privateKey roomId : N) (operator : address)
    (roundNumber : N) : Prop :=
  winningNumber < 2 ^ 8 /\ privateKey < 2 ^ 256 /\ roomId < 2 ^ 256 /\
  operator < 2 ^ 160 /\ roundNumber < 2 ^ 256.

(** Two distinct messages with the same digest. *)
Definition collision (m m' : list N) : Prop :=
  m <> m' /\ keccak256 m = keccak256 m'.

Definition succeeded (r : Receipt) : bool :=
  match r with Success _ => true | Failure _ => false end.

Definition effects_of (r : Receipt) : list Effect :=
  match r with Success effects => effects | Failure _ => [] end.

(** The round's tickets, winning number, fee and share as [claimPrize]
    computes them from the room. *)
Definition round_tickets (s : Storage) (roomId : N) : list Ticket.t :=
  tickets_of s roomId (Room.roundNumber (room_at s roomId)).
Definition winners (s : Storage) (roomId : N) : N :=
  count_winning (Room.winningNumber (room_at s roomId)) (round_tickets s roomId) 0.
Definition claim_fee (s : Storage) (roomId : N) : N :=
  Room.prizePool (room_at s roomId) * PLATFORM_FEE / 100.
Definition claim_share (s : Storage) (roomId : N) : N :=
  (Room.prizePool (room_at s roomId) - claim_fee s roomId) / winners s roomId.

(** Whether every winning ticket of the room's round is claimed. *)
Definition round_settled (s : Storage) (roomId : N) : bool :=
  all_claimed (is_claimed s roomId (Room.roundNumber (room_at s roomId)))
    (Room.winningNumber (room_at s roomId)) (round_tickets s roomId) 0.

(** What a successful [claimPrize roomId ticketId] from [s] to [s'] with
    [effects] amounts to. *)
Record claim_outcome (env : Env) (s s' : Storage) (roomId ticketId : N)
    (effects : list Effect) : Prop := {
  co_status : _status s = NOT_ENTERED;
  co_paused : _paused s = false;
  co_room : roomId < roomCount s;
  co_ticket : exists t,
    round_tickets s roomId !! N.to_nat ticketId = Some t /\
    Ticket.roundNumber t = Room.roundNumber (room_at s roomId) /\
    Ticket.player t = msg_sender env /\
    Ticket.number t = Room.winningNumber (room_at s roomId);
  co_unclaimed :
    is_claimed s roomId (Room.roundNumber (room_at s roomId)) ticketId = false;
  co_winners : 0 < winners s roomId;
  co_transfers : transfers effects = [(msg_sender env, claim_share s roomId)];
  co_event :
    In (Emit (PrizeClaimed roomId (msg_sender env) (claim_share s roomId) ticketId
                (Room.roundNumber (room_at s roomId)))) effects;
  co_observed : forall to amount observed,
    In (TokenTransfer to amount observed) effects ->
    is_claimed observed roomId (Room.roundNumber (room_at s roomId)) ticketId = true;
  co_claimed : is_claimed s' roomId (Room.roundNumber (room_at s roomId)) ticketId = true;
  co_claimed_others : forall r n i,
    (r, n, i) <> (roomId, Room.roundNumber (room_at s roomId), ticketId) ->
    is_claimed s' r n i = is_claimed s r n i;
  co_tickets : forall r n, tickets_of s' r n = tickets_of s r n;
  co_fees : collectedFees s'
    = if Room.feesCollected (room_at s roomId) then collectedFees s
      else collectedFees s + claim_fee s roomId;
  co_room_after : room_at s' roomId
    = (if round_settled s' roomId
       then Room.set_state CLOSED (Room.set_prizePool 0
              (Room.set_feesCollected true (room_at s roomId)))
       else Room.set_feesCollected true (room_at s roomId));
  co_other_rooms : forall r, r <> roomId -> room_at s' r = room_at s r;
  co_roomCount : roomCount s' = roomCount s
}.

(** Winning tickets not claimed yet, counted as [all_claimed] scans them. *)
Fixpoint unclaimed (claimed : N -> bool) (winningNumber : N)
    (ts : list Ticket.t) (i : N) : N :=
  match ts with
  | [] => 0
  | t :: rest =>
      (if (Ticket.number t =? winningNumber) && negb (claimed i) then 1 else 0)
      + unclaimed claimed winningNumber rest (i + 1)
  end.

Definition unclaimed_winners (s : Storage) (roomId : N) : N :=
  unclaimed (is_claimed s roomId (Room.roundNumber (room_at s roomId)))
    (Room.winningNumber (room_at s roomId)) (round_tickets s roomId) 0.

(** A sequence of [claimPrize] calls on one room, by any callers for any
    tickets. *)
Definition claim_calls (roomId : N) (calls : list (Env * N)) : list (Env * Call) :=
  map (fun c => (fst c, ClaimPrize roomId (snd c))) calls.

(** The receipts of a history, in order. *)
Fixpoint receipts (history : list (Env * Call)) (s : Storage) : list Receipt :=
  match history with
  | [] => []
  | (env, c) :: rest => snd (execute c env s) :: receipts rest (fst (execute c env s))
  end.

Definition total_paid (rs : list Receipt) : N :=
  fold_right (fun r acc => paid_out r + acc) 0 rs.

Definition successes (rs : list Receipt) : N :=
  fold_right (fun r acc => (if succeeded r then 1 else 0) + acc) 0 rs.

(** ** Views *)

(** A static call: the value returned, or the error. *)
Definition call_view {A} (body : M A) (env : Env) (s : Storage) : A + Error :=
  match body env (mkMachine s []) with
  | Done a _ => inl a
  | Reverted e _ => inr e
  end.

Definition listActiveRooms : M (list N) := read activeRoomIds.

Definition getRoomDetails (roomId : N) : M Room.t :=
  validRoom roomId (read (fun s => room_at s roomId)).

Definition getTicketsForRound (roomId roundNumber : N) : M (list Ticket.t) :=
  validRoom roomId (read (fun s => tickets_of s roomId roundNumber)).

Definition isTicketClaimed (roomId roundNumber ticketId : N) : M bool :=
  read (fun s => is_claimed s roomId roundNumber ticketId).

Definition getWinningNumber (roomId : N) : M N :=
  validRoom roomId (
    let* revealed := read (fun s => Room.revealed (room_at s roomId)) in
    revert_if (negb revealed) InvalidState ;;
    read (fun s => Room.winningNumber (room_at s roomId))).

Definition getPrizePool (roomId : N) : M N :=
  validRoom roomId (read (fun s => Room.prizePool (room_at s roomId))).

Definition getCarryOverAmount (roomId : N) : M N :=
  validRoom roomId (read (fun s => Room.carryOverAmount (room_at s roomId))).

Definition getCurrentRound (roomId : N) : M N :=
  validRoom roomId (read (fun s => Room.roundNumber (room_at s roomId))).

Definition getTotalCollectedFees : M N := read collectedFees.

Definition isPaused : M bool := read _paused.

(** Inner loop of [getPlayerCount]: [player] against [seenAddresses[j]] for
    [j] from the given index, [remaining] entries to go; false at the first match. *)
Fixpoint is_new_player (seenAddresses : list address) (player : address)
    (j remaining : nat) : M bool :=
  match remaining with
  | O => ret true
  | S remaining' =>
      match seenAddresses !! j with
      | None => revert (Panic 0x32)
      | Some a =>
          if a =? player then ret false
          else is_new_player seenAddresses player (S j) remaining'
      end
  end.

(** Outer loop of [getPlayerCount] over the tickets not yet visited. *)
Fixpoint count_players (todo : list Ticket.t) (seenAddresses : list address)
    (uniqueCount : nat) : M N :=
  match todo with
  | [] => ret (N.of_nat uniqueCount)
  | t :: rest =>
      let player := Ticket.player t in
      let* isNew := is_new_player seenAddresses player 0 uniqueCount in
      if isNew then
        match seenAddresses !! uniqueCount with
        | None => revert (Panic 0x32)
        | Some _ =>
            count_players rest (<[uniqueCount := player]> seenAddresses) (S uniqueCount)
        end
      else count_players rest seenAddresses uniqueCount
  end.

Definition getPlayerCount (roomId roundNumber : N) : M N :=
  validRoom roomId (
    let* tickets := read (fun s => tickets_of s roomId roundNumber) in
    if N.of_nat (length tickets) =? 0 then ret 0
    else count_players tickets (replicate (length tickets) 0) 0).

Definition getCurrentRoundPlayerCount (roomId : N) : M N :=
  validRoom roomId (
    let* round := read (fun s => Room.roundNumber (room_at s roomId)) in
    getPlayerCount roomId round).

Definition getPlayerWinRate (roomId : N) (player : address) : M N :=
  validRoom roomId (
    let* ticketsInRoom :=
      read (fun s => load 0 (PlayerStats.roomTickets (stats_of s player)) roomId) in
    let* winsInRoom :=
      read (fun s => load 0 (PlayerStats.roomWins (stats_of s player)) roomId) in
    if ticketsInRoom =? 0 then ret 0
    else
      let* scaled := checked_mul winsInRoom 100 in
      ret (scaled / ticketsInRoom)).

Definition getTotalPlayerWins (player : address) : M N :=
  read (fun s => PlayerStats.totalWins (stats_of s player)).

Definition getTotalPlayerTickets (player : address) : M N :=
  read (fun s => PlayerStats.totalTickets (stats_of s player)).

Definition getPlayerRoomStats (roomId : N) (player : address) : M (N * N) :=
  validRoom roomId (
    read (fun s => (load 0 (PlayerStats.roomTickets (stats_of s player)) roomId,
                    load 0 (PlayerStats.roomWins (stats_of s player)) roomId))).

Definition getPlayerCompleteStats (player : address) : M (N * N * N) :=
  read (fun s => (PlayerStats.totalTickets (stats_of s player),
                  PlayerStats.totalWins (stats_of s player),
                  PlayerStats.totalClaimed (stats_of s player))).

(** Inner loop of [getTicketsForAddress]: the rounds from [round] down to 1,
    for the first one whose array holds index [ticketId] with a ticket of
    [player]. *)
Fixpoint find_ticket (s : Storage) (roomId : N) (player : address) (ticketId : N)
    (round : nat) : M (option Ticket.t) :=
  match round with
  | O => ret None
  | S below =>
      let stored := tickets_of s roomId (N.of_nat round) in
      if ticketId <? N.of_nat (length stored) then
        match stored !! N.to_nat ticketId with
        | None => revert (Panic 0x32)
        | Some ticket =>
            if Ticket.player ticket =? player then ret (Some ticket)
            else find_ticket s roomId player ticketId below
        end
      else find_ticket s roomId player ticketId below
  end.

(** A zero-initialised [Ticket] in memory. *)
Definition zero_ticket : Ticket.t := Ticket.mk 0 0 0 0 0 false.

Fixpoint lookup_tickets (s : Storage) (roomId : N) (player : address)
    (currentRound : N) (ticketIds : list N) : M (list Ticket.t) :=
  match ticketIds with
  | [] => ret []
  | ticketId :: rest =>
      let* found := find_ticket s roomId player ticketId (N.to_nat currentRound) in
      let* others := lookup_tickets s roomId player currentRound rest in
      ret (default zero_ticket found :: others)
  end.

Definition getTicketsForAddress (roomId : N) (player : address) : M (list Ticket.t) :=
  validRoom roomId (
    let* s := read (fun s => s) in
    let ticketIds := ticket_ids_of s roomId player in
    let currentRound := Room.roundNumber (room_at s roomId) in
    lookup_tickets s roomId player currentRound ticketIds).

(** ** The countdown shown for a draw time *)

Module Countdown.
Local Open Scope Z_scope.







End Countdown.

(** ** Invariants of the ledger *)

(** What holds of the rooms and tickets in every state the contract reaches. *)
Record ledger_wf (s : Storage) : Prop := {
  wf_ticket : forall roomId round (i : nat) t,
    tickets_of s roomId round !! i = Some t ->
    Ticket.id t = N.of_nat i /\ Ticket.roomId t = roomId /\
    Ticket.roundNumber t = round;
  wf_rounds : forall roomId round,
    tickets_of s roomId round <> [] ->
    roomId < roomCount s /\ 1 <= round <= Room.roundNumber (room_at s roomId);
  wf_claimed : forall roomId round ticketId,
    is_claimed s roomId round ticketId = true ->
    ticketId < N.of_nat (length (tickets_of s roomId round));
  wf_active : activeRoomIds s = map N.of_nat (seq 0 (N.to_nat (roomCount s)));
  wf_room : forall roomId, roomId < roomCount s ->
    Room.id (room_at s roomId) = roomId /\
    1 <= Room.roundNumber (room_at s roomId) /\
    1 <= Room.entryFee (room_at s roomId);
  wf_state : forall roomId,
    Room.state (room_at s roomId) <> PENDING_REVEAL /\
    (Room.revealed (room_at s roomId) = true ->
     Room.state (room_at s roomId) = REVEALED \/ Room.state (room_at s roomId) = CLOSED)
}.

(** How one write to a room may change it. *)
Definition room_step (old new : Room.t) : Prop :=
  Room.id new = Room.id old /\ Room.entryFee new = Room.entryFee old /\
  Room.roundNumber old <= Room.roundNumber new /\
  ((Room.state new = Room.state old /\ Room.revealed new = Room.revealed old) \/
   (Room.state new <> PENDING_REVEAL /\
    (Room.revealed new = true ->
     Room.state new = REVEALED \/ Room.state new = CLOSED))).

(** The winning tickets marked, as [revealWinningNumber] leaves the array. *)
Definition mark_winner (winningNumber : N) (t : Ticket.t) : Ticket.t :=
  if Ticket.number t =? winningNumber then Ticket.set_win true t else t.

(** What a successful [revealWinningNumber roomId privateKey winningNumber]
    from [s] to [s'] amounts to. *)
Record reveal_outcome (env : Env) (s s' : Storage)
    (roomId privateKey winningNumber : N) : Prop := {
  ro_owner : msg_sender env = _owner s;
  ro_paused : _paused s = false;
  ro_room : roomId < roomCount s;
  ro_unrevealed : Room.revealed (room_at s roomId) = false;
  ro_verified : verifyWinningNumber s roomId privateKey winningNumber = true;
  ro_room_after : room_at s' roomId
    = Room.set_revealTime (block_timestamp env)
        (Room.set_state REVEALED
           (Room.set_revealed true
              (Room.set_winningNumber winningNumber (room_at s roomId))));
  ro_other_rooms : forall r, r <> roomId -> room_at s' r = room_at s r;
  ro_tickets : tickets_of s' roomId (Room.roundNumber (room_at s roomId))
    = map (mark_winner winningNumber)
        (tickets_of s roomId (Room.roundNumber (room_at s roomId)));
  ro_other_tickets : forall r n,
    (r, n) <> (roomId, Room.roundNumber (room_at s roomId)) ->
    tickets_of s' r n = tickets_of s r n;
  ro_roomCount : roomCount s' = roomCount s;
  ro_claimed : forall r n i, is_claimed s' r n i = is_claimed s r n i;
  ro_fees : collectedFees s' = collectedFees s;
  ro_active : activeRoomIds s' = activeRoomIds s;
  ro_owner_after : _owner s' = _owner s;
  ro_paused_after : _paused s' = false
}.

(** ** Players' counters *)

(** A player's ticket and win counters for one room. *)
Definition room_tickets_of (s : Storage) (player : address) (roomId : N) : N :=
  load 0 (PlayerStats.roomTickets (stats_of s player)) roomId.
Definition room_wins_of (s : Storage) (player : address) (roomId : N) : N :=
  load 0 (PlayerStats.roomWins (stats_of s player)) roomId.

(** Tickets of [player] among [ts], and those of them carrying [number]. *)
Fixpoint owned (player : address) (ts : list Ticket.t) : N :=
  match ts with
  | [] => 0
  | t :: rest => (if Ticket.player t =? player then 1 else 0) + owned player rest
  end.
Fixpoint owned_with (player : address) (number : N) (ts : list Ticket.t) : N :=
  match ts with
  | [] => 0
  | t :: rest =>
      (if (Ticket.number t =? number) && (Ticket.player t =? player) then 1 else 0)
      + owned_with player number rest
  end.

(** Tickets that can still be counted as wins for [player]: those of the
    room's current round, until the round is revealed. *)
Definition pending (s : Storage) (player : address) (roomId : N) : N :=
  if Room.revealed (room_at s roomId) then 0
  else owned player (tickets_of s roomId (Room.roundNumber (room_at s roomId))).

(** Wins counted so far, and those that may still come, are within the
    tickets bought. *)
Definition stats_wf (s : Storage) : Prop :=
  forall player roomId,
    room_wins_of s player roomId + pending s player roomId
    <= room_tickets_of s player roomId.

(** ** The ticket ids recorded for a player *)

(** The tickets of [player] among [ts], in order. *)
Fixpoint held (player : address) (ts : list Ticket.t) : list Ticket.t :=
  match ts with
  | [] => []
  | t :: rest =>
      if Ticket.player t =? player then t :: held player rest else held player rest
  end.

(** The rounds [1 .. n]. *)
Definition rounds_upto (n : N) : list N := map N.of_nat (seq 1 (N.to_nat n)).

Definition ids_in_round (s : Storage) (roomId : N) (player : address) (round : N) : list N :=
  map Ticket.id (held player (tickets_of s roomId round)).

(** The ids of the tickets [player] holds in the room, round after round. *)
Definition recorded_ids (s : Storage) (roomId : N) (player : address) : list N :=
  flat_map (ids_in_round s roomId player)
    (rounds_upto (Room.roundNumber (room_at s roomId))).

(** [playerTicketIds] lists exactly those ids. *)
Definition ids_wf (s : Storage) : Prop :=
  forall roomId player, ticket_ids_of s roomId player = recorded_ids s roomId player.

(** What [getTicketsForAddress] may return for a recorded id: a ticket of
    the player stored at that index in one of the room's rounds. *)
Definition found_for (s : Storage) (roomId : N) (player : address) (upto : nat)
    (ticketId : N) (t : Ticket.t) : Prop :=
  exists round : nat,
    (1 <= round <= upto)%nat /\
    tickets_of s roomId (N.of_nat round) !! N.to_nat ticketId = Some t /\
    Ticket.player t = player.

(** A player's ticket counter for a room is the number of ids recorded for
    the player there. *)
Definition count_wf (s : Storage) : Prop :=
  forall player roomId,
    room_tickets_of s player roomId = N.of_nat (length (ticket_ids_of s roomId player)).

(** * Reasoning infrastructure *)

(** ** Packed encoding is injective on well-typed fields *)

Lemma fold_be_shift (bs : list N) : forall a,
  fold_left (fun acc b => acc * 256 + b) bs a
  = a * 256 ^ N.of_nat (length bs) + fold_left (fun acc b => acc * 256 + b) bs 0.
Proof.
  induction bs as [|y bs IH]; intros a.
  - simpl. lia.
  - cbn [fold_left length]. rewrite IH. rewrite (IH (0 * 256 + y)).
    rewrite Nat2N.inj_succ, N.pow_succ_r'. lia.
Qed.

Lemma length_be_bytes (len : nat) (v : N) : length (be_bytes len v) = len.
Proof. induction len; simpl; congruence. Qed.

Lemma be_to_N_be_bytes (len : nat) (v : N) :
  Keccak.be_to_N (be_bytes len v) = v mod 256 ^ N.of_nat len.
Proof.
  induction len as [|k IH].
  - simpl. by rewrite N.mod_1_r.
  - unfold Keccak.be_to_N in *. cbn [be_bytes fold_left].
    rewrite fold_be_shift, IH, length_be_bytes.
    rewrite Nat2N.inj_succ, N.pow_succ_r'.
    rewrite N.shiftr_div_pow2.
    replace (2 ^ (8 * N.of_nat k)) with (256 ^ N.of_nat k)
      by (rewrite N.pow_mul_r; reflexivity).
    rewrite (N.mul_comm 256), N.Div0.mod_mul_r. lia.
Qed.

Lemma be_bytes_inj (len : nat) (v v' : N) :
  v < 256 ^ N.of_nat len -> v' < 256 ^ N.of_nat len ->
  be_bytes len v = be_bytes len v' -> v = v'.
Proof.
  intros Hv Hv' E. apply (f_equal Keccak.be_to_N) in E.
  rewrite !be_to_N_be_bytes in E. by rewrite !N.mod_small in E.
Qed.

Lemma encodePacked_inj n k r o rd n' k' r' o' rd' :
  well_typed n k r o rd -> well_typed n' k' r' o' rd' ->
  encodePacked n k r o rd = encodePacked n' k' r' o' rd' ->
  (n, k, r, o, rd) = (n', k', r', o', rd').
Proof.
  intros (H1 & H2 & H3 & H4 & H5) (H1' & H2' & H3' & H4' & H5') E.
  unfold encodePacked in E.
  apply app_inj_1 in E as [E1 E]; [|by rewrite !length_be_bytes].
  apply app_inj_1 in E as [E2 E]; [|by rewrite !length_be_bytes].
  apply app_inj_1 in E as [E3 E]; [|by rewrite !length_be_bytes].
  apply app_inj_1 in E as [E4 E5]; [|by rewrite !length_be_bytes].
  apply be_bytes_inj in E1, E2, E3, E4, E5; try assumption.
  congruence.
Qed.

(** ** Symbolic execution *)

Lemma verifyWinningNumber_eq s roomId privateKey winningNumber :
  verifyWinningNumber s roomId privateKey winningNumber
  = (keccak256 (encodePacked winningNumber privateKey roomId (_owner s)
                  (Room.roundNumber (room_at s roomId)))
     =? Room.encryptedWinningNumber (room_at s roomId))
    && (winningNumber <=? 99).
Proof. reflexivity. Qed.

Opaque keccak256 encodePacked verifyWinningNumber.
Arguments load : simpl never.
Arguments room_at : simpl never.
Arguments tickets_of : simpl never.
Arguments is_claimed : simpl never.
Arguments stats_of : simpl never.

Section Load.
Context {K V : Type} `{Countable K}.
Lemma load_insert_eq (z v : V) (m : gmap K V) (k : K) : load z (<[k := v]> m) k = v.
Proof. unfold load. by rewrite lookup_insert_eq. Qed.
Lemma load_insert_ne (z v : V) (m : gmap K V) (k k' : K) :
  k ≠ k' -> load z (<[k := v]> m) k' = load z m k'.
Proof. intros. unfold load. by rewrite lookup_insert_ne. Qed.
Lemma load_empty (z : V) (k : K) : load z (∅ : gmap K V) k = z.
Proof. unfold load. by rewrite lookup_empty. Qed.
End Load.

Ltac unfold_sol :=
  unfold execute, transact, in_flight, dispatch,
    createRoom, resetRoom, buyTicket, revealWinningNumber, claimPrize,
    emergencyPause, resumeOperations, withdrawFees, emergencyWithdrawTokens,
    forceCloseRoom, transferOwnership, renounceOwnership,
    onlyOwner, whenNotPaused, whenPaused, nonReentrant, validRoom,
    USDC_allowance, USDC_balanceOf, USDC_transferFrom, USDC_transfer, token_call,
    checked_add, checked_mul, checked_sub, require, revert_if, emit, record,
    bind, ret, revert, read, write, ask in *.

Ltac unfold_storage :=
  unfold room_at, tickets_of, is_claimed, stats_of, ticket_ids_of,
    update_room, store_room, store_tickets, store_claimed, update_stats,
    push_ticket_id in *.

Lemma room_at_update_room_eq roomId f X :
  room_at (update_room roomId f X) roomId = f (room_at X roomId).
Proof. unfold room_at, update_room, store_room. simpl. apply load_insert_eq. Qed.
Lemma room_at_update_room_ne roomId r f X :
  roomId <> r -> room_at (update_room roomId f X) r = room_at X r.
Proof. intros. unfold room_at, update_room, store_room. simpl. by apply load_insert_ne. Qed.
Lemma tickets_of_store_tickets_eq roomId round ts X :
  tickets_of (store_tickets roomId round ts X) roomId round = ts.
Proof. unfold tickets_of, store_tickets. simpl. apply load_insert_eq. Qed.
Lemma tickets_of_store_tickets_ne roomId round r n ts X :
  (roomId, round) <> (r, n) -> tickets_of (store_tickets roomId round ts X) r n = tickets_of X r n.
Proof. intros. unfold tickets_of, store_tickets. simpl. by apply load_insert_ne. Qed.
Lemma is_claimed_store_claimed_eq roomId round ticketId b X :
  is_claimed (store_claimed roomId round ticketId b X) roomId round ticketId = b.
Proof. unfold is_claimed, store_claimed. simpl. apply load_insert_eq. Qed.
Lemma is_claimed_store_claimed_ne roomId round ticketId r n i b X :
  (roomId, round, ticketId) <> (r, n, i) ->
  is_claimed (store_claimed roomId round ticketId b X) r n i = is_claimed X r n i.
Proof. intros. unfold is_claimed, store_claimed. simpl. by apply load_insert_ne. Qed.
Lemma stats_of_update_stats_eq who f X :
  stats_of (update_stats who f X) who = f (stats_of X who).
Proof. unfold stats_of, update_stats. simpl. apply load_insert_eq. Qed.

(** Reads through writes to other fields. *)
Section ReadThroughWrite.
Variable X : Storage.

Lemma room_at_store_tickets a b ts r : room_at (store_tickets a b ts X) r = room_at X r.
Proof. reflexivity. Qed.
Lemma room_at_store_claimed a b c v r : room_at (store_claimed a b c v X) r = room_at X r.
Proof. reflexivity. Qed.
Lemma room_at_update_stats a f r : room_at (update_stats a f X) r = room_at X r.
Proof. reflexivity. Qed.
Lemma room_at_push_ticket_id a b c r : room_at (push_ticket_id a b c X) r = room_at X r.
Proof. reflexivity. Qed.
Lemma room_at_set_activeRoomIds v r : room_at (set_activeRoomIds v X) r = room_at X r.
Proof. reflexivity. Qed.
Lemma room_at_set_collectedFees v r : room_at (set_collectedFees v X) r = room_at X r.
Proof. reflexivity. Qed.
Lemma room_at_set_roomCount v r : room_at (set_roomCount v X) r = room_at X r.
Proof. reflexivity. Qed.
Lemma room_at_set_owner v r : room_at (set_owner v X) r = room_at X r.
Proof. reflexivity. Qed.
Lemma room_at_set_paused v r : room_at (set_paused v X) r = room_at X r.
Proof. reflexivity. Qed.
Lemma room_at_set_status v r : room_at (set_status v X) r = room_at X r.
Proof. reflexivity. Qed.
Lemma tickets_of_update_room a f r n : tickets_of (update_room a f X) r n = tickets_of X r n.
Proof. reflexivity. Qed.
Lemma tickets_of_store_claimed a b c v r n : tickets_of (store_claimed a b c v X) r n = tickets_of X r n.
Proof. reflexivity. Qed.
Lemma tickets_of_update_stats a f r n : tickets_of (update_stats a f X) r n = tickets_of X r n.
Proof. reflexivity. Qed.
Lemma tickets_of_push_ticket_id a b c r n : tickets_of (push_ticket_id a b c X) r n = tickets_of X r n.
Proof. reflexivity. Qed.
Lemma tickets_of_set_activeRoomIds v r n : tickets_of (set_activeRoomIds v X) r n = tickets_of X r n.
Proof. reflexivity. Qed.
Lemma tickets_of_set_collectedFees v r n : tickets_of (set_collectedFees v X) r n = tickets_of X r n.
Proof. reflexivity. Qed.
Lemma tickets_of_set_roomCount v r n : tickets_of (set_roomCount v X) r n = tickets_of X r n.
Proof. reflexivity. Qed.
Lemma tickets_of_set_owner v r n : tickets_of (set_owner v X) r n = tickets_of X r n.
Proof. reflexivity. Qed.
Lemma tickets_of_set_paused v r n : tickets_of (set_paused v X) r n = tickets_of X r n.
Proof. reflexivity. Qed.
Lemma tickets_of_set_status v r n : tickets_of (set_status v X) r n = tickets_of X r n.
Proof. reflexivity. Qed.
Lemma is_claimed_update_room a f r n i : is_claimed (update_room a f X) r n i = is_claimed X r n i.
Proof. reflexivity. Qed.
Lemma is_claimed_store_tickets a b ts r n i : is_claimed (store_tickets a b ts X) r n i = is_claimed X r n i.
Proof. reflexivity. Qed.
Lemma is_claimed_update_stats a f r n i : is_claimed (update_stats a f X) r n i = is_claimed X r n i.
Proof. reflexivity. Qed.
Lemma is_claimed_push_ticket_id a b c r n i : is_claimed (push_ticket_id a b c X) r n i = is_claimed X r n i.
Proof. reflexivity. Qed.
Lemma is_claimed_set_activeRoomIds v r n i : is_claimed (set_activeRoomIds v X) r n i = is_claimed X r n i.
Proof. reflexivity. Qed.
Lemma is_claimed_set_collectedFees v r n i : is_claimed (set_collectedFees v X) r n i = is_claimed X r n i.
Proof. reflexivity. Qed.
Lemma is_claimed_set_roomCount v r n i : is_claimed (set_roomCount v X) r n i = is_claimed X r n i.
Proof. reflexivity. Qed.
Lemma is_claimed_set_owner v r n i : is_claimed (set_owner v X) r n i = is_claimed X r n i.
Proof. reflexivity. Qed.
Lemma is_claimed_set_paused v r n i : is_claimed (set_paused v X) r n i = is_claimed X r n i.
Proof. reflexivity. Qed.
Lemma is_claimed_set_status v r n i : is_claimed (set_status v X) r n i = is_claimed X r n i.
Proof. reflexivity. Qed.
Lemma stats_of_update_room a f p : stats_of (update_room a f X) p = stats_of X p.
Proof. reflexivity. Qed.
Lemma stats_of_store_tickets a b ts p : stats_of (store_tickets a b ts X) p = stats_of X p.
Proof. reflexivity. Qed.
Lemma stats_of_store_claimed a b c v p : stats_of (store_claimed a b c v X) p = stats_of X p.
Proof. reflexivity. Qed.
Lemma stats_of_push_ticket_id a b c p : stats_of (push_ticket_id a b c X) p = stats_of X p.
Proof. reflexivity. Qed.
Lemma stats_of_set_activeRoomIds v p : stats_of (set_activeRoomIds v X) p = stats_of X p.
Proof. reflexivity. Qed.
Lemma stats_of_set_collectedFees v p : stats_of (set_collectedFees v X) p = stats_of X p.
Proof. reflexivity. Qed.
Lemma stats_of_set_roomCount v p : stats_of (set_roomCount v X) p = stats_of X p.
Proof. reflexivity. Qed.
Lemma stats_of_set_owner v p : stats_of (set_owner v X) p = stats_of X p.
Proof. reflexivity. Qed.
Lemma stats_of_set_paused v p : stats_of (set_paused v X) p = stats_of X p.
Proof. reflexivity. Qed.
Lemma stats_of_set_status v p : stats_of (set_status v X) p = stats_of X p.
Proof. reflexivity. Qed.
Lemma ticket_ids_of_update_room a f r p : ticket_ids_of (update_room a f X) r p = ticket_ids_of X r p.
Proof. reflexivity. Qed.
Lemma ticket_ids_of_store_tickets a b ts r p : ticket_ids_of (store_tickets a b ts X) r p = ticket_ids_of X r p.
Proof. reflexivity. Qed.
Lemma ticket_ids_of_store_claimed a b c v r p : ticket_ids_of (store_claimed a b c v X) r p = ticket_ids_of X r p.
Proof. reflexivity. Qed.
Lemma ticket_ids_of_update_stats a f r p : ticket_ids_of (update_stats a f X) r p = ticket_ids_of X r p.
Proof. reflexivity. Qed.
Lemma ticket_ids_of_set_activeRoomIds v r p : ticket_ids_of (set_activeRoomIds v X) r p = ticket_ids_of X r p.
Proof. reflexivity. Qed.
Lemma ticket_ids_of_set_collectedFees v r p : ticket_ids_of (set_collectedFees v X) r p = ticket_ids_of X r p.
Proof. reflexivity. Qed.
Lemma ticket_ids_of_set_roomCount v r p : ticket_ids_of (set_roomCount v X) r p = ticket_ids_of X r p.
Proof. reflexivity. Qed.
Lemma ticket_ids_of_set_owner v r p : ticket_ids_of (set_owner v X) r p = ticket_ids_of X r p.
Proof. reflexivity. Qed.
Lemma ticket_ids_of_set_paused v r p : ticket_ids_of (set_paused v X) r p = ticket_ids_of X r p.
Proof. reflexivity. Qed.
Lemma ticket_ids_of_set_status v r p : ticket_ids_of (set_status v X) r p = ticket_ids_of X r p.
Proof. reflexivity. Qed.
Lemma roomCount_update_room a f : roomCount (update_room a f X) = roomCount X.
Proof. reflexivity. Qed.
Lemma roomCount_store_tickets a b ts : roomCount (store_tickets a b ts X) = roomCount X.
Proof. reflexivity. Qed.
Lemma roomCount_store_claimed a b c v : roomCount (store_claimed a b c v X) = roomCount X.
Proof. reflexivity. Qed.
Lemma roomCount_update_stats a f : roomCount (update_stats a f X) = roomCount X.
Proof. reflexivity. Qed.
Lemma roomCount_push_ticket_id a b c : roomCount (push_ticket_id a b c X) = roomCount X.
Proof. reflexivity. Qed.
Lemma roomCount_set_activeRoomIds v : roomCount (set_activeRoomIds v X) = roomCount X.
Proof. reflexivity. Qed.
Lemma roomCount_set_collectedFees v : roomCount (set_collectedFees v X) = roomCount X.
Proof. reflexivity. Qed.
Lemma roomCount_set_owner v : roomCount (set_owner v X) = roomCount X.
Proof. reflexivity. Qed.
Lemma roomCount_set_paused v : roomCount (set_paused v X) = roomCount X.
Proof. reflexivity. Qed.
Lemma roomCount_set_status v : roomCount (set_status v X) = roomCount X.
Proof. reflexivity. Qed.
Lemma collectedFees_update_room a f : collectedFees (update_room a f X) = collectedFees X.
Proof. reflexivity. Qed.
Lemma collectedFees_store_tickets a b ts : collectedFees (store_tickets a b ts X) = collectedFees X.
Proof. reflexivity. Qed.
Lemma collectedFees_store_claimed a b c v : collectedFees (store_claimed a b c v X) = collectedFees X.
Proof. reflexivity. Qed.
Lemma collectedFees_update_stats a f : collectedFees (update_stats a f X) = collectedFees X.
Proof. reflexivity. Qed.
Lemma collectedFees_push_ticket_id a b c : collectedFees (push_ticket_id a b c X) = collectedFees X.
Proof. reflexivity. Qed.
Lemma collectedFees_set_activeRoomIds v : collectedFees (set_activeRoomIds v X) = collectedFees X.
Proof. reflexivity. Qed.
Lemma collectedFees_set_roomCount v : collectedFees (set_roomCount v X) = collectedFees X.
Proof. reflexivity. Qed.
Lemma collectedFees_set_owner v : collectedFees (set_owner v X) = collectedFees X.
Proof. reflexivity. Qed.
Lemma collectedFees_set_paused v : collectedFees (set_paused v X) = collectedFees X.
Proof. reflexivity. Qed.
Lemma collectedFees_set_status v : collectedFees (set_status v X) = collectedFees X.
Proof. reflexivity. Qed.
Lemma activeRoomIds_update_room a f : activeRoomIds (update_room a f X) = activeRoomIds X.
Proof. reflexivity. Qed.
Lemma activeRoomIds_store_tickets a b ts : activeRoomIds (store_tickets a b ts X) = activeRoomIds X.
Proof. reflexivity. Qed.
Lemma activeRoomIds_store_claimed a b c v : activeRoomIds (store_claimed a b c v X) = activeRoomIds X.
Proof. reflexivity. Qed.
Lemma activeRoomIds_update_stats a f : activeRoomIds (update_stats a f X) = activeRoomIds X.
Proof. reflexivity. Qed.
Lemma activeRoomIds_push_ticket_id a b c : activeRoomIds (push_ticket_id a b c X) = activeRoomIds X.
Proof. reflexivity. Qed.
Lemma activeRoomIds_set_collectedFees v : activeRoomIds (set_collectedFees v X) = activeRoomIds X.
Proof. reflexivity. Qed.
Lemma activeRoomIds_set_roomCount v : activeRoomIds (set_roomCount v X) = activeRoomIds X.
Proof. reflexivity. Qed.
Lemma activeRoomIds_set_owner v : activeRoomIds (set_owner v X) = activeRoomIds X.
Proof. reflexivity. Qed.
Lemma activeRoomIds_set_paused v : activeRoomIds (set_paused v X) = activeRoomIds X.
Proof. reflexivity. Qed.
Lemma activeRoomIds_set_status v : activeRoomIds (set_status v X) = activeRoomIds X.
Proof. reflexivity. Qed.
Lemma owner_update_room a f : _owner (update_room a f X) = _owner X.
Proof. reflexivity. Qed.
Lemma owner_store_tickets a b ts : _owner (store_tickets a b ts X) = _owner X.
Proof. reflexivity. Qed.
Lemma owner_store_claimed a b c v : _owner (store_claimed a b c v X) = _owner X.
Proof. reflexivity. Qed.
Lemma owner_update_stats a f : _owner (update_stats a f X) = _owner X.
Proof. reflexivity. Qed.
Lemma owner_push_ticket_id a b c : _owner (push_ticket_id a b c X) = _owner X.
Proof. reflexivity. Qed.
Lemma owner_set_activeRoomIds v : _owner (set_activeRoomIds v X) = _owner X.
Proof. reflexivity. Qed.
Lemma owner_set_collectedFees v : _owner (set_collectedFees v X) = _owner X.
Proof. reflexivity. Qed.
Lemma owner_set_roomCount v : _owner (set_roomCount v X) = _owner X.
Proof. reflexivity. Qed.
Lemma owner_set_paused v : _owner (set_paused v X) = _owner X.
Proof. reflexivity. Qed.
Lemma owner_set_status v : _owner (set_status v X) = _owner X.
Proof. reflexivity. Qed.
Lemma paused_update_room a f : _paused (update_room a f X) = _paused X.
Proof. reflexivity. Qed.
Lemma paused_store_tickets a b ts : _paused (store_tickets a b ts X) = _paused X.
Proof. reflexivity. Qed.
Lemma paused_store_claimed a b c v : _paused (store_claimed a b c v X) = _paused X.
Proof. reflexivity. Qed.
Lemma paused_update_stats a f : _paused (update_stats a f X) = _paused X.
Proof. reflexivity. Qed.
Lemma paused_push_ticket_id a b c : _paused (push_ticket_id a b c X) = _paused X.
Proof. reflexivity. Qed.
Lemma paused_set_activeRoomIds v : _paused (set_activeRoomIds v X) = _paused X.
Proof. reflexivity. Qed.
Lemma paused_set_collectedFees v : _paused (set_collectedFees v X) = _paused X.
Proof. reflexivity. Qed.
Lemma paused_set_roomCount v : _paused (set_roomCount v X) = _paused X.
Proof. reflexivity. Qed.
Lemma paused_set_owner v : _paused (set_owner v X) = _paused X.
Proof. reflexivity. Qed.
Lemma paused_set_status v : _paused (set_status v X) = _paused X.
Proof. reflexivity. Qed.
Lemma status_update_room a f : _status (update_room a f X) = _status X.
Proof. reflexivity. Qed.
Lemma status_store_tickets a b ts : _status (store_tickets a b ts X) = _status X.
Proof. reflexivity. Qed.
Lemma status_store_claimed a b c v : _status (store_claimed a b c v X) = _status X.
Proof. reflexivity. Qed.
Lemma status_update_stats a f : _status (update_stats a f X) = _status X.
Proof. reflexivity. Qed.
Lemma status_push_ticket_id a b c : _status (push_ticket_id a b c X) = _status X.
Proof. reflexivity. Qed.
Lemma status_set_activeRoomIds v : _status (set_activeRoomIds v X) = _status X.
Proof. reflexivity. Qed.
Lemma status_set_collectedFees v : _status (set_collectedFees v X) = _status X.
Proof. reflexivity. Qed.
Lemma status_set_roomCount v : _status (set_roomCount v X) = _status X.
Proof. reflexivity. Qed.
Lemma status_set_owner v : _status (set_owner v X) = _status X.
Proof. reflexivity. Qed.
Lemma status_set_paused v : _status (set_paused v X) = _status X.
Proof. reflexivity. Qed.
End ReadThroughWrite.

Create Rewrite HintDb storage.

#[global] Hint Rewrite
  room_at_store_tickets room_at_store_claimed room_at_update_stats room_at_push_ticket_id
  room_at_set_activeRoomIds room_at_set_collectedFees room_at_set_roomCount room_at_set_owner
  room_at_set_paused room_at_set_status tickets_of_update_room tickets_of_store_claimed
  tickets_of_update_stats tickets_of_push_ticket_id tickets_of_set_activeRoomIds tickets_of_set_collectedFees
  tickets_of_set_roomCount tickets_of_set_owner tickets_of_set_paused tickets_of_set_status
  is_claimed_update_room is_claimed_store_tickets is_claimed_update_stats is_claimed_push_ticket_id
  is_claimed_set_activeRoomIds is_claimed_set_collectedFees is_claimed_set_roomCount is_claimed_set_owner
  is_claimed_set_paused is_claimed_set_status stats_of_update_room stats_of_store_tickets
  stats_of_store_claimed stats_of_push_ticket_id stats_of_set_activeRoomIds stats_of_set_collectedFees
  stats_of_set_roomCount stats_of_set_owner stats_of_set_paused stats_of_set_status
  ticket_ids_of_update_room ticket_ids_of_store_tickets ticket_ids_of_store_claimed ticket_ids_of_update_stats
  ticket_ids_of_set_activeRoomIds ticket_ids_of_set_collectedFees ticket_ids_of_set_roomCount ticket_ids_of_set_owner
  ticket_ids_of_set_paused ticket_ids_of_set_status roomCount_update_room roomCount_store_tickets
  roomCount_store_claimed roomCount_update_stats roomCount_push_ticket_id roomCount_set_activeRoomIds
  roomCount_set_collectedFees roomCount_set_owner roomCount_set_paused roomCount_set_status
  collectedFees_update_room collectedFees_store_tickets collectedFees_store_claimed collectedFees_update_stats
  collectedFees_push_ticket_id collectedFees_set_activeRoomIds collectedFees_set_roomCount collectedFees_set_owner
  collectedFees_set_paused collectedFees_set_status activeRoomIds_update_room activeRoomIds_store_tickets
  activeRoomIds_store_claimed activeRoomIds_update_stats activeRoomIds_push_ticket_id activeRoomIds_set_collectedFees
  activeRoomIds_set_roomCount activeRoomIds_set_owner activeRoomIds_set_paused activeRoomIds_set_status
  owner_update_room owner_store_tickets owner_store_claimed owner_update_stats
  owner_push_ticket_id owner_set_activeRoomIds owner_set_collectedFees owner_set_roomCount
  owner_set_paused owner_set_status paused_update_room paused_store_tickets
  paused_store_claimed paused_update_stats paused_push_ticket_id paused_set_activeRoomIds
  paused_set_collectedFees paused_set_roomCount paused_set_owner paused_set_status
  status_update_room status_store_tickets status_store_claimed status_update_stats
  status_push_ticket_id status_set_activeRoomIds status_set_collectedFees status_set_roomCount
  status_set_owner status_set_paused
  : storage.

Lemma set_roomCount_read v X : roomCount (set_roomCount v X) = v.
Proof. reflexivity. Qed.
Lemma set_collectedFees_read v X : collectedFees (set_collectedFees v X) = v.
Proof. reflexivity. Qed.
Lemma set_activeRoomIds_read v X : activeRoomIds (set_activeRoomIds v X) = v.
Proof. reflexivity. Qed.
Lemma set_owner_read v X : _owner (set_owner v X) = v.
Proof. reflexivity. Qed.
Lemma set_paused_read v X : _paused (set_paused v X) = v.
Proof. reflexivity. Qed.
Lemma set_status_read v X : _status (set_status v X) = v.
Proof. reflexivity. Qed.

#[global] Hint Rewrite
  room_at_update_room_eq tickets_of_store_tickets_eq is_claimed_store_claimed_eq
  stats_of_update_stats_eq set_roomCount_read set_collectedFees_read
  set_activeRoomIds_read set_owner_read set_paused_read set_status_read
  : storage.

Ltac storage_norm_goal := autorewrite with storage.

Ltac branch :=
  match goal with
  | |- context [match ?b with _ => _ end] =>
      lazymatch b with
      | context [match _ with _ => _ end] => fail
      | _ => destruct b eqn:?; simpl; storage_norm_goal; simpl
      end
  end.

Ltac sym_exec := unfold_sol; simpl; storage_norm_goal; simpl.

Lemma same_ticket_refl t : same_ticket t t.
Proof. by repeat split. Qed.

Lemma same_ticket_trans t1 t2 t3 :
  same_ticket t1 t2 -> same_ticket t2 t3 -> same_ticket t1 t3.
Proof. unfold same_ticket. intuition congruence. Qed.

Lemma frame_refl s : frame s s.
Proof.
  split; try done; try lia.
  intros. eexists; split; [eassumption | apply same_ticket_refl].
Qed.

Lemma frame_tickets_length s s' roomId round :
  frame s s' ->
  (length (tickets_of s roomId round) <= length (tickets_of s' roomId round))%nat.
Proof.
  intros F.
  destruct (tickets_of s roomId round) as [|t0 ts] eqn:E using rev_ind; [simpl; lia|].
  clear IHts.
  destruct (frame_tickets _ _ F roomId round (length ts) t0) as (t' & Ht' & _).
  - rewrite E. rewrite lookup_app_r by lia. by rewrite Nat.sub_diag.
  - apply lookup_lt_Some in Ht'. rewrite length_app. simpl. lia.
Qed.

Lemma frame_trans s1 s2 s3 : frame s1 s2 -> frame s2 s3 -> frame s1 s3.
Proof.
  intros F G. split.
  - pose proof (frame_roomCount _ _ F). pose proof (frame_roomCount _ _ G). lia.
  - intros r Hr. pose proof (frame_roomCount _ _ F).
    pose proof (frame_round _ _ F r Hr).
    pose proof (frame_round _ _ G r ltac:(lia)). lia.
  - intros r Hr Heq Hrev. pose proof (frame_roomCount _ _ F).
    pose proof (frame_round _ _ F r Hr).
    pose proof (frame_round _ _ G r ltac:(lia)).
    destruct (frame_revealed _ _ F r Hr ltac:(lia) Hrev) as [H2 H3].
    destruct (frame_revealed _ _ G r ltac:(lia) ltac:(lia) H2) as [H4 H5].
    split; congruence.
  - intros r n i t Ht.
    destruct (frame_tickets _ _ F _ _ _ _ Ht) as (t2 & Ht2 & S2).
    destruct (frame_tickets _ _ G _ _ _ _ Ht2) as (t3 & Ht3 & S3).
    exists t3; split; [done | by eapply same_ticket_trans].
  - intros r n i Hi Hc.
    pose proof (frame_tickets_length _ _ r n F).
    apply (frame_claimed _ _ G); [lia|]. by apply (frame_claimed _ _ F).
  - intros H. by apply (frame_numbers _ _ G), (frame_numbers _ _ F).
Qed.

(** Writes outside the four fields the frame speaks about. *)
Lemma frame_core s X X' :
  rooms X' = rooms X -> roomTicketsByRound X' = roomTicketsByRound X ->
  ticketClaimed X' = ticketClaimed X -> roomCount X' = roomCount X ->
  frame s X -> frame s X'.
Proof.
  intros Hr Ht Hc Hn F. apply (frame_trans _ _ _ F).
  split; unfold numbers_in_range, room_at, tickets_of, is_claimed;
    rewrite ?Hr, ?Ht, ?Hc, ?Hn; try done; try lia.
  intros. eexists; split; [eassumption | apply same_ticket_refl].
Qed.

Lemma frame_update_room s X roomId f :
  (let old := room_at X roomId in
   Room.roundNumber old <= Room.roundNumber (f old) /\
   (Room.roundNumber (f old) = Room.roundNumber old -> Room.revealed old = true ->
    Room.revealed (f old) = true /\ Room.winningNumber (f old) = Room.winningNumber old)) ->
  frame s X -> frame s (update_room roomId f X).
Proof.
  intros [H1 H2] F. apply (frame_trans _ _ _ F).
  split; try done; simpl; try lia.
  - intros r _. unfold update_room, store_room, room_at in *. simpl.
    destruct (decide (roomId = r)) as [->|Hne];
      [rewrite load_insert_eq | rewrite load_insert_ne by done]; by try lia.
  - intros r _. unfold update_room, store_room, room_at in *. simpl.
    destruct (decide (roomId = r)) as [->|Hne];
      [rewrite load_insert_eq | rewrite load_insert_ne by done]; by auto.
  - intros. eexists; split; [eassumption | apply same_ticket_refl].
Qed.

(** A write to a room slot at or beyond [roomCount]. *)
Lemma frame_update_room_fresh s X roomId f :
  roomCount X <= roomId -> frame s X -> frame s (update_room roomId f X).
Proof.
  intros Hge F. apply (frame_trans _ _ _ F).
  split; try done; simpl; try lia.
  - intros r Hr. unfold update_room, store_room, room_at in *. simpl.
    rewrite load_insert_ne by lia. lia.
  - intros r Hr. unfold update_room, store_room, room_at in *. simpl.
    rewrite load_insert_ne by lia. auto.
  - intros. eexists; split; [eassumption | apply same_ticket_refl].
Qed.

Lemma frame_set_roomCount s X n :
  roomCount X <= n -> frame s X -> frame s (set_roomCount n X).
Proof.
  intros Hge F. apply (frame_trans _ _ _ F).
  split; try done; simpl; try lia.
  intros. eexists; split; [eassumption | apply same_ticket_refl].
Qed.

Lemma frame_store_claimed_true s X roomId round ticketId :
  frame s X -> frame s (store_claimed roomId round ticketId true X).
Proof.
  intros F. apply (frame_trans _ _ _ F).
  split; try done; simpl; try lia.
  - intros. eexists; split; [eassumption | apply same_ticket_refl].
  - intros r n i _ Hc. unfold store_claimed, is_claimed in *. simpl.
    destruct (decide ((roomId, round, ticketId) = (r, n, i))) as [->|Hne];
      [by rewrite load_insert_eq | by rewrite load_insert_ne].
Qed.

(** [buyTicket]'s three array writes: the new ticket, its index for the
    player, and its claimed flag. *)
Lemma frame_push_ticket s X roomId round ts t who :
  tickets_of X roomId round = ts ->
  Ticket.number t <= 99 ->
  frame s X ->
  frame s (store_claimed roomId round (N.of_nat (length ts)) false
             (push_ticket_id roomId who (N.of_nat (length ts))
                (store_tickets roomId round (ts ++ [t]) X))).
Proof.
  intros <- Hn F. apply (frame_trans _ _ _ F).
  split; try done; simpl; try lia.
  - intros r n i t0 Ht0. unfold tickets_of, store_tickets in *. simpl.
    destruct (decide ((roomId, round) = (r, n))) as [[= -> ->]|Hne].
    + rewrite load_insert_eq. exists t0. split; [|apply same_ticket_refl].
      by apply lookup_app_l_Some.
    + rewrite load_insert_ne by done. exists t0. split; [done|apply same_ticket_refl].
  - intros r n i Hi Hc. unfold store_claimed, is_claimed, tickets_of in *. simpl.
    destruct (decide ((roomId, round, N.of_nat (length (load [] (roomTicketsByRound X) (roomId, round)))) = (r, n, i))) as [[= -> -> <-]|Hne].
    + lia.
    + by rewrite load_insert_ne.
  - intros H r n. specialize (H r n). unfold tickets_of, store_tickets in *. simpl.
    destruct (decide ((roomId, round) = (r, n))) as [[= -> ->]|Hne].
    + rewrite load_insert_eq. apply Forall_app. split; [done|]. by constructor.
    + by rewrite load_insert_ne.
Qed.

(** [tickets[i].win = true]. *)
Lemma frame_set_win s X roomId round i b :
  frame s X ->
  frame s (store_tickets roomId round
             (alter (Ticket.set_win b) i (tickets_of X roomId round)) X).
Proof.
  intros F. apply (frame_trans _ _ _ F).
  split; try done; simpl; try lia.
  - intros r n j t0 Ht0. unfold tickets_of, store_tickets in *. simpl.
    destruct (decide ((roomId, round) = (r, n))) as [[= -> ->]|Hne].
    + rewrite load_insert_eq. rewrite list_lookup_alter.
      case_decide; subst; rewrite Ht0; simpl; eexists; split; try done;
        try apply same_ticket_refl.
    + rewrite load_insert_ne by done. exists t0. split; [done|apply same_ticket_refl].
  - intros H r n. specialize (H r n). unfold tickets_of, store_tickets in *. simpl.
    destruct (decide ((roomId, round) = (r, n))) as [[= -> ->]|Hne].
    + rewrite load_insert_eq.
      apply Forall_forall. intros x Hx.
      apply list_elem_of_lookup in Hx as [j Hj].
      rewrite list_lookup_alter in Hj.
      rewrite Forall_forall in H.
      case_decide; subst.
      * destruct (load [] (roomTicketsByRound X) (r, n) !! j) as [y|] eqn:Ey; simplify_eq/=.
        apply (H y). apply list_elem_of_lookup. eauto.
      * apply (H x). apply list_elem_of_lookup. eauto.
    + by rewrite load_insert_ne.
Qed.



Ltac frame_done := match goal with |- frame ?a ?b => constr_eq a b; apply frame_refl end.

Section FrameOtherFields.
Variables s X : Storage.
Hypothesis F : frame s X.
Lemma frame_set_status v : frame s (set_status v X).
Proof. by apply (frame_core s X). Qed.
Lemma frame_set_paused v : frame s (set_paused v X).
Proof. by apply (frame_core s X). Qed.
Lemma frame_set_owner v : frame s (set_owner v X).
Proof. by apply (frame_core s X). Qed.
Lemma frame_set_collectedFees v : frame s (set_collectedFees v X).
Proof. by apply (frame_core s X). Qed.
Lemma frame_set_activeRoomIds v : frame s (set_activeRoomIds v X).
Proof. by apply (frame_core s X). Qed.
Lemma frame_update_stats who f : frame s (update_stats who f X).
Proof. by apply (frame_core s X). Qed.
End FrameOtherFields.

Ltac room_side :=
  simpl; storage_norm_goal; simpl; repeat split; try lia; try done; try congruence.

Ltac frame_steps :=
  repeat match goal with
    | |- frame ?a ?b => constr_eq a b; apply frame_refl
    | |- frame _ (store_claimed _ _ _ false (push_ticket_id _ _ _ (store_tickets _ _ _ _))) =>
        apply frame_push_ticket; [reflexivity | simpl; lia |]
    | |- frame _ (store_claimed _ _ _ true _) => apply frame_store_claimed_true
    | |- frame _ (store_tickets _ _ (alter _ _ _) _) => apply frame_set_win
    | |- frame _ (update_room _ _ _) => apply frame_update_room; [room_side|]
    | |- frame _ (set_status _ _) => apply frame_set_status
    | |- frame _ (set_paused _ _) => apply frame_set_paused
    | |- frame _ (set_owner _ _) => apply frame_set_owner
    | |- frame _ (set_collectedFees _ _) => apply frame_set_collectedFees
    | |- frame _ (set_activeRoomIds _ _) => apply frame_set_activeRoomIds
    | |- frame _ (update_stats _ _ _) => apply frame_update_stats
    end.

Lemma frame_simple c env s :
  match c with
  | EmergencyPause | ResumeOperations | WithdrawFees _ | EmergencyWithdrawTokens _
  | TransferOwnership _ | RenounceOwnership => True
  | _ => False
  end ->
  frame s (fst (execute c env s)).
Proof.
  destruct c; try done; intros _; sym_exec;
    repeat (branch; try frame_done); frame_steps.
Qed.

Lemma frame_forceCloseRoom roomId env s :
  frame s (fst (execute (ForceCloseRoom roomId) env s)).
Proof.
  sym_exec; repeat (branch; try frame_done). frame_steps.
Qed.

Lemma frame_buyTicket roomId number env s :
  frame s (fst (execute (BuyTicket roomId number) env s)).
Proof.
  sym_exec. repeat (branch; try frame_done).
  apply N.ltb_ge in Heqb2.
  frame_steps.
Qed.

Lemma frame_createRoom n d f t e env s :
  frame s (fst (execute (CreateRoom n d f t e) env s)).
Proof.
  sym_exec; repeat (branch; try frame_done).
  apply N.leb_le in Heqb3.
  apply frame_set_roomCount; [autorewrite with storage; lia|].
  apply frame_set_activeRoomIds.
  apply frame_update_room_fresh; [lia|]. apply frame_refl.
Qed.


Lemma update_room_fuse roomId f g X :
  update_room roomId f (update_room roomId g X)
  = update_room roomId (fun r => f (g r)) X.
Proof.
  unfold update_room at 1. rewrite room_at_update_room_eq.
  unfold update_room, store_room, set_rooms. simpl. f_equal.
  apply insert_insert_eq.
Qed.

Lemma frame_resetRoom roomId t e env s :
  frame s (fst (execute (ResetRoom roomId t e) env s)).
Proof.
  sym_exec; repeat (branch; try frame_done).
  all: rewrite !update_room_fuse.
  all: try apply frame_set_activeRoomIds.
  all: apply frame_update_room; [simpl; split; [lia | intros; lia] | apply frame_refl].
Qed.


Lemma reveal_loop_frame roomId round w todo : forall i env m,
  frame (storage m) (storage (final (reveal_loop roomId round w todo i env m))).
Proof.
  induction todo as [|t rest IH]; intros i env m; simpl.
  - apply frame_refl.
  - unfold_sol. simpl.
    destruct (Ticket.number t =? w); simpl.
    + repeat (branch; try frame_done);
        try match goal with
            | |- frame _ (storage (final (reveal_loop _ _ _ _ _ _ ?M))) =>
                apply (frame_trans _ (storage M)); [| apply IH]
            end; simpl; frame_steps.
    + apply IH.
Qed.

Lemma frame_revealWinningNumber roomId k n env s :
  frame s (fst (execute (RevealWinningNumber roomId k n) env s)).
Proof.
  sym_exec; repeat (branch; try frame_done).
  match goal with
  | H : reveal_loop _ ?r _ ?ts ?j ?e ?M = _ |- _ =>
      pose proof (reveal_loop_frame roomId r n ts j e M) as IH; rewrite H in IH; simpl in IH;
      eapply frame_trans; [| exact IH]
  end.
  rewrite !update_room_fuse.
  apply frame_update_room; [simpl; split; [lia | intros; congruence] | apply frame_refl].
Qed.

Lemma frame_claimPrize roomId ticketId env s :
  frame s (fst (execute (ClaimPrize roomId ticketId) env s)).
Proof.
  sym_exec; repeat (branch; try frame_done); frame_steps.
Qed.

Lemma frame_execute c env s : frame s (fst (execute c env s)).
Proof.
  destruct c;
    [ apply frame_createRoom | apply frame_resetRoom | apply frame_buyTicket
    | apply frame_revealWinningNumber | apply frame_claimPrize
    | by apply (frame_simple EmergencyPause)
    | by apply (frame_simple ResumeOperations)
    | by apply (frame_simple (WithdrawFees _))
    | by apply (frame_simple (EmergencyWithdrawTokens _))
    | apply frame_forceCloseRoom
    | by apply (frame_simple (TransferOwnership _))
    | by apply (frame_simple RenounceOwnership) ].
Qed.

Lemma frame_run history : forall s, frame s (run history s).
Proof.
  induction history as [|[env c] rest IH]; intros s; simpl.
  - apply frame_refl.
  - eapply frame_trans; [apply frame_execute | apply IH].
Qed.

Lemma reveal_loop_status roomId round w todo : forall i env m,
  _status (storage (final (reveal_loop roomId round w todo i env m))) = _status (storage m).
Proof.
  induction todo as [|t rest IH]; intros i env m; simpl; [done|].
  unfold_sol. simpl.
  destruct (Ticket.number t =? w); simpl; [|apply IH].
  repeat branch; rewrite ?IH; simpl; by autorewrite with storage.
Qed.

Ltac status_done :=
  lazymatch goal with
  | |- context [match _ with _ => _ end] => fail
  | |- context [reveal_loop] => fail
  | _ => autorewrite with storage;
         first [ reflexivity | symmetry; assumption | assumption ]
  end.

Lemma status_execute c env s : _status (fst (execute c env s)) = _status s.
Proof.
  destruct c; sym_exec; repeat (branch; try status_done); try status_done.
  match goal with
  | H : reveal_loop _ ?r ?w ?ts ?j ?e ?M = _ |- _ =>
      pose proof (reveal_loop_status roomId r w ts j e M) as IH; rewrite H in IH; simpl in IH
  end.
  rewrite IH. by autorewrite with storage.
Qed.

(** The reveal pass writes tickets and statistics only. *)
Lemma reveal_loop_fields roomId round w todo : forall i env m,
  let s' := storage (final (reveal_loop roomId round w todo i env m)) in
  rooms s' = rooms (storage m) /\ roomCount s' = roomCount (storage m) /\
  ticketClaimed s' = ticketClaimed (storage m) /\
  collectedFees s' = collectedFees (storage m) /\
  _owner s' = _owner (storage m) /\ _paused s' = _paused (storage m) /\
  activeRoomIds s' = activeRoomIds (storage m).
Proof.
  induction todo as [|t rest IH]; intros i env m; simpl; [done|].
  unfold_sol. simpl.
  destruct (Ticket.number t =? w); simpl; [|apply IH].
  repeat branch; try done;
    match goal with
    | |- context [reveal_loop _ _ _ _ ?j ?e ?M] => apply (IH j e M)
    end.
Qed.

Lemma numbers_in_range_deploy deployer token : numbers_in_range (deploy deployer token).
Proof. intros roomId round. unfold tickets_of, deploy. simpl. by rewrite load_empty. Qed.

Lemma reachable_numbers_in_range s : reachable s -> numbers_in_range s.
Proof.
  intros (deployer & token & history & ->).
  apply (frame_numbers _ _ (frame_run history _)), numbers_in_range_deploy.
Qed.

Lemma reachable_status s : reachable s -> _status s = NOT_ENTERED.
Proof.
  intros (deployer & token & history & ->).
  generalize (deploy deployer token), (eq_refl : _status (deploy deployer token) = NOT_ENTERED).
  induction history as [|[env c] rest IH]; intros s Hs; simpl; [done|].
  apply IH. by rewrite status_execute.
Qed.

Lemma status_run history : forall s, _status (run history s) = _status s.
Proof.
  induction history as [|[env c] rest IH]; intros s; simpl; [done|].
  by rewrite IH, status_execute.
Qed.

Lemma room_at_ext s s' roomId : rooms s' = rooms s -> room_at s' roomId = room_at s roomId.
Proof. unfold room_at. by intros ->. Qed.

(** ** The loops of [claimPrize] *)

Lemma count_winning_acc w ts : forall c, count_winning w ts c = c + count_winning w ts 0.
Proof.
  induction ts as [|t ts IH]; intros c; simpl; [lia|].
  destruct (Ticket.number t =? w); rewrite IH; [rewrite (IH (0 + 1))|]; lia.
Qed.

Lemma count_winning_cons w t ts :
  count_winning w (t :: ts) 0
  = (if Ticket.number t =? w then 1 else 0) + count_winning w ts 0.
Proof. simpl. destruct (Ticket.number t =? w); rewrite count_winning_acc; lia. Qed.

Lemma count_winning_pos w ts (i : nat) t :
  ts !! i = Some t -> Ticket.number t = w -> 0 < count_winning w ts 0.
Proof.
  revert i. induction ts as [|t0 ts IH]; intros i Hi Hw; [done|].
  rewrite count_winning_cons. destruct i as [|i]; simpl in Hi.
  - injection Hi as ->. rewrite Hw, N.eqb_refl. lia.
  - specialize (IH i Hi Hw). lia.
Qed.

Lemma all_claimed_ext f g w ts : forall i,
  (forall j, f j = g j) -> all_claimed f w ts i = all_claimed g w ts i.
Proof.
  induction ts as [|t ts IH]; intros i Hfg; simpl; [done|].
  rewrite Hfg. destruct (_ && _); [done|]. by apply IH.
Qed.

Lemma set_feesCollected_id r : Room.feesCollected r = true -> Room.set_feesCollected true r = r.
Proof. destruct r; simpl. by intros ->. Qed.

Lemma round_settled_ext s1 s2 roomId :
  (forall i, is_claimed s1 roomId (Room.roundNumber (room_at s1 roomId)) i
             = is_claimed s2 roomId (Room.roundNumber (room_at s2 roomId)) i) ->
  round_tickets s1 roomId = round_tickets s2 roomId ->
  Room.winningNumber (room_at s1 roomId) = Room.winningNumber (room_at s2 roomId) ->
  round_settled s1 roomId = round_settled s2 roomId.
Proof.
  intros Hc Ht Hw. unfold round_settled. rewrite Ht, Hw. by apply all_claimed_ext.
Qed.

Ltac claim_fields :=
  split;
  [ assumption
  | assumption
  | by apply N.ltb_lt
  | eexists; unfold round_tickets; repeat split; [eassumption | done..]
  | assumption
  | assumption
  | reflexivity
  | simpl; auto
  | intros to amount observed Hin; simpl in Hin; decompose [or] Hin;
    try discriminate; try contradiction;
    match goal with
    | H : TokenTransfer _ _ _ = TokenTransfer _ _ _ |- _ => injection H as <- <- <-
    end; autorewrite with storage; reflexivity
  | autorewrite with storage; reflexivity
  | intros r n i Hne; autorewrite with storage;
    rewrite is_claimed_store_claimed_ne by congruence; by autorewrite with storage
  | intros r n; by autorewrite with storage
  | autorewrite with storage;
    match goal with H : Room.feesCollected _ = _ |- _ => rewrite H end; reflexivity
  | idtac
  | intros r Hne; autorewrite with storage;
    rewrite ?update_room_fuse, ?room_at_update_room_ne by congruence;
    by autorewrite with storage
  | by autorewrite with storage ].

Lemma claimPrize_success roomId ticketId env s s' effects :
  execute (ClaimPrize roomId ticketId) env s = (s', Success effects) ->
  claim_outcome env s s' roomId ticketId effects.
Proof.
  sym_exec. repeat (branch; try discriminate).
  all: intros [= <- <-].
  all: apply negb_false_iff, N.eqb_eq in Heqb2, Heqb3, Heqb4.
  all: pose proof (count_winning_pos _ _ _ _ Heqo Heqb4) as Hpos.
  all: try (apply N.ltb_ge in Heqb7; lia).
  all: try (apply N.eqb_eq in Heqb12; lia).
  all: try (apply N.eqb_eq in Heqb13; lia).
  all: claim_fields.
  all: unfold round_settled, round_tickets; autorewrite with storage;
    rewrite ?update_room_fuse, ?room_at_update_room_eq; simpl.
  all: match goal with
       | H : all_claimed (is_claimed ?X _ _) ?w ?ts 0 = _
         |- context [all_claimed (is_claimed ?Y ?r ?n) ?w ?ts 0] =>
           rewrite (all_claimed_ext (is_claimed Y r n) (is_claimed X r n) w ts 0)
             by (intros; autorewrite with storage; reflexivity);
           rewrite H
       end.
  all: by rewrite ?set_feesCollected_id by assumption.
Qed.


(** ** Counting unclaimed winners *)

Lemma all_claimed_unclaimed f w ts : forall i,
  all_claimed f w ts i = true <-> unclaimed f w ts i = 0.
Proof.
  induction ts as [|t ts IH]; intros i; simpl; [done|].
  destruct (_ && _); [split; [discriminate | lia]|].
  rewrite IH. lia.
Qed.

Lemma unclaimed_ext_from f g w ts : forall i,
  (forall j, i <= j -> f j = g j) -> unclaimed f w ts i = unclaimed g w ts i.
Proof.
  induction ts as [|t ts IH]; intros i Hfg; simpl; [done|].
  rewrite (Hfg i) by lia. f_equal. apply IH. intros j Hj. apply Hfg. lia.
Qed.

Lemma unclaimed_mark f f' w tid t ts : forall i,
  (forall j, j <> tid -> f' j = f j) -> f tid = false -> f' tid = true ->
  i <= tid -> ts !! N.to_nat (tid - i) = Some t -> Ticket.number t = w ->
  unclaimed f w ts i = unclaimed f' w ts i + 1.
Proof.
  induction ts as [|t0 ts IH]; intros i Hoth Hf Hf' Hle Ht Hw; [done|].
  simpl. destruct (decide (i = tid)) as [->|Hne].
  - rewrite N.sub_diag in Ht. simpl in Ht. injection Ht as ->.
    rewrite Hw, N.eqb_refl, Hf, Hf'. simpl.
    rewrite (unclaimed_ext_from f f' w ts (tid + 1)); [lia|].
    intros j Hj. symmetry. apply Hoth. lia.
  - rewrite (Hoth i Hne).
    rewrite (IH (i + 1)); try assumption; try lia.
    replace (N.to_nat (tid - i)) with (S (N.to_nat (tid - (i + 1)))) in Ht by lia.
    exact Ht.
Qed.

Section ClaimStep.
Variables (env : Env) (s s1 : Storage) (roomId ticketId : N) (effects : list Effect).
Hypothesis O : claim_outcome env s s1 roomId ticketId effects.

Lemma claim_keeps_round :
  Room.roundNumber (room_at s1 roomId) = Room.roundNumber (room_at s roomId) /\
  Room.winningNumber (room_at s1 roomId) = Room.winningNumber (room_at s roomId) /\
  Room.feesCollected (room_at s1 roomId) = true.
Proof. rewrite (co_room_after _ _ _ _ _ _ O). by destruct (round_settled s1 roomId). Qed.

Lemma claim_keeps_tickets : round_tickets s1 roomId = round_tickets s roomId.
Proof.
  unfold round_tickets. destruct claim_keeps_round as (-> & _).
  apply (co_tickets _ _ _ _ _ _ O).
Qed.

Lemma claim_keeps_winners : winners s1 roomId = winners s roomId.
Proof.
  unfold winners. rewrite claim_keeps_tickets.
  by destruct claim_keeps_round as (_ & -> & _).
Qed.

Lemma claim_marks_one : unclaimed_winners s roomId = unclaimed_winners s1 roomId + 1.
Proof.
  unfold unclaimed_winners. rewrite claim_keeps_tickets.
  destruct claim_keeps_round as (-> & -> & _).
  destruct (co_ticket _ _ _ _ _ _ O) as (t & Ht & _ & _ & Hw).
  apply (unclaimed_mark _ _ _ ticketId t).
  - intros j Hj. apply (co_claimed_others _ _ _ _ _ _ O). congruence.
  - apply (co_unclaimed _ _ _ _ _ _ O).
  - apply (co_claimed _ _ _ _ _ _ O).
  - lia.
  - by rewrite N.sub_0_r.
  - exact Hw.
Qed.

Lemma settled_iff_none_unclaimed st r :
  round_settled st r = true <-> unclaimed_winners st r = 0.
Proof. apply all_claimed_unclaimed. Qed.

(** While a winning ticket is left unclaimed the pool, and with it the fee
    and the share, stay what they were. *)
Lemma claim_keeps_share :
  0 < unclaimed_winners s1 roomId ->
  claim_share s1 roomId = claim_share s roomId /\
  claim_fee s1 roomId = claim_fee s roomId.
Proof.
  intros Hleft.
  assert (Hns : round_settled s1 roomId = false).
  { destruct (round_settled s1 roomId) eqn:E; [|done].
    apply settled_iff_none_unclaimed in E. lia. }
  unfold claim_share, claim_fee. rewrite claim_keeps_winners.
  rewrite (co_room_after _ _ _ _ _ _ O), Hns. done.
Qed.
End ClaimStep.

Lemma failed_execute c env s e : snd (execute c env s) = Failure e -> fst (execute c env s) = s.
Proof.
  unfold execute, transact. destruct (dispatch c env _); simpl; [discriminate | done].
Qed.

Lemma claims_accounting roomId calls : forall s,
  let rs := receipts (claim_calls roomId calls) s in
  let s' := run (claim_calls roomId calls) s in
  total_paid rs = successes rs * claim_share s roomId /\
  successes rs + unclaimed_winners s' roomId = unclaimed_winners s roomId /\
  collectedFees s'
  = collectedFees s
    + (if Room.feesCollected (room_at s roomId) then 0
       else if successes rs =? 0 then 0 else claim_fee s roomId).
Proof.
  induction calls as [|[env tid] rest IH]; intros s; simpl.
  - destruct (Room.feesCollected _); repeat split; lia.
  - destruct (execute (ClaimPrize roomId tid) env s) as [s1 r] eqn:E. simpl.
    destruct r as [effects|e]; simpl.
    + pose proof (claimPrize_success _ _ _ _ _ _ E) as O.
      destruct (IH s1) as (Hpaid & Hleft & Hfees). clear IH.
      fold (claim_calls roomId rest) in *.
      destruct (claim_keeps_round _ _ _ _ _ _ O) as (_ & _ & Hfc).
      rewrite Hfc in Hfees.
      rewrite (co_transfers _ _ _ _ _ _ O). simpl.
      rewrite (claim_marks_one _ _ _ _ _ _ O).
      rewrite Hfees, (co_fees _ _ _ _ _ _ O).
      split; [|split].
      * rewrite Hpaid.
        destruct (N.eq_dec (successes (receipts (claim_calls roomId rest) s1)) 0) as [->|Hn];
          [lia|].
        destruct (claim_keeps_share _ _ _ _ _ _ O ltac:(lia)) as [-> _]. lia.
      * lia.
      * destruct (Room.feesCollected (room_at s roomId)); [lia|].
        destruct (_ =? _) eqn:E0; [apply N.eqb_eq in E0|]; lia.
    + assert (s1 = s) as ->.
      { replace s1 with (fst (execute (ClaimPrize roomId tid) env s)) by (by rewrite E).
        apply (failed_execute _ _ _ e). by rewrite E. }
      apply IH.
Qed.

(** ** The ledger invariants are kept by every write sequence *)

Lemma wf_deploy deployer token : ledger_wf (deploy deployer token).
Proof.
  split; unfold tickets_of, is_claimed, room_at, deploy; simpl;
    intros; rewrite ?load_empty in *; try done; try lia.
Qed.

(** Writes outside the fields the invariants speak about. *)
Lemma wf_core X X' :
  rooms X' = rooms X -> roomTicketsByRound X' = roomTicketsByRound X ->
  ticketClaimed X' = ticketClaimed X -> roomCount X' = roomCount X ->
  activeRoomIds X' = activeRoomIds X ->
  ledger_wf X -> ledger_wf X'.
Proof.
  intros Hr Ht Hc Hn Ha [W1 W2 W3 W4 W5 W6].
  split; unfold room_at, tickets_of, is_claimed in *;
    rewrite ?Hr, ?Ht, ?Hc, ?Hn, ?Ha; assumption.
Qed.

Lemma wf_update_room X roomId f :
  roomId < roomCount X ->
  room_step (room_at X roomId) (f (room_at X roomId)) ->
  ledger_wf X -> ledger_wf (update_room roomId f X).
Proof.
  intros Hlt (Hid & Hfee & Hround & Hst) [W1 W2 W3 W4 W5 W6].
  split.
  - intros r n i t. rewrite tickets_of_update_room. apply W1.
  - intros r n. rewrite tickets_of_update_room, roomCount_update_room. intros Hne.
    destruct (W2 r n Hne) as [Hr Hn]. split; [done|].
    destruct (decide (roomId = r)) as [->|Hd];
      [rewrite room_at_update_room_eq | rewrite room_at_update_room_ne by done]; lia.
  - intros r n i. rewrite is_claimed_update_room, tickets_of_update_room. apply W3.
  - by rewrite activeRoomIds_update_room, roomCount_update_room.
  - intros r. rewrite roomCount_update_room. intros Hr.
    destruct (W5 r Hr) as (A & B & C).
    destruct (decide (roomId = r)) as [->|Hd];
      [rewrite room_at_update_room_eq | by rewrite room_at_update_room_ne by done].
    rewrite Hid, Hfee. repeat split; [done | lia | done].
  - intros r. destruct (W6 r) as [A B].
    destruct (decide (roomId = r)) as [->|Hd];
      [rewrite room_at_update_room_eq | by rewrite room_at_update_room_ne by done].
    destruct Hst as [[E1 E2]|[N1 N2]]; [by rewrite E1, E2 | done].
Qed.

Lemma wf_store_claimed_true X roomId round ticketId :
  ticketId < N.of_nat (length (tickets_of X roomId round)) ->
  ledger_wf X -> ledger_wf (store_claimed roomId round ticketId true X).
Proof.
  intros Hlt [W1 W2 W3 W4 W5 W6].
  split; try done.
  intros r n i. rewrite tickets_of_store_claimed.
  destruct (decide ((roomId, round, ticketId) = (r, n, i))) as [[= <- <- <-]|Hne].
  - done.
  - rewrite is_claimed_store_claimed_ne by done. apply W3.
Qed.

(** [buyTicket]'s three array writes: the new ticket, its index for the
    player, and its claimed flag. *)
Lemma wf_push_ticket X roomId round ts t who :
  tickets_of X roomId round = ts ->
  roomId < roomCount X ->
  Room.roundNumber (room_at X roomId) = round ->
  Ticket.id t = N.of_nat (length ts) /\ Ticket.roomId t = roomId /\
  Ticket.roundNumber t = round ->
  ledger_wf X ->
  ledger_wf (store_claimed roomId round (N.of_nat (length ts)) false
               (push_ticket_id roomId who (N.of_nat (length ts))
                  (store_tickets roomId round (ts ++ [t]) X))).
Proof.
  intros <- Hlt Hround (Hid & Hroom & Hrd) [W1 W2 W3 W4 W5 W6].
  split; try done.
  - intros r n i t0. rewrite tickets_of_store_claimed, tickets_of_push_ticket_id.
    destruct (decide ((roomId, round) = (r, n))) as [[= <- <-]|Hne].
    + rewrite tickets_of_store_tickets_eq. intros Hl.
      apply lookup_app_Some in Hl as [Hl|[Hge Hl]]; [by apply W1|].
      apply list_lookup_singleton_Some in Hl as [Hi <-].
      repeat split; try done. rewrite Hid. f_equal. lia.
    + rewrite tickets_of_store_tickets_ne by done. apply W1.
  - intros r n. rewrite tickets_of_store_claimed, tickets_of_push_ticket_id.
    destruct (decide ((roomId, round) = (r, n))) as [[= <- <-]|Hne].
    + intros _. split; [done|]. destruct (W5 roomId Hlt) as (_ & B & _).
      change (1 <= round <= Room.roundNumber (room_at X roomId)). lia.
    + rewrite tickets_of_store_tickets_ne by done. apply W2.
  - intros r n i. rewrite tickets_of_store_claimed, tickets_of_push_ticket_id.
    destruct (decide ((roomId, round, N.of_nat (length (tickets_of X roomId round)))
                      = (r, n, i))) as [[= <- <- <-]|Hne].
    + by rewrite is_claimed_store_claimed_eq.
    + rewrite is_claimed_store_claimed_ne by done.
      rewrite is_claimed_push_ticket_id, is_claimed_store_tickets. intros Hc.
      pose proof (W3 r n i Hc) as Hi.
      destruct (decide ((roomId, round) = (r, n))) as [[= <- <-]|Hne'].
      * rewrite tickets_of_store_tickets_eq, length_app. simpl. lia.
      * by rewrite tickets_of_store_tickets_ne.
Qed.

(** [tickets[i].win = true]. *)
Lemma wf_set_win X roomId round i b :
  ledger_wf X ->
  ledger_wf (store_tickets roomId round
               (alter (Ticket.set_win b) i (tickets_of X roomId round)) X).
Proof.
  intros [W1 W2 W3 W4 W5 W6].
  split; try done.
  - intros r n j t0.
    destruct (decide ((roomId, round) = (r, n))) as [[= <- <-]|Hne].
    + rewrite tickets_of_store_tickets_eq, list_lookup_alter.
      case_decide; [subst j|apply W1].
      destruct (tickets_of X roomId round !! i) as [y|] eqn:Ey; [|done].
      simpl. intros [= <-]. by apply (W1 _ _ _ _ Ey).
    + rewrite tickets_of_store_tickets_ne by done. apply W1.
  - intros r n.
    destruct (decide ((roomId, round) = (r, n))) as [[= <- <-]|Hne].
    + rewrite tickets_of_store_tickets_eq. intros Hne. apply W2.
      intros E. apply Hne. by rewrite E.
    + rewrite tickets_of_store_tickets_ne by done. apply W2.
  - intros r n j. rewrite is_claimed_store_tickets. intros Hc.
    pose proof (W3 r n j Hc) as Hi.
    destruct (decide ((roomId, round) = (r, n))) as [[= <- <-]|Hne].
    + by rewrite tickets_of_store_tickets_eq, length_alter.
    + by rewrite tickets_of_store_tickets_ne.
Qed.

(** [createRoom]'s writes: the fresh slot, the list of active rooms and the
    counter. *)
Lemma wf_new_room X n ids f :
  roomCount X = n -> activeRoomIds X = ids ->
  (let fresh := f (room_at X n) in
   Room.id fresh = n /\ Room.roundNumber fresh = 1 /\ 1 <= Room.entryFee fresh /\
   Room.state fresh = OPEN /\ Room.revealed fresh = false) ->
  ledger_wf X ->
  ledger_wf (set_roomCount (n + 1)
               (set_activeRoomIds (ids ++ [n]) (update_room n f X))).
Proof.
  intros <- <- (Hid & Hround & Hfee & Hst & Hrev) [W1 W2 W3 W4 W5 W6].
  split.
  - intros r n i t. rewrite tickets_of_set_roomCount, tickets_of_set_activeRoomIds,
      tickets_of_update_room. apply W1.
  - intros r n. rewrite tickets_of_set_roomCount, tickets_of_set_activeRoomIds,
      tickets_of_update_room, set_roomCount_read, room_at_set_roomCount,
      room_at_set_activeRoomIds.
    intros Hne. destruct (W2 r n Hne) as [Hr Hn]. split; [lia|].
    rewrite room_at_update_room_ne by lia. done.
  - intros r n i. rewrite is_claimed_set_roomCount, is_claimed_set_activeRoomIds,
      is_claimed_update_room, tickets_of_set_roomCount, tickets_of_set_activeRoomIds,
      tickets_of_update_room. apply W3.
  - rewrite activeRoomIds_set_roomCount, set_activeRoomIds_read, set_roomCount_read.
    rewrite W4. replace (N.to_nat (roomCount X + 1)) with (S (N.to_nat (roomCount X))) by lia.
    rewrite seq_S, map_app. simpl. by rewrite N2Nat.id.
  - intros r. rewrite set_roomCount_read, room_at_set_roomCount, room_at_set_activeRoomIds.
    intros Hr. destruct (decide (roomCount X = r)) as [<-|Hd].
    + rewrite room_at_update_room_eq. rewrite Hid, Hround. repeat split; [lia | done].
    + rewrite room_at_update_room_ne by done. apply W5. lia.
  - intros r. rewrite room_at_set_roomCount, room_at_set_activeRoomIds.
    destruct (decide (roomCount X = r)) as [<-|Hd].
    + rewrite room_at_update_room_eq, Hst, Hrev. split; discriminate.
    + rewrite room_at_update_room_ne by done. apply W6.
Qed.

Section WfOtherFields.
Variable X : Storage.
Hypothesis W : ledger_wf X.
Lemma wf_set_status v : ledger_wf (set_status v X).
Proof. by apply (wf_core X). Qed.
Lemma wf_set_paused v : ledger_wf (set_paused v X).
Proof. by apply (wf_core X). Qed.
Lemma wf_set_owner v : ledger_wf (set_owner v X).
Proof. by apply (wf_core X). Qed.
Lemma wf_set_collectedFees v : ledger_wf (set_collectedFees v X).
Proof. by apply (wf_core X). Qed.
Lemma wf_update_stats who f : ledger_wf (update_stats who f X).
Proof. by apply (wf_core X). Qed.
End WfOtherFields.

(** Every room below [roomCount] is in the list the reset scans. *)
Lemma is_active_seq roomId n :
  roomId < n -> is_active roomId (map N.of_nat (seq 0 (N.to_nat n))) = true.
Proof.
  intros Hlt.
  assert (H : In roomId (map N.of_nat (seq 0 (N.to_nat n)))).
  { apply in_map_iff. exists (N.to_nat roomId). split; [lia|]. apply in_seq. lia. }
  induction (map N.of_nat (seq 0 (N.to_nat n))) as [|a l IH]; [done|].
  simpl. destruct (a =? roomId) eqn:E; [done|].
  apply IH. destruct H as [->|H]; [|done]. by rewrite N.eqb_refl in E.
Qed.

(** Comparisons decided by the code, as propositions. *)
Ltac to_prop :=
  repeat match goal with
    | H : (_ <? _) = true |- _ => apply N.ltb_lt in H
    | H : (_ <? _) = false |- _ => apply N.ltb_ge in H
    | H : (_ <=? _) = true |- _ => apply N.leb_le in H
    | H : (_ <=? _) = false |- _ => apply N.leb_gt in H
    | H : (_ =? _) = true |- _ => apply N.eqb_eq in H
    | H : (_ =? _) = false |- _ => apply N.eqb_neq in H
    end.

Ltac wf_done :=
  match goal with W : ledger_wf ?a |- ledger_wf ?b => constr_eq a b; exact W end.

Ltac room_step_side :=
  unfold room_step; simpl; storage_norm_goal; simpl;
  repeat match goal with |- _ /\ _ => split end;
  try reflexivity; try lia;
  first [ left; split; reflexivity
        | right; split;
          [ discriminate
          | let H := fresh in
            intros H; first [discriminate H | left; reflexivity | right; reflexivity] ] ].

Ltac wf_steps :=
  repeat match goal with
    | W : ledger_wf ?a |- ledger_wf ?b => constr_eq a b; exact W
    | |- ledger_wf (store_claimed _ _ _ false (push_ticket_id _ _ _ (store_tickets _ _ _ _))) =>
        apply wf_push_ticket;
          [ reflexivity | storage_norm_goal; lia | reflexivity
          | simpl; repeat split; reflexivity | ]
    | |- ledger_wf (store_claimed _ _ _ true _) =>
        apply wf_store_claimed_true; [storage_norm_goal; lia |]
    | |- ledger_wf (store_tickets _ _ (alter _ _ _) _) => apply wf_set_win
    | |- ledger_wf (update_room _ _ _) =>
        apply wf_update_room; [storage_norm_goal; lia | room_step_side |]
    | |- ledger_wf (set_status _ _) => apply wf_set_status
    | |- ledger_wf (set_paused _ _) => apply wf_set_paused
    | |- ledger_wf (set_owner _ _) => apply wf_set_owner
    | |- ledger_wf (set_collectedFees _ _) => apply wf_set_collectedFees
    | |- ledger_wf (update_stats _ _ _) => apply wf_update_stats
    end.

Lemma wf_simple c env s :
  match c with
  | EmergencyPause | ResumeOperations | WithdrawFees _ | EmergencyWithdrawTokens _
  | TransferOwnership _ | RenounceOwnership => True
  | _ => False
  end ->
  ledger_wf s -> ledger_wf (fst (execute c env s)).
Proof.
  destruct c; try done; intros _ W; sym_exec;
    repeat (branch; try wf_done); wf_steps.
Qed.

Lemma wf_forceCloseRoom roomId env s :
  ledger_wf s -> ledger_wf (fst (execute (ForceCloseRoom roomId) env s)).
Proof.
  intros W. sym_exec; repeat (branch; try wf_done). to_prop. wf_steps.
Qed.

Lemma wf_buyTicket roomId number env s :
  ledger_wf s -> ledger_wf (fst (execute (BuyTicket roomId number) env s)).
Proof.
  intros W. sym_exec. repeat (branch; try wf_done). to_prop. wf_steps.
Qed.

Lemma wf_createRoom n d f t e env s :
  ledger_wf s -> ledger_wf (fst (execute (CreateRoom n d f t e) env s)).
Proof.
  intros W. sym_exec; repeat (branch; try wf_done). to_prop.
  apply wf_new_room; [reflexivity | reflexivity | | done].
  cbv zeta. cbn [Room.id Room.roundNumber Room.entryFee Room.state Room.revealed].
  repeat split; try reflexivity.
  destruct (f `div` DECIMAL_CONVERSION); [done | lia].
Qed.

Lemma wf_resetRoom roomId t e env s :
  ledger_wf s -> ledger_wf (fst (execute (ResetRoom roomId t e) env s)).
Proof.
  intros W. sym_exec; repeat (branch; try wf_done).
  all: to_prop.
  all: try match goal with
         | H : is_active _ (activeRoomIds _) = false |- _ =>
             rewrite (wf_active _ W), is_active_seq in H by done; discriminate H
         end.
  all: rewrite !update_room_fuse; wf_steps.
Qed.

Lemma reveal_loop_wf roomId round w todo : forall i env m,
  ledger_wf (storage m) ->
  ledger_wf (storage (final (reveal_loop roomId round w todo i env m))).
Proof.
  induction todo as [|t rest IH]; intros i env m W; simpl; [done|].
  unfold_sol. simpl.
  destruct (Ticket.number t =? w); simpl; [|by apply IH].
  repeat (branch; try wf_done);
    try match goal with
        | |- ledger_wf (storage (final (reveal_loop _ _ _ _ _ _ ?M))) => apply IH
        end; simpl; wf_steps.
Qed.

Lemma wf_revealWinningNumber roomId k n env s :
  ledger_wf s -> ledger_wf (fst (execute (RevealWinningNumber roomId k n) env s)).
Proof.
  intros W. sym_exec; repeat (branch; try wf_done).
  match goal with
  | H : reveal_loop _ ?r _ ?ts ?j ?e ?M = _ |- _ =>
      pose proof (reveal_loop_wf roomId r n ts j e M) as IH; rewrite H in IH; simpl in IH;
      apply IH
  end.
  to_prop. rewrite !update_room_fuse. wf_steps.
Qed.

Lemma wf_claimPrize roomId ticketId env s :
  ledger_wf s -> ledger_wf (fst (execute (ClaimPrize roomId ticketId) env s)).
Proof.
  intros W. sym_exec; repeat (branch; try wf_done); to_prop; wf_steps.
Qed.

Lemma wf_execute c env s : ledger_wf s -> ledger_wf (fst (execute c env s)).
Proof.
  destruct c;
    [ apply wf_createRoom | apply wf_resetRoom | apply wf_buyTicket
    | apply wf_revealWinningNumber | apply wf_claimPrize
    | by apply (wf_simple EmergencyPause)
    | by apply (wf_simple ResumeOperations)
    | by apply (wf_simple (WithdrawFees _))
    | by apply (wf_simple (EmergencyWithdrawTokens _))
    | apply wf_forceCloseRoom
    | by apply (wf_simple (TransferOwnership _))
    | by apply (wf_simple RenounceOwnership) ].
Qed.

Lemma wf_run history : forall s, ledger_wf s -> ledger_wf (run history s).
Proof.
  induction history as [|[env c] rest IH]; intros s W; simpl; [done|].
  by apply IH, wf_execute.
Qed.

Lemma reachable_wf s : reachable s -> ledger_wf s.
Proof.
  intros (deployer & token & history & ->). apply wf_run, wf_deploy.
Qed.


(** ** The reveal pass over the tickets *)

Lemma reveal_loop_tickets roomId round w todo : forall seen i env m,
  N.to_nat i = length seen ->
  tickets_of (storage m) roomId round = seen ++ todo ->
  match reveal_loop roomId round w todo i env m with
  | Done _ m' =>
      tickets_of (storage m') roomId round = seen ++ map (mark_winner w) todo /\
      (forall r n, (r, n) <> (roomId, round) ->
                   tickets_of (storage m') r n = tickets_of (storage m) r n)
  | Reverted _ _ => True
  end.
Proof.
  induction todo as [|t rest IH]; intros seen i env m Hi Hts; simpl; [done|].
  unfold_sol. simpl. unfold mark_winner at 1.
  destruct (Ticket.number t =? w) eqn:Hw; simpl.
  - repeat match goal with
      | |- context [if (?a <=? ?b) then _ else _] => destruct (a <=? b) eqn:?; simpl
      end; try done.
    match goal with
    | |- context [reveal_loop _ _ _ _ ?j ?e ?M] =>
        opose proof* (IH (seen ++ [Ticket.set_win true t]) j e M) as IH'
    end.
    { rewrite length_app. simpl. lia. }
    { simpl. autorewrite with storage. rewrite Hts, Hi.
      replace (length seen) with (length seen + 0)%nat at 1 by lia.
      rewrite alter_app_r. simpl. by rewrite <- app_assoc. }
    destruct (reveal_loop _ _ _ _ _ _ _); [|done].
    destruct IH' as [IH1 IH2]. split; [by rewrite IH1, <- app_assoc|].
    intros r n Hne. rewrite IH2 by done. simpl.
    autorewrite with storage. by rewrite tickets_of_store_tickets_ne.
  - specialize (IH (seen ++ [t]) (i + 1) env m).
    rewrite length_app in IH. simpl in IH.
    specialize (IH ltac:(lia)). rewrite <- app_assoc in IH. specialize (IH Hts).
    destruct (reveal_loop _ _ _ _ _ _ _); [|done].
    destruct IH as [IH1 IH2]. split; [by rewrite IH1, <- app_assoc | done].
Qed.

(** ** Counting the players of a round *)

Lemma is_new_player_spec seenAddresses player env m : forall k j,
  (j + k <= length seenAddresses)%nat ->
  is_new_player seenAddresses player j k env m
  = Done (bool_decide (player ∉ take k (drop j seenAddresses))) m.
Proof.
  unfold address in *. induction k as [|k IH]; intros j Hle; simpl; unfold address in *.
  - reflexivity.
  - destruct (seenAddresses !! j) as [a|] eqn:Ea;
      [|apply lookup_ge_None in Ea; lia].
    rewrite (drop_S _ a j Ea). simpl.
    destruct (a =? player) eqn:E.
    + apply N.eqb_eq in E. subst a.
      rewrite bool_decide_eq_false_2; [reflexivity|]. intros H. apply H. left.
    + apply N.eqb_neq in E. rewrite IH by lia. f_equal.
      apply bool_decide_ext. rewrite not_elem_of_cons. intuition congruence.
Qed.

Lemma count_players_spec env m : forall todo used pad,
  NoDup used -> (length todo <= length pad)%nat ->
  exists used',
    count_players todo (used ++ pad) (length used) env m
    = Done (N.of_nat (length used')) m /\
    NoDup used' /\
    (forall x, x ∈ used' <-> x ∈ used \/ x ∈ map Ticket.player todo).
Proof.
  unfold address in *. induction todo as [|t rest IH]; intros used pad Hnd Hlen; simpl;
    unfold address in *.
  - exists used. split; [done|]. split; [done|]. intros x. rewrite elem_of_nil. tauto.
  - unfold bind. rewrite is_new_player_spec by (rewrite length_app; lia).
    rewrite drop_0, take_app_length.
    destruct (decide (Ticket.player t ∈ used)) as [Hin|Hnin].
    + rewrite bool_decide_eq_false_2 by (intros H; by apply H).
      destruct (IH used pad Hnd ltac:(simpl in Hlen; lia)) as (used' & E & Hnd' & Hel).
      exists used'. split; [done|]. split; [done|].
      intros x. rewrite Hel, elem_of_cons. intuition (subst; auto).
    + rewrite bool_decide_eq_true_2 by done.
      destruct pad as [|p pad]; [simpl in Hlen; lia|].
      rewrite lookup_app_r by lia. rewrite Nat.sub_diag. simpl.
      rewrite insert_app_r_alt by lia. rewrite Nat.sub_diag. simpl.
      destruct (IH (used ++ [Ticket.player t]) pad) as (used' & E & Hnd' & Hel).
      * apply NoDup_app. split; [done|]. split; [|apply NoDup_singleton].
        intros x Hx ->%list_elem_of_singleton. done.
      * simpl in Hlen. lia.
      * rewrite length_app in E. simpl in E.
        replace (length used + 1)%nat with (S (length used)) in E by lia.
        rewrite <- app_assoc in E. simpl in E.
        exists used'. split; [done|]. split; [done|].
        intros x. rewrite Hel, elem_of_app, list_elem_of_singleton, elem_of_cons. tauto.
Qed.

(** The count is the number of distinct players. *)
Lemma count_players_distinct env m tickets :
  count_players tickets (replicate (length tickets) 0) 0 env m
  = Done (N.of_nat (length (remove_dups (map Ticket.player tickets)))) m.
Proof.
  destruct (count_players_spec env m tickets [] (replicate (length tickets) 0))
    as (used' & E & Hnd & Hel).
  - apply NoDup_nil_2.
  - by rewrite length_replicate.
  - simpl in E. rewrite E. do 2 f_equal.
    apply Permutation_length, NoDup_Permutation; [done | apply NoDup_remove_dups |].
    intros x. rewrite Hel, elem_of_remove_dups, elem_of_nil. tauto.
Qed.

(** ** What a successful reveal leaves behind *)

Lemma is_claimed_ext s s' roomId round i :
  ticketClaimed s' = ticketClaimed s -> is_claimed s' roomId round i = is_claimed s roomId round i.
Proof. intros E. unfold is_claimed. by rewrite E. Qed.

Lemma revealWinningNumber_success roomId privateKey winningNumber env s s' effects :
  execute (RevealWinningNumber roomId privateKey winningNumber) env s
  = (s', Success effects) ->
  reveal_outcome env s s' roomId privateKey winningNumber.
Proof.
  sym_exec. repeat (branch; try discriminate). intros [= <- _].
  to_prop. apply negb_false_iff in Heqb3.
  match goal with
  | H : reveal_loop _ ?r ?w ?ts ?j ?e ?M = _ |- _ =>
      pose proof (reveal_loop_fields roomId r w ts j e M) as IH;
      rewrite H in IH; cbn [final] in IH;
      destruct IH as (Hrooms & Hcount & Hclaimed & Hfees & Howner & Hpaused & Hactive);
      pose proof (reveal_loop_tickets roomId r w ts [] j e M eq_refl) as IT;
      rewrite H in IT
  end.
  opose proof* IT as IT'; [simpl; by autorewrite with storage|].
  destruct IT' as [IT1 IT2]. clear IT.
  split; try done.
  - rewrite (room_at_ext _ _ roomId Hrooms). simpl. by autorewrite with storage.
  - intros r Hr. rewrite (room_at_ext _ _ r Hrooms). simpl.
    by rewrite !room_at_update_room_ne by done.
  - intros r n i. rewrite (is_claimed_ext _ _ r n i Hclaimed). simpl.
    by autorewrite with storage.
  - rewrite Hpaused. simpl. by autorewrite with storage.
Qed.

(** ** What a successful reset leaves behind *)

Lemma resetRoom_success roomId drawTime digest env s s' effects :
  ledger_wf s ->
  execute (ResetRoom roomId drawTime digest) env s = (s', Success effects) ->
  msg_sender env = _owner s /\ _paused s = false /\ roomId < roomCount s /\
  (Room.state (room_at s roomId) = CLOSED \/ Room.state (room_at s roomId) = REVEALED) /\
  s' = update_room roomId
         (fun r => Room.set_revealTime 0 (Room.set_feesCollected false
            (Room.set_roundNumber (Room.roundNumber (room_at s roomId) + 1)
               (Room.set_winningNumber 0 (Room.set_state OPEN (Room.set_revealed false
                  (Room.set_encryptedWinningNumber digest
                     (Room.set_drawTime drawTime r)))))))) s.
Proof.
  intros W. sym_exec. repeat (branch; try discriminate).
  all: to_prop.
  all: try match goal with
         | H : is_active _ (activeRoomIds _) = false |- _ =>
             rewrite (wf_active _ W), is_active_seq in H by done; discriminate H
         end.
  all: intros [= <- _]; rewrite !update_room_fuse; repeat split; auto.
Qed.

(** ** The packed encoding, unfolded *)

Lemma encodePacked_eq n k r o rd :
  encodePacked n k r o rd
  = be_bytes 1 n ++ be_bytes 32 k ++ be_bytes 32 r ++ be_bytes 20 o ++ be_bytes 32 rd.
Proof. with_strategy transparent [encodePacked] reflexivity. Qed.

(** ** The win counters stay within the ticket counters *)

Lemma stats_of_update_stats_ne who p f X :
  who <> p -> stats_of (update_stats who f X) p = stats_of X p.
Proof. intros. unfold stats_of, update_stats. simpl. by apply load_insert_ne. Qed.

Lemma owned_app p ts ts' : owned p (ts ++ ts') = owned p ts + owned p ts'.
Proof. induction ts as [|t ts IH]; simpl; [done|]. rewrite IH. lia. Qed.

Lemma owned_with_le p w ts : owned_with p w ts <= owned p ts.
Proof.
  induction ts as [|t ts IH]; simpl; [done|].
  destruct (Ticket.number t =? w), (Ticket.player t =? p); simpl; lia.
Qed.

Lemma owned_alter p b i ts : owned p (alter (Ticket.set_win b) i ts) = owned p ts.
Proof.
  revert i. induction ts as [|t ts IH]; intros [|i]; simpl; try done.
  f_equal. apply IH.
Qed.

Lemma sw_deploy deployer token : stats_wf (deploy deployer token).
Proof.
  intros p r. unfold room_wins_of, room_tickets_of, pending, stats_of, room_at, tickets_of, deploy.
  simpl. rewrite !load_empty. simpl. rewrite !load_empty. simpl. lia.
Qed.

(** Writes outside rooms, tickets and statistics. *)
Lemma sw_core X X' :
  rooms X' = rooms X -> roomTicketsByRound X' = roomTicketsByRound X ->
  playerStats X' = playerStats X -> stats_wf X -> stats_wf X'.
Proof.
  intros Hr Ht Hs W p r. specialize (W p r).
  unfold room_wins_of, room_tickets_of, pending, stats_of, room_at, tickets_of in *.
  by rewrite Hr, Ht, Hs.
Qed.

Section SwOtherFields.
Variable X : Storage.
Hypothesis W : stats_wf X.
Lemma sw_set_status v : stats_wf (set_status v X).
Proof. by apply (sw_core X). Qed.
Lemma sw_set_paused v : stats_wf (set_paused v X).
Proof. by apply (sw_core X). Qed.
Lemma sw_set_owner v : stats_wf (set_owner v X).
Proof. by apply (sw_core X). Qed.
Lemma sw_set_collectedFees v : stats_wf (set_collectedFees v X).
Proof. by apply (sw_core X). Qed.
Lemma sw_set_roomCount v : stats_wf (set_roomCount v X).
Proof. by apply (sw_core X). Qed.
Lemma sw_set_activeRoomIds v : stats_wf (set_activeRoomIds v X).
Proof. by apply (sw_core X). Qed.
Lemma sw_store_claimed a b c v : stats_wf (store_claimed a b c v X).
Proof. by apply (sw_core X). Qed.
End SwOtherFields.

(** A write to a room that keeps its round and [revealed], or starts a round
    without tickets. *)
Lemma sw_update_room X roomId f :
  (let old := room_at X roomId in
   (Room.roundNumber (f old) = Room.roundNumber old /\
    Room.revealed (f old) = Room.revealed old) \/
   tickets_of X roomId (Room.roundNumber (f old)) = []) ->
  stats_wf X -> stats_wf (update_room roomId f X).
Proof.
  intros H W p r. specialize (W p r).
  unfold room_wins_of, room_tickets_of, pending in *.
  rewrite !stats_of_update_room, tickets_of_update_room.
  destruct (decide (roomId = r)) as [<-|Hne];
    [rewrite room_at_update_room_eq | by rewrite room_at_update_room_ne].
  destruct H as [[E1 E2]|E]; [by rewrite E1, E2 | rewrite E].
  destruct (Room.revealed _); simpl; destruct (Room.revealed _); simpl in *; lia.
Qed.

(** A write to a player's totals. *)
Lemma sw_update_stats X who f :
  (forall st, PlayerStats.roomTickets (f st) = PlayerStats.roomTickets st /\
              PlayerStats.roomWins (f st) = PlayerStats.roomWins st) ->
  stats_wf X -> stats_wf (update_stats who f X).
Proof.
  intros H W p r. specialize (W p r).
  unfold room_wins_of, room_tickets_of, pending in *.
  rewrite room_at_update_stats, tickets_of_update_stats.
  destruct (decide (who = p)) as [<-|Hne];
    [rewrite stats_of_update_stats_eq | by rewrite stats_of_update_stats_ne].
  by destruct (H (stats_of X who)) as [-> ->].
Qed.

(** The writes of [buyTicket]. *)
Lemma sw_buy X roomId round ts t who total inRoom pool :
  tickets_of X roomId round = ts ->
  Room.roundNumber (room_at X roomId) = round ->
  Ticket.player t = who ->
  inRoom = room_tickets_of X who roomId + 1 ->
  stats_wf X ->
  stats_wf
    (update_stats who
       (fun p => PlayerStats.set_roomTickets
                   (<[roomId := inRoom]> (PlayerStats.roomTickets p)) p)
       (update_stats who (PlayerStats.set_totalTickets total)
          (update_room roomId (Room.set_prizePool pool)
             (store_claimed roomId round (N.of_nat (length ts)) false
                (push_ticket_id roomId who (N.of_nat (length ts))
                   (store_tickets roomId round (ts ++ [t]) X)))))).
Proof.
  intros <- <- Hp -> W p r. specialize (W p r).
  unfold room_wins_of, room_tickets_of, pending in *.
  autorewrite with storage.
  assert (Hrev : forall q,
    room_at (update_room roomId (Room.set_prizePool pool)
               (store_claimed roomId (Room.roundNumber (room_at X roomId))
                  (N.of_nat (length (tickets_of X roomId (Room.roundNumber (room_at X roomId)))))
                  false
                  (push_ticket_id roomId who
                     (N.of_nat (length (tickets_of X roomId (Room.roundNumber (room_at X roomId)))))
                     (store_tickets roomId (Room.roundNumber (room_at X roomId))
                        (tickets_of X roomId (Room.roundNumber (room_at X roomId)) ++ [t]) X)))) q
    = if decide (roomId = q) then Room.set_prizePool pool (room_at X q) else room_at X q).
  { intros q. destruct (decide (roomId = q)) as [<-|Hne].
    - rewrite room_at_update_room_eq. by autorewrite with storage.
    - rewrite room_at_update_room_ne by done. by autorewrite with storage. }
  rewrite !Hrev. clear Hrev.
  destruct (decide (roomId = r)) as [<-|Hr]; simpl.
  - rewrite tickets_of_store_tickets_eq, owned_app. simpl.
    destruct (decide (who = p)) as [<-|Hne].
    + rewrite !stats_of_update_stats_eq. simpl. rewrite load_insert_eq.
      rewrite Hp, N.eqb_refl. autorewrite with storage.
      destruct (Room.revealed (room_at X roomId)); lia.
    + rewrite !stats_of_update_stats_ne by done.
      autorewrite with storage.
      assert (E : (Ticket.player t =? p) = false) by (apply N.eqb_neq; congruence).
      rewrite E. destruct (Room.revealed (room_at X roomId)); lia.
  - rewrite tickets_of_store_tickets_ne by congruence.
    destruct (decide (who = p)) as [<-|Hne].
    + rewrite !stats_of_update_stats_eq. simpl. rewrite load_insert_ne by done.
      by autorewrite with storage.
    + rewrite !stats_of_update_stats_ne by done. by autorewrite with storage.
Qed.

Lemma reveal_loop_stats roomId round w todo : forall i env m,
  match reveal_loop roomId round w todo i env m with
  | Done _ m' =>
      forall p r,
        room_tickets_of (storage m') p r = room_tickets_of (storage m) p r /\
        room_wins_of (storage m') p r
        = room_wins_of (storage m) p r
          + (if r =? roomId then owned_with p w todo else 0)
  | Reverted _ _ => True
  end.
Proof.
  induction todo as [|t rest IH]; intros i env m; simpl.
  - intros p r. split; [done|]. destruct (r =? roomId); lia.
  - unfold_sol. simpl.
    destruct (Ticket.number t =? w) eqn:Hw; simpl.
    + repeat match goal with
        | |- context [if (?a <=? ?b) then _ else _] => destruct (a <=? b) eqn:?; simpl
        end; try done.
      match goal with
      | |- context [reveal_loop _ _ _ _ ?j ?e ?M] => pose proof (IH j e M) as IH'
      end.
      destruct (reveal_loop _ _ _ _ _ _ _); [|done].
      intros p r. destruct (IH' p r) as [-> ->]. clear IH IH'. simpl.
      unfold room_tickets_of, room_wins_of.
      destruct (decide (Ticket.player t = p)) as [<-|Hne].
      * rewrite !stats_of_update_stats_eq. simpl. autorewrite with storage.
        split; [done|]. rewrite N.eqb_refl.
        destruct (r =? roomId) eqn:Er.
        -- apply N.eqb_eq in Er. subst r. rewrite load_insert_eq. lia.
        -- apply N.eqb_neq in Er. rewrite load_insert_ne by done. lia.
      * rewrite !stats_of_update_stats_ne by done. autorewrite with storage.
        split; [done|].
        assert (E : (Ticket.player t =? p) = false) by (by apply N.eqb_neq).
        rewrite E. destruct (r =? roomId); lia.
    + specialize (IH (i + 1) env m).
      destruct (reveal_loop _ _ _ _ _ _ _); [|done].
      intros p r. destruct (IH p r) as [-> ->]. split; [done|]. done.
Qed.

Ltac sw_done :=
  match goal with W : stats_wf ?a |- stats_wf ?b => constr_eq a b; exact W end.

Ltac sw_room_side :=
  cbv zeta; simpl; storage_norm_goal; simpl;
  first [ left; split; reflexivity | right; assumption ].

Ltac sw_steps :=
  repeat match goal with
    | W : stats_wf ?a |- stats_wf ?b => constr_eq a b; exact W
    | |- stats_wf (update_stats _ _ (update_stats _ _ (update_room _ _
           (store_claimed _ _ _ false (push_ticket_id _ _ _ (store_tickets _ _ _ _)))))) =>
        apply sw_buy; [reflexivity | reflexivity | reflexivity | reflexivity |]
    | |- stats_wf (store_claimed _ _ _ _ _) => apply sw_store_claimed
    | |- stats_wf (update_room _ _ _) => apply sw_update_room; [sw_room_side |]
    | |- stats_wf (update_stats _ _ _) =>
        apply sw_update_stats; [intros ?; split; reflexivity |]
    | |- stats_wf (set_status _ _) => apply sw_set_status
    | |- stats_wf (set_paused _ _) => apply sw_set_paused
    | |- stats_wf (set_owner _ _) => apply sw_set_owner
    | |- stats_wf (set_collectedFees _ _) => apply sw_set_collectedFees
    | |- stats_wf (set_roomCount _ _) => apply sw_set_roomCount
    | |- stats_wf (set_activeRoomIds _ _) => apply sw_set_activeRoomIds
    end.

(** A round beyond the room's current one, or of a room not created yet,
    has no tickets. *)
Lemma no_tickets_ahead s roomId round :
  ledger_wf s ->
  roomCount s <= roomId \/ Room.roundNumber (room_at s roomId) < round ->
  tickets_of s roomId round = [].
Proof.
  intros W H. destruct (tickets_of s roomId round) eqn:E; [done|].
  destruct (wf_rounds _ W roomId round) as [? ?]; [by rewrite E | lia].
Qed.

Lemma sw_simple c env s :
  match c with
  | EmergencyPause | ResumeOperations | WithdrawFees _ | EmergencyWithdrawTokens _
  | TransferOwnership _ | RenounceOwnership | ForceCloseRoom _ | ClaimPrize _ _
  | BuyTicket _ _ => True
  | _ => False
  end ->
  stats_wf s -> stats_wf (fst (execute c env s)).
Proof.
  destruct c; try done; intros _ W; sym_exec;
    repeat (branch; try sw_done); sw_steps.
Qed.

Lemma sw_createRoom n d f t e env s :
  ledger_wf s -> stats_wf s -> stats_wf (fst (execute (CreateRoom n d f t e) env s)).
Proof.
  intros L W. sym_exec; repeat (branch; try sw_done).
  pose proof (no_tickets_ahead s (roomCount s) 1 L ltac:(left; lia)) as Hnone.
  sw_steps.
Qed.

Lemma sw_resetRoom roomId t e env s :
  ledger_wf s -> stats_wf s -> stats_wf (fst (execute (ResetRoom roomId t e) env s)).
Proof.
  intros L W. sym_exec; repeat (branch; try sw_done).
  all: pose proof (no_tickets_ahead s roomId (Room.roundNumber (room_at s roomId) + 1) L
                     ltac:(right; lia)) as Hnone.
  all: rewrite !update_room_fuse; sw_steps.
Qed.

Lemma sw_revealWinningNumber roomId k n env s :
  stats_wf s -> stats_wf (fst (execute (RevealWinningNumber roomId k n) env s)).
Proof.
  intros W. sym_exec; repeat (branch; try sw_done).
  match goal with
  | H : reveal_loop _ ?r ?w ?ts ?j ?e ?M = _ |- _ =>
      pose proof (reveal_loop_fields roomId r w ts j e M) as IF;
      rewrite H in IF; cbn [final] in IF; destruct IF as (Hrooms & _);
      pose proof (reveal_loop_tickets roomId r w ts [] j e M eq_refl) as IT;
      rewrite H in IT;
      pose proof (reveal_loop_stats roomId r w ts j e M) as IS;
      rewrite H in IS
  end.
  opose proof* IT as IT'; [simpl; by autorewrite with storage|].
  destruct IT' as [_ IT2]. clear IT.
  intros p r. destruct (IS p r) as [HT HW]. specialize (W p r).
  rewrite HT, HW. clear HT HW IS.
  unfold pending. rewrite !(room_at_ext _ _ r Hrooms).
  unfold room_tickets_of, room_wins_of, pending in *. simpl.
  autorewrite with storage. rewrite !update_room_fuse.
  destruct (r =? roomId) eqn:Er.
  - apply N.eqb_eq in Er. subst r. rewrite room_at_update_room_eq. simpl.
    rewrite Heqb2 in W.
    pose proof (owned_with_le p n (tickets_of s roomId (Room.roundNumber (room_at s roomId)))).
    lia.
  - apply N.eqb_neq in Er. rewrite room_at_update_room_ne by done.
    rewrite IT2 by congruence. simpl. autorewrite with storage. lia.
Qed.

Lemma sw_execute c env s :
  ledger_wf s -> stats_wf s -> stats_wf (fst (execute c env s)).
Proof.
  intros L W. destruct c;
    [ by apply sw_createRoom | by apply sw_resetRoom
    | by apply (sw_simple (BuyTicket _ _))
    | by apply sw_revealWinningNumber
    | by apply (sw_simple (ClaimPrize _ _))
    | by apply (sw_simple EmergencyPause)
    | by apply (sw_simple ResumeOperations)
    | by apply (sw_simple (WithdrawFees _))
    | by apply (sw_simple (EmergencyWithdrawTokens _))
    | by apply (sw_simple (ForceCloseRoom _))
    | by apply (sw_simple (TransferOwnership _))
    | by apply (sw_simple RenounceOwnership) ].
Qed.

Lemma reachable_stats_wf s : reachable s -> stats_wf s.
Proof.
  intros (deployer & token & history & ->).
  assert (H : ledger_wf (deploy deployer token) /\ stats_wf (deploy deployer token))
    by (split; [apply wf_deploy | apply sw_deploy]).
  revert H. generalize (deploy deployer token).
  induction history as [|[env c] rest IH]; intros s [L W]; simpl; [done|].
  apply IH. split; [by apply wf_execute | by apply sw_execute].
Qed.

(** ** The ids recorded for a player *)

Lemma ticket_ids_of_push_ticket_id_eq roomId who ticketId X :
  ticket_ids_of (push_ticket_id roomId who ticketId X) roomId who
  = ticket_ids_of X roomId who ++ [ticketId].
Proof. unfold ticket_ids_of at 1, push_ticket_id. simpl. apply load_insert_eq. Qed.

Lemma held_app p ts ts' : held p (ts ++ ts') = held p ts ++ held p ts'.
Proof.
  induction ts as [|t ts IH]; simpl; [done|].
  destruct (Ticket.player t =? p); simpl; by rewrite IH.
Qed.

Lemma held_mark_winner p w ts :
  map Ticket.id (held p (map (mark_winner w) ts)) = map Ticket.id (held p ts).
Proof.
  induction ts as [|t ts IH]; simpl; [done|].
  assert (E : Ticket.player (mark_winner w t) = Ticket.player t /\
              Ticket.id (mark_winner w t) = Ticket.id t)
    by (unfold mark_winner; by destruct (Ticket.number t =? w)).
  destruct E as [-> E].
  destruct (Ticket.player t =? p); simpl; by rewrite ?E, IH.
Qed.

Lemma rounds_upto_succ n : rounds_upto (n + 1) = rounds_upto n ++ [n + 1].
Proof.
  unfold rounds_upto. replace (N.to_nat (n + 1)) with (N.to_nat n + 1)%nat by lia.
  rewrite seq_app, map_app. simpl. do 2 f_equal. lia.
Qed.

Lemma flat_map_ext_on {A B} (f g : A -> list B) (l : list A) :
  (forall a, In a l -> f a = g a) -> flat_map f l = flat_map g l.
Proof.
  induction l as [|a l IH]; intros H; simpl; [done|].
  rewrite (H a) by (by left). f_equal. apply IH. intros b Hb. apply H. by right.
Qed.

Lemma recorded_ids_ext X X' roomId p :
  (forall round, tickets_of X' roomId round = tickets_of X roomId round) ->
  Room.roundNumber (room_at X' roomId) = Room.roundNumber (room_at X roomId) ->
  recorded_ids X' roomId p = recorded_ids X roomId p.
Proof.
  intros Ht Hr. unfold recorded_ids. rewrite Hr. apply flat_map_ext.
  intros round. unfold ids_in_round. by rewrite Ht.
Qed.

Lemma no_ids_without_tickets X roomId p rounds :
  (forall round, tickets_of X roomId round = []) ->
  flat_map (ids_in_round X roomId p) rounds = [].
Proof.
  intros H. induction rounds as [|r rounds IH]; simpl; [done|].
  unfold ids_in_round at 1. by rewrite H, IH.
Qed.

Lemma ids_deploy deployer token : ids_wf (deploy deployer token).
Proof.
  intros r p. unfold ticket_ids_of, recorded_ids, room_at, deploy. simpl.
  by rewrite !load_empty.
Qed.

Lemma ids_core X X' :
  playerTicketIds X' = playerTicketIds X -> rooms X' = rooms X ->
  roomTicketsByRound X' = roomTicketsByRound X -> ids_wf X -> ids_wf X'.
Proof.
  intros Hi Hr Ht W r p. specialize (W r p).
  unfold ticket_ids_of, recorded_ids, ids_in_round, room_at, tickets_of in *.
  by rewrite Hi, Hr, Ht.
Qed.

Section IdsOtherFields.
Variable X : Storage.
Hypothesis W : ids_wf X.
Lemma ids_set_status v : ids_wf (set_status v X).
Proof. by apply (ids_core X). Qed.
Lemma ids_set_paused v : ids_wf (set_paused v X).
Proof. by apply (ids_core X). Qed.
Lemma ids_set_owner v : ids_wf (set_owner v X).
Proof. by apply (ids_core X). Qed.
Lemma ids_set_collectedFees v : ids_wf (set_collectedFees v X).
Proof. by apply (ids_core X). Qed.
Lemma ids_set_roomCount v : ids_wf (set_roomCount v X).
Proof. by apply (ids_core X). Qed.
Lemma ids_set_activeRoomIds v : ids_wf (set_activeRoomIds v X).
Proof. by apply (ids_core X). Qed.
Lemma ids_store_claimed a b c v : ids_wf (store_claimed a b c v X).
Proof. by apply (ids_core X). Qed.
Lemma ids_update_stats who f : ids_wf (update_stats who f X).
Proof. by apply (ids_core X). Qed.
End IdsOtherFields.

(** A write to a room that keeps its round, or gives a first round to a room
    without tickets, or opens the next round, still without tickets. *)
Lemma ids_update_room X roomId f :
  (let old := room_at X roomId in
   Room.roundNumber (f old) = Room.roundNumber old \/
   (forall round, tickets_of X roomId round = []) \/
   (Room.roundNumber (f old) = Room.roundNumber old + 1 /\
    tickets_of X roomId (Room.roundNumber old + 1) = [])) ->
  ids_wf X -> ids_wf (update_room roomId f X).
Proof.
  intros H W r p. specialize (W r p).
  rewrite ticket_ids_of_update_room, W.
  destruct (decide (roomId = r)) as [<-|Hne].
  - unfold recorded_ids. rewrite room_at_update_room_eq.
    change (ids_in_round (update_room roomId f X) roomId p)
      with (ids_in_round X roomId p).
    cbv zeta in H. destruct H as [->|[Hnone|[-> Hnone]]]; [done| |].
    + by rewrite !no_ids_without_tickets.
    + rewrite rounds_upto_succ, flat_map_app. simpl.
      unfold ids_in_round at 3. rewrite Hnone. simpl. by rewrite app_nil_r.
  - symmetry. apply recorded_ids_ext.
    + intros round. apply tickets_of_update_room.
    + by rewrite room_at_update_room_ne.
Qed.

(** The writes of [buyTicket]. *)
Lemma ids_buy X roomId round ts t who f g pool :
  tickets_of X roomId round = ts ->
  Room.roundNumber (room_at X roomId) = round ->
  Ticket.player t = who ->
  Ticket.id t = N.of_nat (length ts) ->
  1 <= round ->
  ids_wf X ->
  ids_wf
    (update_stats who f
       (update_stats who g
          (update_room roomId (Room.set_prizePool pool)
             (store_claimed roomId round (N.of_nat (length ts)) false
                (push_ticket_id roomId who (N.of_nat (length ts))
                   (store_tickets roomId round (ts ++ [t]) X)))))).
Proof.
  intros <- <- Hp Hid Hpos W.
  do 2 apply ids_update_stats.
  apply ids_update_room; [left; reflexivity|].
  apply ids_store_claimed.
  set (round := Room.roundNumber (room_at X roomId)) in *.
  set (ts := tickets_of X roomId round) in *.
  intros r p. specialize (W r p).
  destruct (decide ((roomId, who) = (r, p))) as [[= <- <-]|Hne].
  - rewrite ticket_ids_of_push_ticket_id_eq, ticket_ids_of_store_tickets, W.
    unfold recorded_ids. autorewrite with storage. fold round.
    replace round with (round - 1 + 1) at 1 3 by lia.
    rewrite rounds_upto_succ, !flat_map_app. simpl. rewrite !app_nil_r.
    replace (round - 1 + 1) with round by lia.
    unfold ids_in_round at 2 4. autorewrite with storage. fold ts.
    rewrite held_app, map_app. simpl. rewrite Hp, N.eqb_refl. simpl. rewrite Hid.
    rewrite <- app_assoc. f_equal.
    apply flat_map_ext_on.
    intros n Hn. unfold ids_in_round. autorewrite with storage.
    rewrite tickets_of_store_tickets_ne; [done|].
    unfold rounds_upto in Hn. apply in_map_iff in Hn as (k & <- & Hk%in_seq).
    intros [= E]. lia.
  - assert (Hids : ticket_ids_of
                     (push_ticket_id roomId who (N.of_nat (length ts))
                        (store_tickets roomId round (ts ++ [t]) X)) r p
                   = ticket_ids_of X r p).
    { unfold ticket_ids_of at 1, push_ticket_id. simpl.
      by rewrite load_insert_ne. }
    rewrite Hids, W. unfold recorded_ids. autorewrite with storage.
    apply flat_map_ext. intros n. unfold ids_in_round. autorewrite with storage.
    destruct (decide ((roomId, round) = (r, n))) as [[= <- <-]|Hne'].
    + rewrite tickets_of_store_tickets_eq. fold ts.
      rewrite held_app. simpl.
      assert (E : (Ticket.player t =? p) = false) by (apply N.eqb_neq; congruence).
      rewrite E. by rewrite app_nil_r.
    + by rewrite tickets_of_store_tickets_ne.
Qed.

Lemma reveal_loop_ids roomId round w todo : forall i env m,
  playerTicketIds (storage (final (reveal_loop roomId round w todo i env m)))
  = playerTicketIds (storage m).
Proof.
  induction todo as [|t rest IH]; intros i env m; simpl; [done|].
  unfold_sol. simpl.
  destruct (Ticket.number t =? w); simpl; [|apply IH].
  repeat branch; try done;
    match goal with
    | |- context [reveal_loop _ _ _ _ ?j ?e ?M] => apply (IH j e M)
    end.
Qed.

Ltac ids_done :=
  match goal with W : ids_wf ?a |- ids_wf ?b => constr_eq a b; exact W end.

Ltac ids_room_side :=
  cbv zeta; simpl; storage_norm_goal; simpl;
  first [ left; reflexivity
        | right; left; assumption
        | right; right; split; [reflexivity | assumption] ].

Ltac ids_steps :=
  repeat match goal with
    | W : ids_wf ?a |- ids_wf ?b => constr_eq a b; exact W
    | |- ids_wf (update_stats _ _ (update_stats _ _ (update_room _ _
           (store_claimed _ _ _ false (push_ticket_id _ _ _ (store_tickets _ _ _ _)))))) =>
        apply ids_buy;
        [reflexivity | reflexivity | reflexivity | reflexivity
        | storage_norm_goal; assumption |]
    | |- ids_wf (store_claimed _ _ _ _ _) => apply ids_store_claimed
    | |- ids_wf (update_room _ _ _) => apply ids_update_room; [ids_room_side |]
    | |- ids_wf (update_stats _ _ _) => apply ids_update_stats
    | |- ids_wf (set_status _ _) => apply ids_set_status
    | |- ids_wf (set_paused _ _) => apply ids_set_paused
    | |- ids_wf (set_owner _ _) => apply ids_set_owner
    | |- ids_wf (set_collectedFees _ _) => apply ids_set_collectedFees
    | |- ids_wf (set_roomCount _ _) => apply ids_set_roomCount
    | |- ids_wf (set_activeRoomIds _ _) => apply ids_set_activeRoomIds
    end.

Lemma ids_simple c env s :
  match c with
  | EmergencyPause | ResumeOperations | WithdrawFees _ | EmergencyWithdrawTokens _
  | TransferOwnership _ | RenounceOwnership | ForceCloseRoom _ | ClaimPrize _ _ => True
  | _ => False
  end ->
  ids_wf s -> ids_wf (fst (execute c env s)).
Proof.
  destruct c; try done; intros _ W; sym_exec;
    repeat (branch; try ids_done); ids_steps.
Qed.

Lemma ids_buyTicket roomId number env s :
  ledger_wf s -> ids_wf s -> ids_wf (fst (execute (BuyTicket roomId number) env s)).
Proof.
  intros L W. sym_exec; repeat (branch; try ids_done).
  to_prop.
  assert (Hpos : 1 <= Room.roundNumber (room_at s roomId))
    by (apply (wf_room _ L); lia).
  ids_steps.
Qed.

Lemma ids_createRoom n d f t e env s :
  ledger_wf s -> ids_wf s -> ids_wf (fst (execute (CreateRoom n d f t e) env s)).
Proof.
  intros L W. sym_exec; repeat (branch; try ids_done).
  assert (Hnone : forall round, tickets_of s (roomCount s) round = [])
    by (intros round; apply (no_tickets_ahead _ _ _ L); left; lia).
  ids_steps.
Qed.

Lemma ids_resetRoom roomId t e env s :
  ledger_wf s -> ids_wf s -> ids_wf (fst (execute (ResetRoom roomId t e) env s)).
Proof.
  intros L W. sym_exec; repeat (branch; try ids_done).
  all: pose proof (no_tickets_ahead s roomId (Room.roundNumber (room_at s roomId) + 1) L
                     ltac:(right; lia)) as Hnone.
  all: rewrite !update_room_fuse; ids_steps.
Qed.

Lemma ids_revealWinningNumber roomId k n env s :
  ids_wf s -> ids_wf (fst (execute (RevealWinningNumber roomId k n) env s)).
Proof.
  intros W. sym_exec; repeat (branch; try ids_done).
  match goal with
  | H : reveal_loop _ ?r ?w ?ts ?j ?e ?M = _ |- _ =>
      pose proof (reveal_loop_fields roomId r w ts j e M) as IF;
      rewrite H in IF; cbn [final] in IF; destruct IF as (Hrooms & _);
      pose proof (reveal_loop_tickets roomId r w ts [] j e M eq_refl) as IT;
      rewrite H in IT;
      pose proof (reveal_loop_ids roomId r w ts j e M) as II;
      rewrite H in II; cbn [final] in II
  end.
  opose proof* IT as IT'; [simpl; by autorewrite with storage|].
  destruct IT' as [IT1 IT2]. clear IT. simpl in IT1.
  intros r p. specialize (W r p).
  unfold ticket_ids_of. rewrite II. simpl. fold (ticket_ids_of s r p). rewrite W.
  unfold recorded_ids. rewrite (room_at_ext _ _ r Hrooms). simpl.
  autorewrite with storage. rewrite !update_room_fuse.
  replace (Room.roundNumber (room_at (update_room roomId _ s) r))
    with (Room.roundNumber (room_at s r)).
  2:{ destruct (decide (roomId = r)) as [<-|Hne];
        [by rewrite room_at_update_room_eq | by rewrite room_at_update_room_ne]. }
  apply flat_map_ext. intros round. unfold ids_in_round.
  destruct (decide ((r, round) = (roomId, Room.roundNumber (room_at s roomId))))
    as [[= -> ->]|Hne].
  - by rewrite IT1, held_mark_winner.
  - rewrite IT2 by done. simpl. by autorewrite with storage.
Qed.

Lemma ids_execute c env s :
  ledger_wf s -> ids_wf s -> ids_wf (fst (execute c env s)).
Proof.
  intros L W. destruct c;
    [ by apply ids_createRoom | by apply ids_resetRoom
    | by apply ids_buyTicket
    | by apply ids_revealWinningNumber
    | by apply (ids_simple (ClaimPrize _ _))
    | by apply (ids_simple EmergencyPause)
    | by apply (ids_simple ResumeOperations)
    | by apply (ids_simple (WithdrawFees _))
    | by apply (ids_simple (EmergencyWithdrawTokens _))
    | by apply (ids_simple (ForceCloseRoom _))
    | by apply (ids_simple (TransferOwnership _))
    | by apply (ids_simple RenounceOwnership) ].
Qed.

Lemma reachable_ids_wf s : reachable s -> ids_wf s.
Proof.
  intros (deployer & token & history & ->).
  assert (H : ledger_wf (deploy deployer token) /\ ids_wf (deploy deployer token))
    by (split; [apply wf_deploy | apply ids_deploy]).
  revert H. generalize (deploy deployer token).
  induction history as [|[env c] rest IH]; intros s [L W]; simpl; [done|].
  apply IH. split; [by apply wf_execute | by apply ids_execute].
Qed.

(** ** The lookup of [getTicketsForAddress] *)

Lemma held_spec p ts t :
  In t (held p ts) <-> In t ts /\ Ticket.player t = p.
Proof.
  induction ts as [|u ts IH]; simpl; [tauto|].
  destruct (Ticket.player u =? p) eqn:E; simpl; rewrite IH.
  - apply N.eqb_eq in E. intuition (subst; auto).
  - apply N.eqb_neq in E. intuition (subst; auto). congruence.
Qed.

(** A recorded id is the index of a ticket of the player in some round. *)
Lemma recorded_id_found s roomId p ticketId :
  ledger_wf s -> ids_wf s ->
  In ticketId (ticket_ids_of s roomId p) ->
  exists t, found_for s roomId p (N.to_nat (Room.roundNumber (room_at s roomId))) ticketId t.
Proof.
  intros L W. rewrite W. unfold recorded_ids, rounds_upto.
  rewrite in_flat_map. intros (round & Hround & Hid).
  apply in_map_iff in Hround as (k & <- & Hk%in_seq).
  unfold ids_in_round in Hid. apply in_map_iff in Hid as (t & <- & Ht%held_spec).
  destruct Ht as [Ht Hp]. apply list_elem_of_In, list_elem_of_lookup in Ht as [i Hi].
  destruct (wf_ticket _ L _ _ _ _ Hi) as (Hidx & _).
  exists t, k. split; [lia|]. split; [|done].
  rewrite Hidx. by rewrite Nat2N.id.
Qed.

Lemma find_ticket_found s roomId p ticketId env m : forall upto,
  (exists t, found_for s roomId p upto ticketId t) ->
  exists t, find_ticket s roomId p ticketId upto env m = Done (Some t) m /\
            found_for s roomId p upto ticketId t.
Proof.
  induction upto as [|n IH]; intros (t & round & Hr & Ht & Hp); [lia|].
  assert (Hup : forall u, found_for s roomId p n ticketId u ->
                          found_for s roomId p (S n) ticketId u).
  { intros u (k & ? & ?). exists k. split; [lia | done]. }
  assert (Hbelow : round <> S n ->
            exists u, find_ticket s roomId p ticketId n env m = Done (Some u) m /\
                      found_for s roomId p (S n) ticketId u).
  { intros Hne. destruct IH as (u & Hu & Hf).
    - exists t, round. split; [lia | done].
    - exists u. split; [done | by apply Hup]. }
  cbn [find_ticket].
  destruct (ticketId <? N.of_nat (length (tickets_of s roomId (N.of_nat (S n))))) eqn:Hlt.
  - apply N.ltb_lt in Hlt.
    destruct (tickets_of s roomId (N.of_nat (S n)) !! N.to_nat ticketId) as [u|] eqn:Hu.
    + destruct (Ticket.player u =? p) eqn:Hpu.
      * exists u. split; [done|]. exists (S n). apply N.eqb_eq in Hpu. split; [lia | done].
      * apply Hbelow. intros ->. rewrite Hu in Ht. injection Ht as ->.
        apply N.eqb_neq in Hpu. done.
    + apply lookup_ge_None in Hu. lia.
  - apply N.ltb_ge in Hlt. apply Hbelow. intros ->.
    apply lookup_lt_Some in Ht. lia.
Qed.

Lemma lookup_tickets_found s roomId p current env m : forall ticketIds,
  Forall (fun ticketId => exists t, found_for s roomId p (N.to_nat current) ticketId t)
    ticketIds ->
  exists ts, lookup_tickets s roomId p current ticketIds env m = Done ts m /\
             Forall2 (found_for s roomId p (N.to_nat current)) ticketIds ts.
Proof.
  induction ticketIds as [|ticketId rest IH]; intros H.
  - exists []. split; [done | constructor].
  - apply Forall_cons in H as [Hone Hrest].
    destruct (find_ticket_found s roomId p ticketId env m _ Hone) as (t & Ht & Hf).
    destruct (IH Hrest) as (ts & Hts & Hfs).
    exists (t :: ts). split; [|by constructor].
    cbn [lookup_tickets]. unfold bind, ret. by rewrite Ht, Hts.
Qed.

(** In a round-1 room the player's recorded ids are those of the player's
    tickets, each at its own index. *)
Lemma held_at_own_index p ts :
  (forall (i : nat) t, ts !! i = Some t -> Ticket.id t = N.of_nat i) ->
  Forall2 (fun ticketId t => ts !! N.to_nat ticketId = Some t /\ Ticket.player t = p)
    (map Ticket.id (held p ts)) (held p ts).
Proof.
  intros Hidx.
  assert (H : forall l, (forall t, In t l -> In t (held p ts)) ->
                        Forall2 (fun ticketId t => ts !! N.to_nat ticketId = Some t /\
                                                   Ticket.player t = p)
                          (map Ticket.id l) l).
  { induction l as [|t l IH]; intros Hl; simpl; constructor.
    - destruct (proj1 (held_spec p ts t) (Hl t ltac:(by left))) as [Ht Hp].
      split; [|done].
      apply list_elem_of_In, list_elem_of_lookup in Ht as [i Hi].
      by rewrite (Hidx _ _ Hi), Nat2N.id.
    - apply IH. intros u Hu. apply Hl. by right. }
  by apply H.
Qed.

Lemma Forall2_determined {A B} (P Q : A -> B -> Prop) (l : list A) (k k' : list B) :
  Forall2 P l k -> Forall2 Q l k' ->
  (forall a b b', P a b -> Q a b' -> b = b') -> k = k'.
Proof.
  intros HP. revert k'. induction HP as [|a b l k Hab _ IH]; intros k' HQ Hdet;
    inversion HQ; subst; [done|].
  f_equal; [by eapply Hdet | by apply IH].
Qed.

(** ** The ticket counter and the recorded ids *)

Lemma cw_deploy deployer token : count_wf (deploy deployer token).
Proof.
  intros p r. unfold room_tickets_of, ticket_ids_of, stats_of, deploy. simpl.
  rewrite !load_empty. simpl. by rewrite load_empty.
Qed.

Lemma cw_core X X' :
  playerStats X' = playerStats X -> playerTicketIds X' = playerTicketIds X ->
  count_wf X -> count_wf X'.
Proof.
  intros Hs Hi W p r. specialize (W p r).
  unfold room_tickets_of, ticket_ids_of, stats_of in *. by rewrite Hs, Hi.
Qed.

Section CwOtherFields.
Variable X : Storage.
Hypothesis W : count_wf X.
Lemma cw_set_status v : count_wf (set_status v X).
Proof. by apply (cw_core X). Qed.
Lemma cw_set_paused v : count_wf (set_paused v X).
Proof. by apply (cw_core X). Qed.
Lemma cw_set_owner v : count_wf (set_owner v X).
Proof. by apply (cw_core X). Qed.
Lemma cw_set_collectedFees v : count_wf (set_collectedFees v X).
Proof. by apply (cw_core X). Qed.
Lemma cw_set_roomCount v : count_wf (set_roomCount v X).
Proof. by apply (cw_core X). Qed.
Lemma cw_set_activeRoomIds v : count_wf (set_activeRoomIds v X).
Proof. by apply (cw_core X). Qed.
Lemma cw_store_claimed a b c v : count_wf (store_claimed a b c v X).
Proof. by apply (cw_core X). Qed.
Lemma cw_store_tickets a b ts : count_wf (store_tickets a b ts X).
Proof. by apply (cw_core X). Qed.
Lemma cw_update_room roomId f : count_wf (update_room roomId f X).
Proof. by apply (cw_core X). Qed.
End CwOtherFields.

Lemma cw_update_stats X who f :
  (forall st, PlayerStats.roomTickets (f st) = PlayerStats.roomTickets st) ->
  count_wf X -> count_wf (update_stats who f X).
Proof.
  intros H W p r. specialize (W p r). unfold room_tickets_of in *.
  rewrite ticket_ids_of_update_stats.
  destruct (decide (who = p)) as [<-|Hne];
    [rewrite stats_of_update_stats_eq | by rewrite stats_of_update_stats_ne].
  by rewrite H.
Qed.

(** The writes of [buyTicket]. *)
Lemma cw_buy X roomId round ts t who total inRoom pool ticketId :
  inRoom = room_tickets_of X who roomId + 1 ->
  count_wf X ->
  count_wf
    (update_stats who
       (fun p => PlayerStats.set_roomTickets
                   (<[roomId := inRoom]> (PlayerStats.roomTickets p)) p)
       (update_stats who (PlayerStats.set_totalTickets total)
          (update_room roomId (Room.set_prizePool pool)
             (store_claimed roomId round ticketId false
                (push_ticket_id roomId who ticketId
                   (store_tickets roomId round (ts ++ [t]) X)))))).
Proof.
  intros -> W p r. specialize (W p r). unfold room_tickets_of in *.
  autorewrite with storage.
  destruct (decide (who = p)) as [<-|Hp].
  - rewrite !stats_of_update_stats_eq. simpl. autorewrite with storage.
    destruct (decide (roomId = r)) as [<-|Hr].
    + rewrite load_insert_eq, ticket_ids_of_push_ticket_id_eq.
      autorewrite with storage. rewrite length_app. simpl. lia.
    + rewrite load_insert_ne by done.
      unfold ticket_ids_of at 1, push_ticket_id. simpl.
      rewrite load_insert_ne by congruence. exact W.
  - rewrite !stats_of_update_stats_ne by done. autorewrite with storage.
    unfold ticket_ids_of at 1, push_ticket_id. simpl.
    rewrite load_insert_ne by congruence. exact W.
Qed.

Ltac cw_done :=
  match goal with W : count_wf ?a |- count_wf ?b => constr_eq a b; exact W end.

Ltac cw_steps :=
  repeat match goal with
    | W : count_wf ?a |- count_wf ?b => constr_eq a b; exact W
    | |- count_wf (update_stats _ _ (update_stats _ _ (update_room _ _
           (store_claimed _ _ _ false (push_ticket_id _ _ _ (store_tickets _ _ _ _)))))) =>
        apply cw_buy; [reflexivity |]
    | |- count_wf (store_claimed _ _ _ _ _) => apply cw_store_claimed
    | |- count_wf (update_room _ _ _) => apply cw_update_room
    | |- count_wf (update_stats _ _ _) => apply cw_update_stats; [intros ?; reflexivity |]
    | |- count_wf (set_status _ _) => apply cw_set_status
    | |- count_wf (set_paused _ _) => apply cw_set_paused
    | |- count_wf (set_owner _ _) => apply cw_set_owner
    | |- count_wf (set_collectedFees _ _) => apply cw_set_collectedFees
    | |- count_wf (set_roomCount _ _) => apply cw_set_roomCount
    | |- count_wf (set_activeRoomIds _ _) => apply cw_set_activeRoomIds
    end.

Lemma cw_revealWinningNumber roomId k n env s :
  count_wf s -> count_wf (fst (execute (RevealWinningNumber roomId k n) env s)).
Proof.
  intros W. sym_exec; repeat (branch; try cw_done).
  match goal with
  | H : reveal_loop _ ?r ?w ?ts ?j ?e ?M = _ |- _ =>
      pose proof (reveal_loop_stats roomId r w ts j e M) as IS;
      rewrite H in IS;
      pose proof (reveal_loop_ids roomId r w ts j e M) as II;
      rewrite H in II; cbn [final] in II
  end.
  intros p r. destruct (IS p r) as [-> _]. specialize (W p r).
  unfold ticket_ids_of. rewrite II. simpl.
  unfold room_tickets_of in *. by autorewrite with storage.
Qed.

Lemma cw_execute c env s : count_wf s -> count_wf (fst (execute c env s)).
Proof.
  intros W. destruct c;
    [ | | | exact (cw_revealWinningNumber _ _ _ _ _ W) | | | | | | | | ];
    sym_exec; repeat (branch; try cw_done); cw_steps.
Qed.

Lemma reachable_count_wf s : reachable s -> count_wf s.
Proof.
  intros (deployer & token & history & ->).
  pose proof (cw_deploy deployer token) as W.
  revert W. generalize (deploy deployer token).
  induction history as [|[env c] rest IH]; intros s W; simpl; [done|].
  apply IH. by apply cw_execute.
Qed.

(** * A concrete deployment, used to exercise the statements *)

Module Scenario.
Definition operator : address := 0xAA.
Definition alice : address := 0xA1.
Definition bob : address := 0xB1.
Definition usdc : address := 0xCC.
Definition lottery : address := 0xDD.
Definition secret : N :=
  0x953485bce5da4adae4cd876cd66b4373112e15d54fd60183c4d3a95ca4ac5ac8.

(** A token that honours every call. *)
Definition env (who now : N) : Env :=
  mkEnv who now lottery (fun _ _ => MAX_UINT256) (fun _ => 0)
    (fun _ _ _ => ReturnsTrue) (fun _ _ => ReturnsTrue).

(** The commitment the operator publishes for number [n]. *)
Definition commitment (n roomId round : N) : N :=
  keccak256 (encodePacked n secret roomId operator round).

Definition genesis : Storage := deploy operator usdc.

(** Room 0 with entry fee 50 and draw time 1000, committed to 42. *)
Definition open_room : list (Env * Call) :=
  [ (env operator 1,
     CreateRoom "room" "numbers" (50 * DECIMAL_CONVERSION) 1000 (commitment 42 0 1)) ].

(** Alice and Bob both pick 42. *)
Definition two_tickets : list (Env * Call) :=
  open_room ++ [ (env alice 10, BuyTicket 0 42); (env bob 11, BuyTicket 0 42) ].

(** The operator reveals after the draw time. *)
Definition two_winners : list (Env * Call) :=
  two_tickets ++ [ (env operator 1001, RevealWinningNumber 0 secret 42) ].

(** The operator reveals at time 5, long before the draw time. *)
Definition early_reveal : list (Env * Call) :=
  open_room ++ [ (env operator 5, RevealWinningNumber 0 secret 42) ].

(** Alice has claimed her share; Bob has not. *)
Definition one_claimed : list (Env * Call) :=
  two_winners ++ [ (env alice 1002, ClaimPrize 0 0) ].

(** The operator starts round 2 while Bob's win is still unclaimed. *)
Definition round_over : list (Env * Call) :=
  one_claimed ++ [ (env operator 1500, ResetRoom 0 2000 (commitment 7 0 2)) ].

(** A claim before the reveal: Alice buys number 0 and claims it at once,
    the stored winning number still being 0; then Bob and Alice buy 42. *)
Definition early_claim : list (Env * Call) :=
  open_room ++
  [ (env alice 10, BuyTicket 0 0); (env alice 11, ClaimPrize 0 0);
    (env bob 12, BuyTicket 0 42); (env alice 13, BuyTicket 0 42) ].

(** The operator then reveals 42 after the draw time ... *)
Definition early_claim_revealed : list (Env * Call) :=
  early_claim ++ [ (env operator 1001, RevealWinningNumber 0 secret 42) ].

(** ... and Bob and Alice claim their winning tickets. *)
Definition early_claim_settled : list (Env * Call) :=
  early_claim_revealed ++
  [ (env bob 1002, ClaimPrize 0 1); (env alice 1003, ClaimPrize 0 2) ].

(** Bob buys 7, and the operator reveals 42 at time 5, before the draw
    time. *)
Definition late_purchase : list (Env * Call) :=
  open_room ++
  [ (env bob 2, BuyTicket 0 7); (env operator 5, RevealWinningNumber 0 secret 42) ].

(** Alice then buys the revealed number. *)
Definition late_purchase_bought : list (Env * Call) :=
  late_purchase ++ [ (env alice 6, BuyTicket 0 42) ].
End Scenario.

(** * Fail-closed atomicity *)

(** C7. Whatever public operation is called and whatever the state, when the
    call ends in an error the persisted storage is the storage before the
    call.  When [buyTicket] is rejected because the draw time has passed, the
    body had written [PENDING_REVEAL] to the room before reverting, and that
    write is discarded with the rest: the stored room is unchanged. *)
Theorem failed_call_changes_nothing (c : Call) (env : Env) (s : Storage) (e : Error) :
  snd (execute c env s) = Failure e ->
  fst (execute c env s) = s /\
  (forall roomId number,
      c = BuyTicket roomId number -> e = BuyTicketAfterDrawTime ->
      Room.state (room_at (storage (in_flight (dispatch c) env s)) roomId) = PENDING_REVEAL /\
      room_at (fst (execute c env s)) roomId = room_at s roomId).
Proof.
  intros Hfail.
  assert (Hs : fst (execute c env s) = s).
  { unfold execute, transact in *.
    destruct (dispatch c env (mkMachine s [])); simpl in *; [discriminate | reflexivity]. }
  split; [exact Hs|].
  intros roomId number -> ->. split; [|by rewrite Hs].
  clear Hs. revert Hfail. sym_exec.
  repeat (branch; try discriminate); try (intros [=]).
  by autorewrite with storage.
Qed.

Lemma failed_call_changes_nothing_witness :
  snd (execute (BuyTicket 0 7) (Scenario.env Scenario.alice 1000)
         (run Scenario.open_room Scenario.genesis)) = Failure BuyTicketAfterDrawTime /\
  Room.state (room_at (run Scenario.open_room Scenario.genesis) 0) = OPEN /\
  Room.state
    (room_at (fst (execute (BuyTicket 0 7) (Scenario.env Scenario.alice 1000)
                     (run Scenario.open_room Scenario.genesis))) 0) = OPEN /\
  Room.state
    (room_at (storage (in_flight (dispatch (BuyTicket 0 7))
                         (Scenario.env Scenario.alice 1000)
                         (run Scenario.open_room Scenario.genesis))) 0) = PENDING_REVEAL.
Proof.
  assert (H : snd (execute (BuyTicket 0 7) (Scenario.env Scenario.alice 1000)
                     (run Scenario.open_room Scenario.genesis))
              = Failure BuyTicketAfterDrawTime) by (vm_compute; reflexivity).
  destruct (failed_call_changes_nothing _ _ _ _ H) as [Hs Hb].
  destruct (Hb 0 7 eq_refl eq_refl) as [Hp _].
  split; [exact H|]. split; [vm_compute; reflexivity|].
  split; [rewrite Hs; vm_compute; reflexivity | exact Hp].
Defined.

(** * Carry-over of the pool *)

(** The room [resetRoom] leaves behind, from the room it found. *)
Definition next_round (old : Room.t) (drawTime encryptedWinningNumber : N) : Room.t :=
  Room.mk (Room.id old) (Room.name old) (Room.description old) (Room.entryFee old)
    drawTime (Room.prizePool old) encryptedWinningNumber 0 false OPEN
    (Room.carryOverAmount old) (Room.roundNumber old + 1) false 0.

(** C6. [resetRoom] never changes a pool: after the call, successful or not,
    every room's [prizePool] is what it was, and so it is after
    [forceCloseRoom], the operation that closes a round nobody won.  A
    successful [resetRoom] rewrites exactly [drawTime], the commitment,
    [revealed], [winningNumber], [roundNumber], [feesCollected],
    [revealTime] and [state] of its room, so the pool of the closed round is
    the pool the next round starts with. *)
Theorem resetRoom_keeps_pool (roomId drawTime encryptedWinningNumber : N)
    (env : Env) (s : Storage) (r : N) :
  Room.prizePool (room_at (fst (execute (ResetRoom roomId drawTime encryptedWinningNumber) env s)) r)
  = Room.prizePool (room_at s r) /\
  Room.prizePool (room_at (fst (execute (ForceCloseRoom roomId) env s)) r)
  = Room.prizePool (room_at s r) /\
  (forall s' effects,
      execute (ResetRoom roomId drawTime encryptedWinningNumber) env s = (s', Success effects) ->
      room_at s' roomId = next_round (room_at s roomId) drawTime encryptedWinningNumber /\
      (r <> roomId -> room_at s' r = room_at s r)).
Proof.
  split; [|split].
  - sym_exec; repeat (branch; try reflexivity);
      rewrite !update_room_fuse; autorewrite with storage;
      (destruct (decide (roomId = r)) as [->|Hne];
       [by rewrite ?room_at_update_room_eq
       | by rewrite ?room_at_update_room_ne by done]).
  - sym_exec; repeat (branch; try reflexivity); autorewrite with storage;
      (destruct (decide (roomId = r)) as [->|Hne];
       [by rewrite ?room_at_update_room_eq
       | by rewrite ?room_at_update_room_ne by done]).
  - sym_exec; repeat (branch; try discriminate); intros s' effects [= <- _];
      rewrite !update_room_fuse; autorewrite with storage;
      (split; [by rewrite ?room_at_update_room_eq
              | intros Hne; by rewrite ?room_at_update_room_ne by done]).
Qed.

Lemma resetRoom_keeps_pool_witness :
  Room.prizePool (room_at (run Scenario.two_winners Scenario.genesis) 0) = 100 /\
  Room.prizePool
    (room_at (fst (execute (ResetRoom 0 2000 (Scenario.commitment 7 0 2))
                     (Scenario.env Scenario.operator 1500)
                     (run Scenario.two_winners Scenario.genesis))) 0) = 100 /\
  Room.roundNumber
    (room_at (fst (execute (ResetRoom 0 2000 (Scenario.commitment 7 0 2))
                     (Scenario.env Scenario.operator 1500)
                     (run Scenario.two_winners Scenario.genesis))) 0) = 2.
Proof.
  pose proof (resetRoom_keeps_pool 0 2000 (Scenario.commitment 7 0 2)
                (Scenario.env Scenario.operator 1500)
                (run Scenario.two_winners Scenario.genesis) 0) as [Hpool _].
  split; [vm_compute; reflexivity|].
  split; [rewrite Hpool; vm_compute; reflexivity | vm_compute; reflexivity].
Defined.

(** * Fee withdrawal *)

(** C9. Called by the operator (outside any other guarded call), with [F] the
    tracked [collectedFees]: a request of [0 < amount <= F] that the token
    honours succeeds, asks the token for exactly [amount] to the operator and
    leaves [F - amount] tracked; a request above [F] fails with
    [InvalidAmount] and changes nothing; a request of [0] withdraws exactly
    [F] and leaves [0] tracked.  Nothing but [collectedFees] changes. *)
Theorem withdrawFees_semantics (amount : N) (env : Env) (s : Storage) :
  msg_sender env = _owner s ->
  _status s = NOT_ENTERED ->
  (0 < amount <= collectedFees s ->
   token_transfer env (_owner s) amount = ReturnsTrue ->
   exists effects,
     execute (WithdrawFees amount) env s
     = (set_collectedFees (collectedFees s - amount) s, Success effects) /\
     transfers effects = [(_owner s, amount)]) /\
  (collectedFees s < amount ->
   execute (WithdrawFees amount) env s = (s, Failure InvalidAmount)) /\
  (amount = 0 ->
   token_transfer env (_owner s) (collectedFees s) = ReturnsTrue ->
   exists effects,
     execute (WithdrawFees amount) env s = (set_collectedFees 0 s, Success effects) /\
     transfers effects = [(_owner s, collectedFees s)]).
Proof.
  intros Hown Hst.
  assert (Hback : forall v, set_status NOT_ENTERED (set_collectedFees v (set_status ENTERED s))
                            = set_collectedFees v s).
  { intros v. destruct s; simpl in *. by subst. }
  split; [|split].
  - intros [Hpos Hle] Htok. sym_exec.
    rewrite Hown, N.eqb_refl; simpl; rewrite Hst; simpl.
    destruct (amount =? 0) eqn:E0; [apply N.eqb_eq in E0; lia|]; simpl.
    destruct (collectedFees s <? amount) eqn:E1; [apply N.ltb_lt in E1; lia|]; simpl.
    destruct (amount <=? collectedFees s) eqn:E2; [|apply N.leb_gt in E2; lia]; simpl.
    autorewrite with storage. rewrite Htok; simpl.
    eexists; split; [by rewrite Hback | reflexivity].
  - intros Hgt. sym_exec.
    rewrite Hown, N.eqb_refl; simpl; rewrite Hst; simpl.
    destruct (amount =? 0) eqn:E0; [apply N.eqb_eq in E0; lia|]; simpl.
    destruct (collectedFees s <? amount) eqn:E1; [|apply N.ltb_ge in E1; lia]; simpl.
    reflexivity.
  - intros -> Htok. sym_exec.
    rewrite Hown, N.eqb_refl; simpl; rewrite Hst; simpl.
    rewrite N.ltb_irrefl, N.leb_refl; simpl.
    autorewrite with storage. rewrite Htok; simpl.
    rewrite N.sub_diag. eexists; split; [by rewrite Hback | reflexivity].
Qed.

Lemma withdrawFees_semantics_witness :
  collectedFees (run Scenario.one_claimed Scenario.genesis) = 10 /\
  (exists effects,
      execute (WithdrawFees 4) (Scenario.env Scenario.operator 1003)
        (run Scenario.one_claimed Scenario.genesis)
      = (set_collectedFees
           (collectedFees (run Scenario.one_claimed Scenario.genesis) - 4)
           (run Scenario.one_claimed Scenario.genesis), Success effects) /\
      transfers effects = [(_owner (run Scenario.one_claimed Scenario.genesis), 4)]) /\
  execute (WithdrawFees 11) (Scenario.env Scenario.operator 1003)
    (run Scenario.one_claimed Scenario.genesis)
  = (run Scenario.one_claimed Scenario.genesis, Failure InvalidAmount).
Proof.
  assert (Ho : msg_sender (Scenario.env Scenario.operator 1003)
               = _owner (run Scenario.one_claimed Scenario.genesis))
    by (vm_compute; reflexivity).
  assert (Hs : _status (run Scenario.one_claimed Scenario.genesis) = NOT_ENTERED)
    by (vm_compute; reflexivity).
  assert (Hf : collectedFees (run Scenario.one_claimed Scenario.genesis) = 10)
    by (vm_compute; reflexivity).
  split; [exact Hf|]. split.
  - apply (withdrawFees_semantics 4 _ _ Ho Hs); [rewrite Hf; lia | reflexivity].
  - apply (withdrawFees_semantics 11 _ _ Ho Hs). rewrite Hf; lia.
Defined.

(** * Commit and reveal *)

(** C5. Verification succeeds exactly when the submitted number and secret,
    with the room id, the operator and the room's current round, hash to the
    stored digest and the number is at most 99.  When the stored digest
    commits to a tuple of five fields, a submission that differs from it in
    any field fails verification, short of exhibiting two distinct packed
    messages with one Keccak-256 digest.  A submission that fails
    verification makes [revealWinningNumber] fail without any change of
    state, with [InvalidVerification] once the call is the operator's, the
    contract is not paused, the room exists and is not revealed yet. *)
Theorem commitment_round_trip (s : Storage) (roomId privateKey winningNumber : N) :
  (verifyWinningNumber s roomId privateKey winningNumber = true <->
   keccak256 (encodePacked winningNumber privateKey roomId (_owner s)
                (Room.roundNumber (room_at s roomId)))
   = Room.encryptedWinningNumber (room_at s roomId) /\ winningNumber <= 99) /\
  (forall n0 k0 r0 o0 rd0,
      well_typed n0 k0 r0 o0 rd0 ->
      well_typed winningNumber privateKey roomId (_owner s)
        (Room.roundNumber (room_at s roomId)) ->
      Room.encryptedWinningNumber (room_at s roomId)
      = keccak256 (encodePacked n0 k0 r0 o0 rd0) ->
      (winningNumber, privateKey, roomId, _owner s, Room.roundNumber (room_at s roomId))
      <> (n0, k0, r0, o0, rd0) ->
      ~ collision
          (encodePacked winningNumber privateKey roomId (_owner s)
             (Room.roundNumber (room_at s roomId)))
          (encodePacked n0 k0 r0 o0 rd0) ->
      verifyWinningNumber s roomId privateKey winningNumber = false) /\
  (forall env,
      verifyWinningNumber s roomId privateKey winningNumber = false ->
      exists e,
        execute (RevealWinningNumber roomId privateKey winningNumber) env s
        = (s, Failure e) /\
        (msg_sender env = _owner s -> _paused s = false -> roomId < roomCount s ->
         Room.revealed (room_at s roomId) = false -> e = InvalidVerification)).
Proof.
  split; [|split].
  - rewrite verifyWinningNumber_eq, andb_true_iff, N.eqb_eq, N.leb_le. tauto.
  - intros n0 k0 r0 o0 rd0 W0 W Hstored Hdiff Hfree.
    rewrite verifyWinningNumber_eq.
    destruct (_ =? _) eqn:E; [|reflexivity].
    apply N.eqb_eq in E. exfalso. apply Hfree. split; [|congruence].
    intros Henc. apply Hdiff. exact (encodePacked_inj _ _ _ _ _ _ _ _ _ _ W W0 Henc).
  - intros env Hv. sym_exec.
    repeat branch;
      try match goal with
          | H : negb (verifyWinningNumber _ _ _ _) = false |- _ =>
              rewrite Hv in H; discriminate
          end;
      eexists; (split; [reflexivity|]); intros Ho Hp Hr Hrev;
      try reflexivity; try congruence.
    + apply N.ltb_ge in Heqb1. lia.
    + apply N.eqb_neq in Heqb. congruence.
Qed.

Lemma commitment_round_trip_witness :
  verifyWinningNumber (run Scenario.open_room Scenario.genesis) 0 Scenario.secret 42 = true /\
  verifyWinningNumber (run Scenario.open_room Scenario.genesis) 0 (Scenario.secret + 1) 42
  = false /\
  execute (RevealWinningNumber 0 (Scenario.secret + 1) 42)
    (Scenario.env Scenario.operator 1001) (run Scenario.open_room Scenario.genesis)
  = (run Scenario.open_room Scenario.genesis, Failure InvalidVerification).
Proof.
  assert (Hwrong : verifyWinningNumber (run Scenario.open_room Scenario.genesis) 0
                     (Scenario.secret + 1) 42 = false).
  { apply (commitment_round_trip (run Scenario.open_room Scenario.genesis) 0
             (Scenario.secret + 1) 42)
      with (n0 := 42) (k0 := Scenario.secret) (r0 := 0) (o0 := Scenario.operator) (rd0 := 1).
    - repeat split; vm_compute; reflexivity.
    - repeat split; vm_compute; reflexivity.
    - vm_compute; reflexivity.
    - vm_compute. intros [=].
    - intros [_ H]. vm_compute in H. discriminate H. }
  split; [|split].
  - apply (commitment_round_trip (run Scenario.open_room Scenario.genesis) 0 Scenario.secret 42).
    split; vm_compute; [reflexivity | discriminate].
  - exact Hwrong.
  - destruct (proj2 (proj2 (commitment_round_trip
                (run Scenario.open_room Scenario.genesis) 0 (Scenario.secret + 1) 42))
                (Scenario.env Scenario.operator 1001) Hwrong) as (e & He & Hkind).
    rewrite He. f_equal. f_equal. apply Hkind; vm_compute; reflexivity.
Defined.

(** * Ticket purchase *)

(** X25. [buyTicket] never reads the room's stored state; what it tests is
    the draw time.  A purchase succeeds only before the room's draw time
    (with the contract not paused, the room existing and the number at most
    99); at or after the draw time it fails and issues no ticket, with
    [BuyTicketAfterDrawTime] once the entry gates are passed; and whether a
    purchase succeeds is the same whatever state the room is stored in. *)
Theorem buyTicket_gate_is_draw_time (roomId number : N) (env : Env) (s : Storage) :
  (forall s' effects,
      execute (BuyTicket roomId number) env s = (s', Success effects) ->
      block_timestamp env < Room.drawTime (room_at s roomId) /\
      _paused s = false /\ roomId < roomCount s /\ number <= 99) /\
  (Room.drawTime (room_at s roomId) <= block_timestamp env ->
   exists e,
     execute (BuyTicket roomId number) env s = (s, Failure e) /\
     (_status s = NOT_ENTERED -> _paused s = false -> roomId < roomCount s ->
      e = BuyTicketAfterDrawTime)) /\
  (forall st,
      succeeded (snd (execute (BuyTicket roomId number) env
                        (update_room roomId (Room.set_state st) s)))
      = succeeded (snd (execute (BuyTicket roomId number) env s))).
Proof.
  split; [|split].
  - sym_exec. repeat (branch; try discriminate). intros s' effects _.
    apply N.leb_gt in Heqb1. apply N.ltb_lt in Heqb0. apply N.ltb_ge in Heqb2. done.
  - intros Hlate. apply N.leb_le in Hlate. sym_exec.
    repeat branch; try congruence;
      eexists; (split; [reflexivity|]); intros Hs Hp Hr; try reflexivity; try congruence.
    apply N.ltb_ge in Heqb0. lia.
  - intros st. sym_exec. rewrite ?room_at_update_room_eq. simpl.
    repeat (branch; try reflexivity; rewrite ?room_at_update_room_eq in *; simpl in * );
      congruence.
Qed.

(** A room already revealed (state [REVEALED]) sells a ticket: the operator
    revealed at time 5, the draw time is 1000, Alice buys at time 6. *)
Lemma buyTicket_accepted_in_revealed_room :
  Room.state (room_at (run Scenario.early_reveal Scenario.genesis) 0) = REVEALED /\
  Room.revealed (room_at (run Scenario.early_reveal Scenario.genesis) 0) = true /\
  succeeded (snd (execute (BuyTicket 0 7) (Scenario.env Scenario.alice 6)
                    (run Scenario.early_reveal Scenario.genesis))) = true /\
  length (tickets_of (run Scenario.early_reveal Scenario.genesis) 0 1) = 0%nat /\
  length (tickets_of (fst (execute (BuyTicket 0 7) (Scenario.env Scenario.alice 6)
                             (run Scenario.early_reveal Scenario.genesis))) 0 1) = 1%nat.
Proof. vm_compute. repeat split; reflexivity. Qed.

(** C3. A revealed room sells a ticket, and the ticket wins.  Room 0 (entry
    fee 50, draw time 1000) holds Bob's ticket for 7 when the operator reveals
    42 at time 5: the room is stored as [REVEALED].  Alice's [buyTicket] for
    42 at time 6 succeeds, where the specification has it rejected with an
    [InvalidState]-class error: the token is asked for her fee and ticket 1
    is issued.  Her [claimPrize] for it is then paid 90, the pool of 100
    less the fee. *)
Lemma revealed_room_sells_winning_ticket :
  Room.state (room_at (run Scenario.late_purchase Scenario.genesis) 0) = REVEALED /\
  Room.revealed (room_at (run Scenario.late_purchase Scenario.genesis) 0) = true /\
  Room.winningNumber (room_at (run Scenario.late_purchase Scenario.genesis) 0) = 42 /\
  execute (BuyTicket 0 42) (Scenario.env Scenario.alice 6)
    (run Scenario.late_purchase Scenario.genesis)
  = (run Scenario.late_purchase_bought Scenario.genesis,
     Success [TokenTransferFrom Scenario.alice Scenario.lottery 50
                (set_status ENTERED (run Scenario.late_purchase Scenario.genesis));
              Emit (TicketPurchased 0 Scenario.alice 42 1 1)]) /\
  tickets_of (run Scenario.late_purchase_bought Scenario.genesis) 0 1
  = [Ticket.mk 0 0 Scenario.bob 7 1 false; Ticket.mk 1 0 Scenario.alice 42 1 false] /\
  transfers (effects_of (snd (execute (ClaimPrize 0 1) (Scenario.env Scenario.alice 7)
                                (run Scenario.late_purchase_bought Scenario.genesis))))
  = [(Scenario.alice, 90)].
Proof. vm_compute. repeat split; reflexivity. Qed.

Lemma buyTicket_gate_is_draw_time_witness :
  (exists e,
      execute (BuyTicket 0 7) (Scenario.env Scenario.alice 1000)
        (run Scenario.open_room Scenario.genesis)
      = (run Scenario.open_room Scenario.genesis, Failure e) /\
      (_status (run Scenario.open_room Scenario.genesis) = NOT_ENTERED ->
       _paused (run Scenario.open_room Scenario.genesis) = false ->
       0 < roomCount (run Scenario.open_room Scenario.genesis) ->
       e = BuyTicketAfterDrawTime)) /\
  succeeded (snd (execute (BuyTicket 0 7) (Scenario.env Scenario.alice 6)
                    (update_room 0 (Room.set_state CLOSED)
                       (run Scenario.open_room Scenario.genesis))))
  = succeeded (snd (execute (BuyTicket 0 7) (Scenario.env Scenario.alice 6)
                      (run Scenario.open_room Scenario.genesis))).
Proof.
  split.
  - apply (buyTicket_gate_is_draw_time 0 7 (Scenario.env Scenario.alice 1000)
             (run Scenario.open_room Scenario.genesis)).
    vm_compute. discriminate.
  - apply (buyTicket_gate_is_draw_time 0 7 (Scenario.env Scenario.alice 6)
             (run Scenario.open_room Scenario.genesis)).
Defined.

(** C8, as the code has it.  Every ticket stored in a reachable state has a
    number of at most 99.  A purchase with a number above 99 always fails and
    stores nothing; its error is [InvalidNumber] when the call passes the
    gates that come first (not re-entered, not paused, existing room, block
    time before the draw time). *)
Theorem ticket_numbers_in_range :
  (forall s, reachable s -> numbers_in_range s) /\
  (forall roomId number env s,
      99 < number ->
      exists e,
        execute (BuyTicket roomId number) env s = (s, Failure e) /\
        (_status s = NOT_ENTERED -> _paused s = false -> roomId < roomCount s ->
         block_timestamp env < Room.drawTime (room_at s roomId) ->
         e = InvalidNumber)).
Proof.
  split; [exact reachable_numbers_in_range|].
  intros roomId number env s Hn. apply N.ltb_lt in Hn. sym_exec. rewrite Hn. simpl.
  repeat branch; eexists; (split; [reflexivity|]); intros Hs Hp Hr Ht;
    try reflexivity; try congruence.
  - apply N.leb_le in Heqb1. lia.
  - apply N.ltb_ge in Heqb0. lia.
Qed.

(** Number 100 at the draw time: the error is [BuyTicketAfterDrawTime]. *)
Lemma buyTicket_100_after_draw_time :
  snd (execute (BuyTicket 0 100) (Scenario.env Scenario.alice 1000)
         (run Scenario.open_room Scenario.genesis))
  = Failure BuyTicketAfterDrawTime.
Proof. vm_compute. reflexivity. Qed.

Lemma ticket_numbers_in_range_witness :
  numbers_in_range (run Scenario.two_winners Scenario.genesis) /\
  execute (BuyTicket 0 100) (Scenario.env Scenario.alice 6)
    (run Scenario.open_room Scenario.genesis)
  = (run Scenario.open_room Scenario.genesis, Failure InvalidNumber).
Proof.
  split.
  - apply (proj1 ticket_numbers_in_range).
    exists Scenario.operator, Scenario.usdc, Scenario.two_winners. reflexivity.
  - destruct (proj2 ticket_numbers_in_range 0 100 (Scenario.env Scenario.alice 6)
                (run Scenario.open_room Scenario.genesis) ltac:(lia)) as (e & He & Hk).
    rewrite He. f_equal. f_equal. apply Hk; vm_compute; reflexivity.
Defined.

(** * Reveal *)

(** C4. Once [revealWinningNumber] has succeeded for a room, every further
    call on that room while its round number is the same fails and leaves
    the whole state unchanged, winning number, room state and tickets
    included, whatever secret and number are submitted and whatever happened
    in between.  For the operator, whose function it is, on a contract that
    is not paused, the error is [AlreadyRevealed]. *)
Theorem reveal_once (roomId privateKey winningNumber : N) (env : Env)
    (s s1 : Storage) (effects : list Effect) :
  execute (RevealWinningNumber roomId privateKey winningNumber) env s
  = (s1, Success effects) ->
  forall history env' privateKey' winningNumber',
    Room.roundNumber (room_at (run history s1) roomId)
    = Room.roundNumber (room_at s1 roomId) ->
    exists e,
      execute (RevealWinningNumber roomId privateKey' winningNumber') env' (run history s1)
      = (run history s1, Failure e) /\
      (msg_sender env' = _owner (run history s1) -> _paused (run history s1) = false ->
       e = AlreadyRevealed).
Proof.
  intros Hfirst history env' k' n' Hround.
  assert (H1 : Room.revealed (room_at s1 roomId) = true /\ roomId < roomCount s1).
  { revert Hfirst. sym_exec. repeat (branch; try discriminate). intros [= <- _].
    match goal with
    | H : reveal_loop _ ?r ?w ?ts ?j ?e ?M = _ |- _ =>
        pose proof (reveal_loop_fields roomId r w ts j e M) as IH;
        rewrite H in IH; cbn [final] in IH;
        destruct IH as (Hrooms & Hcount & _)
    end.
    rewrite (room_at_ext _ _ roomId Hrooms), Hcount.
    simpl. autorewrite with storage. simpl.
    apply N.ltb_lt in Heqb1. done. }
  destruct H1 as [Hrev Hlt].
  pose proof (frame_run history s1) as F.
  destruct (frame_revealed _ _ F roomId Hlt Hround Hrev) as [Hrev2 _].
  pose proof (frame_roomCount _ _ F) as Hcount.
  set (s2 := run history s1) in *. clearbody s2.
  sym_exec.
  repeat branch; try congruence; eexists; (split; [reflexivity|]); intros Ho Hp;
    try reflexivity; try congruence.
  - apply N.ltb_ge in Heqb1. lia.
  - apply N.eqb_neq in Heqb. congruence.
Qed.

(** After the reveal, a call by someone else than the operator, with the
    right secret and number, is rejected by the access gate. *)
Lemma second_reveal_by_stranger :
  Room.revealed (room_at (run Scenario.two_winners Scenario.genesis) 0) = true /\
  snd (execute (RevealWinningNumber 0 Scenario.secret 42)
         (Scenario.env Scenario.alice 1002)
         (run Scenario.two_winners Scenario.genesis))
  = Failure (OwnableUnauthorizedAccount Scenario.alice).
Proof. vm_compute. split; reflexivity. Qed.

Lemma reveal_once_witness :
  execute (RevealWinningNumber 0 (Scenario.secret + 1) 7)
    (Scenario.env Scenario.operator 1003)
    (run [(Scenario.env Scenario.alice 1002, ClaimPrize 0 0)]
       (run Scenario.two_winners Scenario.genesis))
  = (run [(Scenario.env Scenario.alice 1002, ClaimPrize 0 0)]
       (run Scenario.two_winners Scenario.genesis), Failure AlreadyRevealed).
Proof.
  destruct (reveal_once 0 Scenario.secret 42 (Scenario.env Scenario.operator 1001)
              (run Scenario.two_tickets Scenario.genesis)
              (run Scenario.two_winners Scenario.genesis)
              (effects_of (snd (execute (RevealWinningNumber 0 Scenario.secret 42)
                                  (Scenario.env Scenario.operator 1001)
                                  (run Scenario.two_tickets Scenario.genesis))))
              ltac:(vm_compute; reflexivity)
              [(Scenario.env Scenario.alice 1002, ClaimPrize 0 0)]
              (Scenario.env Scenario.operator 1003) (Scenario.secret + 1) 7
              ltac:(vm_compute; reflexivity))
    as (e & He & Hk).
  assert (Hkind : e = AlreadyRevealed) by (apply Hk; vm_compute; reflexivity).
  subst e. exact He.
Defined.

(** * Claims *)

(** C10. When the ticket named in a [claimPrize] call is in the room's
    current round and carries the room's winning number, the scan counts at
    least one winning ticket.  So every successful [claimPrize] takes the
    paying branch: it divides by a count of at least one, asks the token for
    exactly [(pool - fee) / count] to the caller, emits [PrizeClaimed], and
    when it changes the room's state (closing it) it zeroes the pool, which
    the zero-winner branch would have left in place. *)
Theorem claim_division_is_safe (roomId ticketId : N) (env : Env) (s : Storage) :
  (forall t,
      round_tickets s roomId !! N.to_nat ticketId = Some t ->
      Ticket.number t = Room.winningNumber (room_at s roomId) ->
      1 <= winners s roomId) /\
  (forall s' effects,
      execute (ClaimPrize roomId ticketId) env s = (s', Success effects) ->
      1 <= winners s roomId /\
      transfers effects
      = [(msg_sender env,
          (Room.prizePool (room_at s roomId)
           - Room.prizePool (room_at s roomId) * PLATFORM_FEE / 100)
          / winners s roomId)] /\
      In (Emit (PrizeClaimed roomId (msg_sender env) (claim_share s roomId) ticketId
                  (Room.roundNumber (room_at s roomId)))) effects /\
      (Room.state (room_at s' roomId) <> Room.state (room_at s roomId) ->
       Room.prizePool (room_at s' roomId) = 0)).
Proof.
  split.
  - intros t Ht Hw. pose proof (count_winning_pos _ _ _ _ Ht Hw). unfold winners. lia.
  - intros s' effects Hok. pose proof (claimPrize_success _ _ _ _ _ _ Hok) as O.
    pose proof (co_winners _ _ _ _ _ _ O).
    repeat split; [lia | apply (co_transfers _ _ _ _ _ _ O) | apply (co_event _ _ _ _ _ _ O) |].
    rewrite (co_room_after _ _ _ _ _ _ O). destruct (round_settled s' roomId); simpl; [done|].
    intros Hne. by destruct Hne.
Qed.

Lemma claim_division_is_safe_witness :
  1 <= winners (run Scenario.two_winners Scenario.genesis) 0 /\
  transfers (effects_of (snd (execute (ClaimPrize 0 0) (Scenario.env Scenario.alice 1002)
                                (run Scenario.two_winners Scenario.genesis))))
  = [(Scenario.alice, 45)].
Proof.
  destruct (claim_division_is_safe 0 0 (Scenario.env Scenario.alice 1002)
              (run Scenario.two_winners Scenario.genesis)) as [Hcount Hok].
  split.
  - apply (Hcount (Ticket.mk 0 0 Scenario.alice 42 1 true)); vm_compute; reflexivity.
  - destruct (Hok (run Scenario.one_claimed Scenario.genesis)
                (effects_of (snd (execute (ClaimPrize 0 0) (Scenario.env Scenario.alice 1002)
                                    (run Scenario.two_winners Scenario.genesis))))
                ltac:(vm_compute; reflexivity)) as (_ & Ht & _).
    rewrite Ht. vm_compute. reflexivity.
Defined.

(** C1. A successful [claimPrize] found the ticket's claimed flag clear,
    asks the token for exactly the computed share to the caller, once, and
    makes that call from a storage in which the flag is already set.  From
    then on, whatever happens in between, every [claimPrize] on the same
    room and ticket while the room is in the same round fails, changes
    nothing and transfers nothing.  For the ticket's owner, who alone may
    claim it, on a contract that is not paused, the error is
    [InvalidTicket]. *)
Theorem claim_once (roomId ticketId : N) (env : Env) (s s1 : Storage)
    (effects : list Effect) :
  execute (ClaimPrize roomId ticketId) env s = (s1, Success effects) ->
  is_claimed s roomId (Room.roundNumber (room_at s roomId)) ticketId = false /\
  transfers effects = [(msg_sender env, claim_share s roomId)] /\
  (forall to amount observed,
      In (TokenTransfer to amount observed) effects ->
      is_claimed observed roomId (Room.roundNumber (room_at s roomId)) ticketId = true) /\
  (forall history env',
      Room.roundNumber (room_at (run history s1) roomId)
      = Room.roundNumber (room_at s roomId) ->
      exists e,
        execute (ClaimPrize roomId ticketId) env' (run history s1)
        = (run history s1, Failure e) /\
        (msg_sender env' = msg_sender env -> _paused (run history s1) = false ->
         e = InvalidTicket)).
Proof.
  intros Hok. pose proof (claimPrize_success _ _ _ _ _ _ Hok) as O.
  split; [apply (co_unclaimed _ _ _ _ _ _ O)|].
  split; [apply (co_transfers _ _ _ _ _ _ O)|].
  split; [apply (co_observed _ _ _ _ _ _ O)|].
  intros history env' Hround.
  destruct (co_ticket _ _ _ _ _ _ O) as (t & Ht & Htr & Htp & _).
  unfold round_tickets in Ht.
  rewrite <- (co_tickets _ _ _ _ _ _ O) in Ht.
  pose proof (frame_run history s1) as F.
  destruct (frame_tickets _ _ F _ _ _ _ Ht) as (t2 & Ht2 & _ & _ & Hp2 & _ & Hr2).
  assert (Hc2 : is_claimed (run history s1) roomId (Room.roundNumber (room_at s roomId))
                  ticketId = true).
  { apply (frame_claimed _ _ F); [|apply (co_claimed _ _ _ _ _ _ O)].
    apply lookup_lt_Some in Ht. lia. }
  assert (Hs2 : _status (run history s1) = NOT_ENTERED).
  { rewrite status_run. replace s1 with (fst (execute (ClaimPrize roomId ticketId) env s))
      by (by rewrite Hok).
    rewrite status_execute. apply (co_status _ _ _ _ _ _ O). }
  assert (Hn2 : roomId < roomCount (run history s1)).
  { pose proof (frame_roomCount _ _ F). pose proof (co_room _ _ _ _ _ _ O).
    rewrite (co_roomCount _ _ _ _ _ _ O) in *. lia. }
  rewrite Htr in Hr2. rewrite Htp in Hp2.
  rewrite <- Hround in Ht2, Hc2, Hr2.
  set (s2 := run history s1) in *. clearbody s2. clear Hok O F Ht Htr Htp Hround.
  sym_exec. rewrite Hs2. simpl.
  repeat branch; try congruence;
    eexists; (split; [reflexivity|]); intros Hsame Hp;
    try reflexivity; try congruence.
  - injection Ht2 as ->. rewrite Hp2, <- Hsame, N.eqb_refl in Heqb3. discriminate.
  - apply N.ltb_ge in Heqb0. lia.
Qed.

(** After Alice's claim of ticket 0, Bob calls [claimPrize] on that ticket:
    the error is [InvalidOwner]. *)
Lemma repeated_claim_by_another_caller :
  is_claimed (run Scenario.one_claimed Scenario.genesis) 0 1 0 = true /\
  execute (ClaimPrize 0 0) (Scenario.env Scenario.bob 1003)
    (run Scenario.one_claimed Scenario.genesis)
  = (run Scenario.one_claimed Scenario.genesis, Failure InvalidOwner).
Proof. split; vm_compute; reflexivity. Qed.

Lemma claim_once_witness :
  transfers (effects_of (snd (execute (ClaimPrize 0 0) (Scenario.env Scenario.alice 1002)
                                (run Scenario.two_winners Scenario.genesis))))
  = [(Scenario.alice, 45)] /\
  execute (ClaimPrize 0 0) (Scenario.env Scenario.alice 1004)
    (run [(Scenario.env Scenario.bob 1003, ClaimPrize 0 1)]
       (run Scenario.one_claimed Scenario.genesis))
  = (run [(Scenario.env Scenario.bob 1003, ClaimPrize 0 1)]
       (run Scenario.one_claimed Scenario.genesis), Failure InvalidTicket).
Proof.
  destruct (claim_once 0 0 (Scenario.env Scenario.alice 1002)
              (run Scenario.two_winners Scenario.genesis)
              (run Scenario.one_claimed Scenario.genesis)
              (effects_of (snd (execute (ClaimPrize 0 0) (Scenario.env Scenario.alice 1002)
                                  (run Scenario.two_winners Scenario.genesis))))
              ltac:(vm_compute; reflexivity))
    as (_ & Hpaid & _ & Hlater).
  split.
  - rewrite Hpaid. vm_compute. reflexivity.
  - destruct (Hlater [(Scenario.env Scenario.bob 1003, ClaimPrize 0 1)]
                (Scenario.env Scenario.alice 1004) ltac:(vm_compute; reflexivity))
      as (e & He & Hk).
    assert (Hkind : e = InvalidTicket) by (apply Hk; vm_compute; reflexivity).
    subst e. exact He.
Defined.


(** * Conservation of a round's funds *)

(** X26. The accounting of claims made in a row.  Take a room whose fee
    flag is clear in the current round, with pool [P], [k] tickets carrying
    the stored winning number and [fee = P * 10 / 100], and any sequence of
    [claimPrize] calls on it, by any callers for any tickets, with nothing
    else in between.  Each successful call pays [(P - fee) / k], so [n]
    successes pay [n * ((P - fee) / k)]; each success claims one more
    winning ticket; [collectedFees] grows by [fee] at the first success and
    not again.  When no winning ticket was claimed before and all are
    claimed after, the total is [k * ((P - fee) / k)].  Nothing is said of a
    round in which the fee flag was set by a claim made before the
    reveal. *)
Theorem claims_conserve_funds (roomId : N) (calls : list (Env * N)) (s : Storage) :
  Room.feesCollected (room_at s roomId) = false ->
  let rs := receipts (claim_calls roomId calls) s in
  let s' := run (claim_calls roomId calls) s in
  let P := Room.prizePool (room_at s roomId) in
  let fee := P * PLATFORM_FEE / 100 in
  let k := winners s roomId in
  total_paid rs = successes rs * ((P - fee) / k) /\
  successes rs + unclaimed_winners s' roomId = unclaimed_winners s roomId /\
  collectedFees s' = collectedFees s + (if successes rs =? 0 then 0 else fee) /\
  (unclaimed_winners s roomId = k -> round_settled s' roomId = true ->
   total_paid rs = k * ((P - fee) / k)).
Proof.
  intros Hfc rs s' P fee k.
  destruct (claims_accounting roomId calls s) as (Hpaid & Hleft & Hfees).
  rewrite Hfc in Hfees. fold rs s' in Hpaid, Hleft, Hfees.
  repeat split; try assumption.
  intros Hnone Hall. apply all_claimed_unclaimed in Hall.
  fold (unclaimed_winners s' roomId) in Hall.
  rewrite Hpaid. unfold claim_share, claim_fee. fold P fee k. f_equal. lia.
Qed.

(** C2. A round whose funds are not conserved.  In room 0 (entry fee 50)
    Alice buys number 0 and claims it before any reveal, the stored winning
    number being 0 from the start: she is paid 45 and a fee of 5 is booked,
    which sets the round's fee flag, zeroes the pool and closes the room.
    Bob and Alice then buy 42, and the operator reveals 42: the pool fixed
    at the reveal is [P = 100], with [k = 2] winning tickets, a fee of 10
    and a share of 45.  Both claim.  Over the round the claims are paid
    [45 + 45 + 45 = 135], where the specification has
    [k * ((P - fee) / k) = 90], and [collectedFees] has grown by 5, not by
    10. *)
Lemma early_claim_breaks_conservation :
  Room.revealed (room_at (run Scenario.early_claim Scenario.genesis) 0) = false /\
  Room.prizePool (room_at (run Scenario.early_claim_revealed Scenario.genesis) 0) = 100 /\
  winners (run Scenario.early_claim_revealed Scenario.genesis) 0 = 2 /\
  claim_fee (run Scenario.early_claim_revealed Scenario.genesis) 0 = 10 /\
  claim_share (run Scenario.early_claim_revealed Scenario.genesis) 0 = 45 /\
  map succeeded (receipts Scenario.early_claim_settled Scenario.genesis)
  = [true; true; true; true; true; true; true; true] /\
  map paid_out (receipts Scenario.early_claim_settled Scenario.genesis)
  = [0; 0; 45; 0; 0; 0; 45; 45] /\
  total_paid (receipts Scenario.early_claim_settled Scenario.genesis) = 135 /\
  collectedFees (run Scenario.early_claim_settled Scenario.genesis) = 5 /\
  round_settled (run Scenario.early_claim_settled Scenario.genesis) 0 = true /\
  Room.state (room_at (run Scenario.early_claim_settled Scenario.genesis) 0) = CLOSED /\
  Room.roundNumber (room_at (run Scenario.early_claim_settled Scenario.genesis) 0) = 1.
Proof. vm_compute. repeat split; reflexivity. Qed.

(** Round 1 of the scenario ends, by [resetRoom], with two winning tickets
    and a pool of 100, after Alice alone has claimed: 45 was paid, not 90. *)
Lemma round_ends_with_one_of_two_claims :
  winners (run Scenario.two_winners Scenario.genesis) 0 = 2 /\
  Room.prizePool (room_at (run Scenario.two_winners Scenario.genesis) 0) = 100 /\
  claim_share (run Scenario.two_winners Scenario.genesis) 0 = 45 /\
  total_paid (receipts Scenario.round_over Scenario.genesis) = 45 /\
  Room.roundNumber (room_at (run Scenario.round_over Scenario.genesis) 0) = 2 /\
  total_paid (receipts Scenario.round_over Scenario.genesis)
  <> winners (run Scenario.two_winners Scenario.genesis) 0
     * claim_share (run Scenario.two_winners Scenario.genesis) 0.
Proof. vm_compute. repeat split; try reflexivity. discriminate. Qed.

Lemma claims_conserve_funds_witness :
  total_paid (receipts (claim_calls 0 [(Scenario.env Scenario.bob 1002, 1);
                                        (Scenario.env Scenario.bob 1003, 1);
                                        (Scenario.env Scenario.alice 1004, 0)])
                (run Scenario.two_winners Scenario.genesis)) = 90 /\
  collectedFees (run (claim_calls 0 [(Scenario.env Scenario.bob 1002, 1);
                                      (Scenario.env Scenario.bob 1003, 1);
                                      (Scenario.env Scenario.alice 1004, 0)])
                   (run Scenario.two_winners Scenario.genesis)) = 10.
Proof.
  destruct (claims_conserve_funds 0 [(Scenario.env Scenario.bob 1002, 1);
                                     (Scenario.env Scenario.bob 1003, 1);
                                     (Scenario.env Scenario.alice 1004, 0)]
              (run Scenario.two_winners Scenario.genesis)
              ltac:(vm_compute; reflexivity)) as (_ & _ & Hfees & Hall).
  split.
  - rewrite Hall; vm_compute; reflexivity.
  - rewrite Hfees. vm_compute. reflexivity.
Defined.

(** * Further properties of the contract *)

(** ** Invariants of every reachable state *)

Lemma scenario_reachable history : reachable (run history Scenario.genesis).
Proof. by exists Scenario.operator, Scenario.usdc, history. Qed.

(** X1. In every state the contract reaches, the ticket stored at index [i]
    of a room's round carries [i] as its id, and that room and that round;
    and a round holds tickets only when its room exists and the round lies
    between 1 and the room's current round. *)
Theorem tickets_are_indexed (s : Storage) (roomId round : N) (i : nat) (t : Ticket.t) :
  reachable s ->
  tickets_of s roomId round !! i = Some t ->
  Ticket.id t = N.of_nat i /\ Ticket.roomId t = roomId /\
  Ticket.roundNumber t = round /\
  roomId < roomCount s /\ 1 <= round <= Room.roundNumber (room_at s roomId).
Proof.
  intros W%reachable_wf Ht.
  destruct (wf_ticket _ W _ _ _ _ Ht) as (A & B & C).
  destruct (wf_rounds _ W roomId round) as [D E]; [by intros E; rewrite E in Ht|].
  done.
Qed.

Lemma tickets_are_indexed_witness :
  tickets_of (run Scenario.two_tickets Scenario.genesis) 0 1 !! 1%nat
  = Some (Ticket.mk 1 0 Scenario.bob 42 1 false) /\
  0 < roomCount (run Scenario.two_tickets Scenario.genesis) /\
  1 <= Room.roundNumber (room_at (run Scenario.two_tickets Scenario.genesis) 0).
Proof.
  assert (H : tickets_of (run Scenario.two_tickets Scenario.genesis) 0 1 !! 1%nat
              = Some (Ticket.mk 1 0 Scenario.bob 42 1 false))
    by (vm_compute; reflexivity).
  destruct (tickets_are_indexed _ _ _ _ _ (scenario_reachable Scenario.two_tickets) H)
    as (_ & _ & _ & Hroom & Hround).
  split; [exact H|]. split; [exact Hroom | apply Hround].
Defined.

(** X2. A claimed flag is only ever set for a ticket that exists: when
    [isTicketClaimed] answers true in a reachable state, the ticket id is
    an index of that round's ticket array. *)
Theorem claimed_flags_belong_to_tickets (s : Storage) (env : Env)
    (roomId round ticketId : N) :
  reachable s ->
  call_view (isTicketClaimed roomId round ticketId) env s = inl true ->
  exists t, tickets_of s roomId round !! N.to_nat ticketId = Some t.
Proof.
  intros W%reachable_wf [= H].
  apply (wf_claimed _ W) in H.
  apply lookup_lt_is_Some. lia.
Qed.

Lemma claimed_flags_belong_to_tickets_witness :
  call_view (isTicketClaimed 0 1 0) (Scenario.env Scenario.bob 2000)
    (run Scenario.one_claimed Scenario.genesis) = inl true /\
  exists t, tickets_of (run Scenario.one_claimed Scenario.genesis) 0 1 !! N.to_nat 0 = Some t.
Proof.
  assert (H : call_view (isTicketClaimed 0 1 0) (Scenario.env Scenario.bob 2000)
                (run Scenario.one_claimed Scenario.genesis) = inl true)
    by (vm_compute; reflexivity).
  split; [exact H|].
  exact (claimed_flags_belong_to_tickets _ _ _ _ _
           (scenario_reachable Scenario.one_claimed) H).
Defined.

(** X3. [listActiveRooms] returns every room ever created, in creation
    order: in a reachable state the list is [0, 1, ..., roomCount - 1].
    Nothing removes a room from it, and [resetRoom] never adds one twice. *)
Theorem active_rooms_are_all_rooms (s : Storage) (env : Env) :
  reachable s ->
  call_view listActiveRooms env s = inl (map N.of_nat (seq 0 (N.to_nat (roomCount s)))).
Proof.
  intros W%reachable_wf. unfold call_view, listActiveRooms, read. simpl.
  by rewrite (wf_active _ W).
Qed.

Lemma active_rooms_are_all_rooms_witness :
  call_view listActiveRooms (Scenario.env Scenario.alice 3000)
    (run Scenario.round_over Scenario.genesis) = inl [0].
Proof.
  rewrite (active_rooms_are_all_rooms _ _ (scenario_reachable Scenario.round_over)).
  vm_compute. reflexivity.
Defined.

(** X4. [PENDING_REVEAL] is never the stored state of a room: its only
    write, in [buyTicket], is followed by a revert.  And a room whose
    [revealed] flag is set is stored as [REVEALED] or [CLOSED]. *)
Theorem stored_state_invariant (s : Storage) (roomId : N) :
  reachable s ->
  Room.state (room_at s roomId) <> PENDING_REVEAL /\
  (Room.revealed (room_at s roomId) = true ->
   Room.state (room_at s roomId) = REVEALED \/ Room.state (room_at s roomId) = CLOSED).
Proof. intros W%reachable_wf. apply (wf_state _ W). Qed.

Lemma stored_state_invariant_witness :
  Room.revealed (room_at (run Scenario.two_winners Scenario.genesis) 0) = true /\
  (Room.state (room_at (run Scenario.two_winners Scenario.genesis) 0) = REVEALED \/
   Room.state (room_at (run Scenario.two_winners Scenario.genesis) 0) = CLOSED).
Proof.
  assert (H : Room.revealed (room_at (run Scenario.two_winners Scenario.genesis) 0) = true)
    by (vm_compute; reflexivity).
  split; [exact H|].
  exact (proj2 (stored_state_invariant _ 0 (scenario_reachable Scenario.two_winners)) H).
Defined.

(** X5. The room [getRoomDetails] returns in a reachable state carries its
    own index as [id], a round number of at least 1 and an entry fee of at
    least one token unit. *)
Theorem rooms_are_well_formed (s : Storage) (env : Env) (roomId : N) (room : Room.t) :
  reachable s ->
  call_view (getRoomDetails roomId) env s = inl room ->
  room = room_at s roomId /\ roomId < roomCount s /\
  Room.id room = roomId /\ 1 <= Room.roundNumber room /\ 1 <= Room.entryFee room.
Proof.
  intros W%reachable_wf. unfold call_view, getRoomDetails. sym_exec.
  destruct (roomId <? roomCount s) eqn:E; simpl; [|discriminate].
  intros [= <-]. apply N.ltb_lt in E.
  destruct (wf_room _ W roomId E) as (A & B & C). done.
Qed.

Lemma rooms_are_well_formed_witness :
  Room.id (room_at (run Scenario.round_over Scenario.genesis) 0) = 0 /\
  1 <= Room.roundNumber (room_at (run Scenario.round_over Scenario.genesis) 0) /\
  1 <= Room.entryFee (room_at (run Scenario.round_over Scenario.genesis) 0).
Proof.
  assert (H : call_view (getRoomDetails 0) (Scenario.env Scenario.alice 3000)
                (run Scenario.round_over Scenario.genesis)
              = inl (room_at (run Scenario.round_over Scenario.genesis) 0))
    by (vm_compute; reflexivity).
  destruct (rooms_are_well_formed _ _ _ _ (scenario_reachable Scenario.round_over) H)
    as (_ & _ & A & B & C).
  split; [exact A|]. split; [exact B | exact C].
Defined.

(** ** Rounds *)

(** X6. A successful [resetRoom] in a reachable state starts the next round
    with no tickets, so the tickets of the round it ends can no longer be
    claimed: right after the reset, every [claimPrize] on the room, by any
    caller for any ticket id, fails with [InvalidTicket] and changes
    nothing. *)
Theorem resetRoom_voids_old_tickets (roomId drawTime digest : N) (env : Env)
    (s s' : Storage) (effects : list Effect) :
  reachable s ->
  execute (ResetRoom roomId drawTime digest) env s = (s', Success effects) ->
  Room.roundNumber (room_at s' roomId) = Room.roundNumber (room_at s roomId) + 1 /\
  round_tickets s' roomId = [] /\
  forall env' ticketId,
    execute (ClaimPrize roomId ticketId) env' s' = (s', Failure InvalidTicket).
Proof.
  intros R Hreset. pose proof (reachable_wf _ R) as W.
  pose proof (reachable_status _ R) as Hst.
  destruct (resetRoom_success _ _ _ _ _ _ _ W Hreset) as (_ & Hp & Hlt & _ & ->).
  assert (Hround : Room.roundNumber
            (room_at (update_room roomId
               (fun r => Room.set_revealTime 0 (Room.set_feesCollected false
                  (Room.set_roundNumber (Room.roundNumber (room_at s roomId) + 1)
                     (Room.set_winningNumber 0 (Room.set_state OPEN (Room.set_revealed false
                        (Room.set_encryptedWinningNumber digest
                           (Room.set_drawTime drawTime r)))))))) s) roomId)
          = Room.roundNumber (room_at s roomId) + 1)
    by (by rewrite room_at_update_room_eq).
  assert (Hnone : tickets_of s roomId (Room.roundNumber (room_at s roomId) + 1) = []).
  { destruct (tickets_of s roomId (Room.roundNumber (room_at s roomId) + 1)) eqn:E; [done|].
    destruct (wf_rounds _ W roomId (Room.roundNumber (room_at s roomId) + 1)) as [_ ?];
      [by rewrite E | lia]. }
  split; [exact Hround|]. split.
  { unfold round_tickets. by rewrite Hround, tickets_of_update_room. }
  intros env' ticketId. clear Hreset.
  apply N.ltb_lt in Hlt. sym_exec.
  assert (Hz : (N.of_nat 0 <=? ticketId) = true) by (apply N.leb_le; lia).
  repeat (first [rewrite Hst | rewrite Hp | rewrite Hlt | rewrite Hnone | rewrite Hz];
          simpl; autorewrite with storage; simpl).
  reflexivity.
Qed.

Lemma resetRoom_voids_old_tickets_witness :
  is_claimed (run Scenario.one_claimed Scenario.genesis) 0 1 1 = false /\
  Ticket.win (default zero_ticket
                (tickets_of (run Scenario.one_claimed Scenario.genesis) 0 1 !! 1%nat)) = true /\
  Room.roundNumber (room_at (run Scenario.round_over Scenario.genesis) 0) = 2 /\
  execute (ClaimPrize 0 1) (Scenario.env Scenario.bob 1600)
    (run Scenario.round_over Scenario.genesis)
  = (run Scenario.round_over Scenario.genesis, Failure InvalidTicket).
Proof.
  assert (H : execute (ResetRoom 0 2000 (Scenario.commitment 7 0 2))
                (Scenario.env Scenario.operator 1500)
                (run Scenario.one_claimed Scenario.genesis)
              = (run Scenario.round_over Scenario.genesis,
                 Success (effects_of (snd (execute (ResetRoom 0 2000 (Scenario.commitment 7 0 2))
                            (Scenario.env Scenario.operator 1500)
                            (run Scenario.one_claimed Scenario.genesis))))))
    by (vm_compute; reflexivity).
  destruct (resetRoom_voids_old_tickets _ _ _ _ _ _ _
              (scenario_reachable Scenario.one_claimed) H) as (_ & _ & Hc).
  split; [vm_compute; reflexivity|]. split; [vm_compute; reflexivity|].
  split; [vm_compute; reflexivity|].
  exact (Hc (Scenario.env Scenario.bob 1600) 1).
Defined.

(** ** Views *)

(** X7. [getPlayerCount] returns the number of distinct players among the
    tickets of the round (0 for a round without tickets); its scan never
    reads or writes outside the scratch array.  It fails only for a room
    that does not exist. *)
Theorem getPlayerCount_counts_distinct_players (roomId roundNumber : N)
    (env : Env) (s : Storage) :
  call_view (getPlayerCount roomId roundNumber) env s
  = if roomId <? roomCount s
    then inl (N.of_nat (length (remove_dups
                (map Ticket.player (tickets_of s roomId roundNumber)))))
    else inr (RequireFailed "Invalid room ID").
Proof.
  unfold call_view, getPlayerCount. sym_exec.
  destruct (roomId <? roomCount s); simpl; [|done].
  destruct (tickets_of s roomId roundNumber) as [|t ts] eqn:E; [done|].
  destruct (N.of_nat (length (t :: ts)) =? 0) eqn:E0; [apply N.eqb_eq in E0; simpl in E0; lia|].
  by rewrite count_players_distinct.
Qed.

(** X8. Once [revealWinningNumber] has succeeded for a room,
    [getWinningNumber] returns the revealed number in every later state in
    which the room is still in that round, whatever happened in between.
    Before a reveal (and again after a reset) it fails with [InvalidState]
    for an existing room. *)
Theorem getWinningNumber_after_reveal (roomId privateKey winningNumber : N)
    (env : Env) (s s1 : Storage) (effects : list Effect) :
  execute (RevealWinningNumber roomId privateKey winningNumber) env s
  = (s1, Success effects) ->
  (forall env0, call_view (getWinningNumber roomId) env0 s = inr InvalidState) /\
  (forall history env',
      Room.roundNumber (room_at (run history s1) roomId)
      = Room.roundNumber (room_at s1 roomId) ->
      call_view (getWinningNumber roomId) env' (run history s1) = inl winningNumber).
Proof.
  intros O%revealWinningNumber_success. split.
  - intros env0. unfold call_view, getWinningNumber. sym_exec.
    pose proof (ro_room _ _ _ _ _ _ O) as Hlt. apply N.ltb_lt in Hlt.
    rewrite Hlt. simpl. by rewrite (ro_unrevealed _ _ _ _ _ _ O).
  - intros history env' Hround.
    pose proof (frame_run history s1) as F.
    assert (Hlt : roomId < roomCount s1)
      by (rewrite (ro_roomCount _ _ _ _ _ _ O); apply (ro_room _ _ _ _ _ _ O)).
    assert (Hrev : Room.revealed (room_at s1 roomId) = true)
      by (by rewrite (ro_room_after _ _ _ _ _ _ O)).
    destruct (frame_revealed _ _ F roomId Hlt Hround Hrev) as [Hrev2 Hw].
    pose proof (frame_roomCount _ _ F) as Hcount.
    unfold call_view, getWinningNumber. sym_exec.
    assert (Hlt2 : (roomId <? roomCount (run history s1)) = true) by (apply N.ltb_lt; lia).
    rewrite Hlt2. simpl. rewrite Hrev2. simpl. rewrite Hw.
    by rewrite (ro_room_after _ _ _ _ _ _ O).
Qed.

Lemma getWinningNumber_after_reveal_witness :
  call_view (getWinningNumber 0) (Scenario.env Scenario.bob 9)
    (run Scenario.two_tickets Scenario.genesis) = inr InvalidState /\
  call_view (getWinningNumber 0) (Scenario.env Scenario.bob 1700)
    (run [(Scenario.env Scenario.alice 1002, ClaimPrize 0 0)]
       (run Scenario.two_winners Scenario.genesis)) = inl 42.
Proof.
  assert (H : execute (RevealWinningNumber 0 Scenario.secret 42)
                (Scenario.env Scenario.operator 1001)
                (run Scenario.two_tickets Scenario.genesis)
              = (run Scenario.two_winners Scenario.genesis,
                 Success (effects_of (snd (execute (RevealWinningNumber 0 Scenario.secret 42)
                            (Scenario.env Scenario.operator 1001)
                            (run Scenario.two_tickets Scenario.genesis))))))
    by (vm_compute; reflexivity).
  destruct (getWinningNumber_after_reveal _ _ _ _ _ _ _ H) as [Hbefore Hafter].
  split; [apply Hbefore|].
  apply Hafter. vm_compute. reflexivity.
Defined.

(** ** Reveal *)

(** X9. A successful [revealWinningNumber] stores the number, sets
    [revealed], the state [REVEALED] and the reveal time, and rewrites the
    round's ticket array in place: every ticket carrying the winning number
    gets [win = true], every other ticket is left as it was.  No other
    room, no other round and no claimed flag changes. *)
Theorem reveal_marks_winners (roomId privateKey winningNumber : N) (env : Env)
    (s s' : Storage) (effects : list Effect) :
  execute (RevealWinningNumber roomId privateKey winningNumber) env s
  = (s', Success effects) ->
  let round := Room.roundNumber (room_at s roomId) in
  room_at s' roomId
  = Room.set_revealTime (block_timestamp env)
      (Room.set_state REVEALED
         (Room.set_revealed true
            (Room.set_winningNumber winningNumber (room_at s roomId)))) /\
  length (tickets_of s' roomId round) = length (tickets_of s roomId round) /\
  (forall (i : nat) t,
      tickets_of s roomId round !! i = Some t ->
      tickets_of s' roomId round !! i
      = Some (if Ticket.number t =? winningNumber then Ticket.set_win true t else t)) /\
  (forall r, r <> roomId -> room_at s' r = room_at s r) /\
  (forall r n, (r, n) <> (roomId, round) -> tickets_of s' r n = tickets_of s r n) /\
  (forall r n i, is_claimed s' r n i = is_claimed s r n i).
Proof.
  intros O%revealWinningNumber_success. cbv zeta.
  split; [apply (ro_room_after _ _ _ _ _ _ O)|].
  rewrite (ro_tickets _ _ _ _ _ _ O).
  split; [apply length_map|].
  split; [intros i t Ht; by rewrite list_lookup_fmap, Ht|].
  split; [apply (ro_other_rooms _ _ _ _ _ _ O)|].
  split; [apply (ro_other_tickets _ _ _ _ _ _ O) | apply (ro_claimed _ _ _ _ _ _ O)].
Qed.

Lemma reveal_marks_winners_witness :
  tickets_of (run Scenario.two_tickets Scenario.genesis) 0 1 !! 1%nat
  = Some (Ticket.mk 1 0 Scenario.bob 42 1 false) /\
  tickets_of (run Scenario.two_winners Scenario.genesis) 0 1 !! 1%nat
  = Some (Ticket.mk 1 0 Scenario.bob 42 1 true).
Proof.
  assert (H : execute (RevealWinningNumber 0 Scenario.secret 42)
                (Scenario.env Scenario.operator 1001)
                (run Scenario.two_tickets Scenario.genesis)
              = (run Scenario.two_winners Scenario.genesis,
                 Success (effects_of (snd (execute (RevealWinningNumber 0 Scenario.secret 42)
                            (Scenario.env Scenario.operator 1001)
                            (run Scenario.two_tickets Scenario.genesis))))))
    by (vm_compute; reflexivity).
  assert (Ht : tickets_of (run Scenario.two_tickets Scenario.genesis) 0 1 !! 1%nat
               = Some (Ticket.mk 1 0 Scenario.bob 42 1 false))
    by (vm_compute; reflexivity).
  assert (Hr : Room.roundNumber (room_at (run Scenario.two_tickets Scenario.genesis) 0) = 1)
    by (vm_compute; reflexivity).
  destruct (reveal_marks_winners _ _ _ _ _ _ _ H) as (_ & _ & Hmark & _).
  rewrite Hr in Hmark. split; [exact Ht|]. exact (Hmark 1%nat _ Ht).
Defined.

(** ** Room creation *)

(** X10. A successful [createRoom] is the operator's call on a contract
    that is not paused, with an entry fee of at least [1e12]; it takes the
    next free index, stores there a room in round 1, state [OPEN], with an
    empty pool and the fee divided by [1e12], counts it, touches no other
    room and no ticket, and emits [RoomCreated].  Below [1e12] (zero
    included) the fee is rejected with [InvalidAmount]; nothing else but a
    full room counter can make the operator's call fail. *)
Theorem createRoom_opens_a_room (name description : string)
    (entryFee drawTime digest : N) (env : Env) (s : Storage) :
  (forall s' effects,
      execute (CreateRoom name description entryFee drawTime digest) env s
      = (s', Success effects) ->
      msg_sender env = _owner s /\ _paused s = false /\
      DECIMAL_CONVERSION <= entryFee /\
      roomCount s' = roomCount s + 1 /\
      room_at s' (roomCount s)
      = Room.mk (roomCount s) name description (entryFee / DECIMAL_CONVERSION)
          drawTime 0 digest (Room.winningNumber (room_at s (roomCount s)))
          false OPEN 0 1 false 0 /\
      (forall r, r <> roomCount s -> room_at s' r = room_at s r) /\
      (forall r n, tickets_of s' r n = tickets_of s r n) /\
      effects = [Emit (RoomCreated (roomCount s) name (entryFee / DECIMAL_CONVERSION)
                         drawTime (msg_sender env))]) /\
  (entryFee < DECIMAL_CONVERSION ->
   exists e,
     execute (CreateRoom name description entryFee drawTime digest) env s
     = (s, Failure e) /\
     (msg_sender env = _owner s -> _paused s = false -> e = InvalidAmount)) /\
  (msg_sender env = _owner s -> _paused s = false ->
   DECIMAL_CONVERSION <= entryFee -> roomCount s < MAX_UINT256 ->
   succeeded (snd (execute (CreateRoom name description entryFee drawTime digest) env s))
   = true).
Proof.
  assert (Hsmall : entryFee / DECIMAL_CONVERSION = 0 -> entryFee < DECIMAL_CONVERSION)
    by (by intros H%N.div_small_iff).
  assert (Hbig : entryFee / DECIMAL_CONVERSION <> 0 -> DECIMAL_CONVERSION <= entryFee).
  { intros E. apply N.nlt_ge. intros H. apply E. by apply N.div_small. }
  split; [|split].
  - intros s' effects. sym_exec. repeat (branch; try discriminate).
    intros [= <- <-]. to_prop. apply Hbig in Heqb2.
    repeat split; try done.
    + simpl. by autorewrite with storage.
    + intros r Hr. simpl. autorewrite with storage. by rewrite room_at_update_room_ne.
  - intros Hlt. sym_exec.
    repeat branch; try (eexists; split; [reflexivity|]; intros; to_prop; congruence).
    all: to_prop; apply Hbig in Heqb2; lia.
  - intros Ho Hp Hfee Hroom. sym_exec. rewrite Ho, N.eqb_refl. simpl. rewrite Hp. simpl.
    destruct (entryFee =? 0) eqn:E0;
      [apply N.eqb_eq in E0; unfold DECIMAL_CONVERSION in Hfee; lia|]. simpl.
    destruct (entryFee / DECIMAL_CONVERSION =? 0) eqn:E1;
      [apply N.eqb_eq, Hsmall in E1; lia|]. simpl.
    autorewrite with storage.
    destruct (roomCount s + 1 <=? MAX_UINT256) eqn:E2; [done|].
    apply N.leb_gt in E2. lia.
Qed.

(** ** The pause switch *)

(** The calls whose function carries [whenNotPaused]. *)
Definition pausable (c : Call) : bool :=
  match c with
  | CreateRoom _ _ _ _ _ | ResetRoom _ _ _ | BuyTicket _ _
  | RevealWinningNumber _ _ _ | ClaimPrize _ _ | EmergencyPause => true
  | _ => false
  end.

(** X11. While the contract is paused, [createRoom], [resetRoom],
    [buyTicket], [revealWinningNumber], [claimPrize] and a second
    [emergencyPause] fail and change nothing, whatever their arguments.  The
    error is [EnforcedPause] once the call passes the one gate checked
    before the pause: the re-entrancy guard for [buyTicket] and
    [claimPrize], the operator check for the others. *)
Theorem paused_contract_rejects (c : Call) (env : Env) (s : Storage) :
  pausable c = true ->
  _paused s = true ->
  exists e,
    execute c env s = (s, Failure e) /\
    (match c with
     | BuyTicket _ _ | ClaimPrize _ _ => _status s = NOT_ENTERED
     | _ => msg_sender env = _owner s
     end -> e = EnforcedPause).
Proof.
  intros Hc Hp. destruct c; try discriminate Hc; clear Hc; sym_exec; rewrite ?Hp; simpl.
  all: repeat (branch; rewrite ?Hp; simpl).
  all: eexists; (split; [reflexivity|]); intros Hgate; to_prop; congruence.
Qed.

Lemma paused_contract_rejects_witness :
  execute (BuyTicket 0 7) (Scenario.env Scenario.alice 10)
    (run [(Scenario.env Scenario.operator 2, EmergencyPause)]
       (run Scenario.open_room Scenario.genesis))
  = (run [(Scenario.env Scenario.operator 2, EmergencyPause)]
       (run Scenario.open_room Scenario.genesis), Failure EnforcedPause).
Proof.
  destruct (paused_contract_rejects (BuyTicket 0 7) (Scenario.env Scenario.alice 10)
              (run [(Scenario.env Scenario.operator 2, EmergencyPause)]
                 (run Scenario.open_room Scenario.genesis))
              eq_refl ltac:(vm_compute; reflexivity)) as (e & He & Hk).
  rewrite He. f_equal. f_equal.
  apply Hk. vm_compute. reflexivity.
Defined.

(** X12. [emergencyPause] and [resumeOperations] are inverse: called by the
    operator on a contract that is not paused, the first sets the flag and
    nothing else, and the second, called by the operator, restores exactly
    the storage from before the pause.  Each fails for anyone else, and
    [resumeOperations] fails on a contract that is not paused. *)
Theorem pause_resume_round_trip (env1 env2 : Env) (s : Storage) :
  msg_sender env1 = _owner s ->
  msg_sender env2 = _owner s ->
  _paused s = false ->
  execute EmergencyPause env1 s
  = (set_paused true s, Success [Emit (Paused (msg_sender env1))]) /\
  execute ResumeOperations env2 (set_paused true s)
  = (s, Success [Emit (Unpaused (msg_sender env2))]) /\
  execute ResumeOperations env2 s = (s, Failure ExpectedPause) /\
  (forall stranger,
      msg_sender stranger <> _owner s ->
      execute EmergencyPause stranger s
      = (s, Failure (OwnableUnauthorizedAccount (msg_sender stranger))) /\
      execute ResumeOperations stranger (set_paused true s)
      = (set_paused true s, Failure (OwnableUnauthorizedAccount (msg_sender stranger)))).
Proof.
  intros H1 H2 Hp.
  assert (Hback : set_paused false (set_paused true s) = s)
    by (destruct s; simpl in *; by subst).
  apply N.eqb_eq in H1, H2.
  split; [|split; [|split]].
  - sym_exec. rewrite H1. simpl. by rewrite Hp.
  - sym_exec. rewrite H2. simpl. by rewrite Hback.
  - sym_exec. rewrite H2. simpl. by rewrite Hp.
  - intros stranger H. apply N.eqb_neq in H. split; sym_exec; by rewrite H.
Qed.

Lemma pause_resume_round_trip_witness :
  execute ResumeOperations (Scenario.env Scenario.operator 3)
    (fst (execute EmergencyPause (Scenario.env Scenario.operator 2)
            (run Scenario.two_tickets Scenario.genesis)))
  = (run Scenario.two_tickets Scenario.genesis,
     Success [Emit (Unpaused Scenario.operator)]).
Proof.
  destruct (pause_resume_round_trip (Scenario.env Scenario.operator 2)
              (Scenario.env Scenario.operator 3)
              (run Scenario.two_tickets Scenario.genesis)
              ltac:(vm_compute; reflexivity) ltac:(vm_compute; reflexivity)
              ltac:(vm_compute; reflexivity)) as (Hpause & Hresume & _).
  rewrite Hpause. exact Hresume.
Defined.

(** X13. The pause does not reach [withdrawFees], [forceCloseRoom] and
    [emergencyWithdrawTokens]: none of them reads the flag, so each
    succeeds or fails on a paused contract exactly as on the same contract
    not paused, and writes the same storage. *)
Theorem pause_leaves_operator_exits_open (c : Call) (env : Env) (s : Storage) (b : bool) :
  match c with
  | WithdrawFees _ | ForceCloseRoom _ | EmergencyWithdrawTokens _ => True
  | _ => False
  end ->
  succeeded (snd (execute c env (set_paused b s)))
  = succeeded (snd (execute c env s)) /\
  fst (execute c env (set_paused b s)) = set_paused b (fst (execute c env s)).
Proof.
  destruct c; try done; intros _; destruct s; sym_exec;
    repeat (branch; try done).
Qed.

Lemma pause_leaves_operator_exits_open_witness :
  _paused (set_paused true (run Scenario.one_claimed Scenario.genesis)) = true /\
  succeeded (snd (execute (WithdrawFees 4) (Scenario.env Scenario.operator 1003)
                    (set_paused true (run Scenario.one_claimed Scenario.genesis))))
  = true.
Proof.
  split; [reflexivity|].
  rewrite (proj1 (pause_leaves_operator_exits_open (WithdrawFees 4)
                    (Scenario.env Scenario.operator 1003)
                    (run Scenario.one_claimed Scenario.genesis) true I)).
  vm_compute. reflexivity.
Defined.

(** ** Ticket purchase *)

(** X14. A successful [buyTicket] found the caller's allowance covering the
    room's entry fee, asked the token once to move exactly that fee from
    the caller to the contract, and emitted [TicketPurchased].  It appends
    one ticket to the room's current round, whose id is the previous length
    of the array, owned by the caller, with the chosen number and [win]
    clear; it records that id for the caller, leaves its claimed flag
    clear, adds exactly the fee to the room's pool and one to the caller's
    two ticket counters.  No other room, round, or fee balance changes. *)
Theorem buyTicket_issues_ticket (roomId number : N) (env : Env) (s s' : Storage)
    (effects : list Effect) :
  execute (BuyTicket roomId number) env s = (s', Success effects) ->
  let round := Room.roundNumber (room_at s roomId) in
  let fee := Room.entryFee (room_at s roomId) in
  let ticketId := N.of_nat (length (tickets_of s roomId round)) in
  let buyer := msg_sender env in
  fee <= token_allowance env buyer (this env) /\
  effects = [TokenTransferFrom buyer (this env) fee (set_status ENTERED s);
             Emit (TicketPurchased roomId buyer number ticketId round)] /\
  tickets_of s' roomId round
  = tickets_of s roomId round ++ [Ticket.mk ticketId roomId buyer number round false] /\
  (forall r n, (r, n) <> (roomId, round) -> tickets_of s' r n = tickets_of s r n) /\
  ticket_ids_of s' roomId buyer = ticket_ids_of s roomId buyer ++ [ticketId] /\
  is_claimed s' roomId round ticketId = false /\
  room_at s' roomId
  = Room.set_prizePool (Room.prizePool (room_at s roomId) + fee) (room_at s roomId) /\
  (forall r, r <> roomId -> room_at s' r = room_at s r) /\
  PlayerStats.totalTickets (stats_of s' buyer)
  = PlayerStats.totalTickets (stats_of s buyer) + 1 /\
  load 0 (PlayerStats.roomTickets (stats_of s' buyer)) roomId
  = load 0 (PlayerStats.roomTickets (stats_of s buyer)) roomId + 1 /\
  collectedFees s' = collectedFees s /\ roomCount s' = roomCount s.
Proof.
  sym_exec. repeat (branch; try discriminate). intros [= <- <-]. cbv zeta.
  to_prop.
  split; [done|]. split; [done|].
  split; [simpl; by autorewrite with storage|].
  split.
  { intros r n Hne. simpl. autorewrite with storage.
    by rewrite tickets_of_store_tickets_ne. }
  split.
  { simpl. autorewrite with storage.
    by rewrite ticket_ids_of_push_ticket_id_eq, ticket_ids_of_store_tickets. }
  split; [simpl; by autorewrite with storage|].
  split; [simpl; by autorewrite with storage|].
  split.
  { intros r Hr. simpl. autorewrite with storage. by rewrite room_at_update_room_ne. }
  split; [simpl; by autorewrite with storage|].
  split.
  { simpl. autorewrite with storage. simpl. by rewrite load_insert_eq. }
  split; simpl; by autorewrite with storage.
Qed.

(** Room 0 of the scenario after Alice's purchase. *)
Definition one_ticket : list (Env * Call) :=
  Scenario.open_room ++ [(Scenario.env Scenario.alice 10, BuyTicket 0 42)].

Lemma buyTicket_issues_ticket_witness :
  tickets_of (run Scenario.two_tickets Scenario.genesis) 0 1
  = [Ticket.mk 0 0 Scenario.alice 42 1 false; Ticket.mk 1 0 Scenario.bob 42 1 false] /\
  Room.prizePool (room_at (run Scenario.two_tickets Scenario.genesis) 0) = 100.
Proof.
  assert (H : execute (BuyTicket 0 42) (Scenario.env Scenario.bob 11)
                (run one_ticket Scenario.genesis)
              = (run Scenario.two_tickets Scenario.genesis,
                 Success (effects_of (snd (execute (BuyTicket 0 42)
                            (Scenario.env Scenario.bob 11)
                            (run one_ticket Scenario.genesis))))))
    by (vm_compute; reflexivity).
  assert (Hround : Room.roundNumber (room_at (run one_ticket Scenario.genesis) 0) = 1)
    by (vm_compute; reflexivity).
  destruct (buyTicket_issues_ticket _ _ _ _ _ _ H) as (_ & _ & Ht & _ & _ & _ & Hr & _).
  rewrite Hround in Ht. split.
  - rewrite Ht. vm_compute. reflexivity.
  - rewrite Hr. vm_compute. reflexivity.
Defined.

(** ** Forced close *)

(** X15. [forceCloseRoom], called by the operator for an existing room
    (outside any other guarded call): a room that is not [REVEALED] is
    refused with [InvalidState]; a [REVEALED] room is refused with
    [GracePeriodNotPassed] until one day (86400 s) after its reveal time;
    from then on the call succeeds, sets the state to [CLOSED], emits
    [RoomStateUpdated] and changes nothing else: the pool stays. *)
Theorem forceCloseRoom_semantics (roomId : N) (env : Env) (s : Storage) :
  msg_sender env = _owner s ->
  _status s = NOT_ENTERED ->
  roomId < roomCount s ->
  Room.revealTime (room_at s roomId) + GRACE_PERIOD <= MAX_UINT256 ->
  (Room.state (room_at s roomId) <> REVEALED ->
   execute (ForceCloseRoom roomId) env s = (s, Failure InvalidState)) /\
  (Room.state (room_at s roomId) = REVEALED ->
   block_timestamp env < Room.revealTime (room_at s roomId) + GRACE_PERIOD ->
   execute (ForceCloseRoom roomId) env s = (s, Failure GracePeriodNotPassed)) /\
  (Room.state (room_at s roomId) = REVEALED ->
   Room.revealTime (room_at s roomId) + GRACE_PERIOD <= block_timestamp env ->
   execute (ForceCloseRoom roomId) env s
   = (update_room roomId (Room.set_state CLOSED) s,
      Success [Emit (RoomStateUpdated roomId CLOSED
                       (Room.roundNumber (room_at s roomId)))])).
Proof.
  intros Ho%N.eqb_eq Hst Hlt%N.ltb_lt Hmax%N.leb_le.
  assert (Hback : set_status NOT_ENTERED
                    (update_room roomId (Room.set_state CLOSED) (set_status ENTERED s))
                  = update_room roomId (Room.set_state CLOSED) s).
  { destruct s; simpl in *. by subst. }
  split; [|split].
  - intros Hne. sym_exec.
    repeat (first [rewrite Ho | rewrite Hst | rewrite Hlt];
            simpl; autorewrite with storage; simpl).
    destruct (Room.state (room_at s roomId)); simpl;
      [reflexivity | reflexivity | by destruct Hne | reflexivity].
  - intros Hrev Hearly%N.ltb_lt. sym_exec.
    repeat (first [rewrite Ho | rewrite Hst | rewrite Hlt | rewrite Hrev | rewrite Hmax
                  | rewrite Hearly];
            simpl; autorewrite with storage; simpl).
    reflexivity.
  - intros Hrev Hlate%N.ltb_ge. sym_exec.
    repeat (first [rewrite Ho | rewrite Hst | rewrite Hlt | rewrite Hrev | rewrite Hmax
                  | rewrite Hlate];
            simpl; autorewrite with storage; simpl).
    by rewrite Hback.
Qed.

Lemma forceCloseRoom_semantics_witness :
  execute (ForceCloseRoom 0) (Scenario.env Scenario.operator 87400)
    (run Scenario.one_claimed Scenario.genesis)
  = (run Scenario.one_claimed Scenario.genesis, Failure GracePeriodNotPassed) /\
  Room.state (room_at (fst (execute (ForceCloseRoom 0) (Scenario.env Scenario.operator 87401)
                              (run Scenario.one_claimed Scenario.genesis))) 0) = CLOSED /\
  Room.prizePool (room_at (fst (execute (ForceCloseRoom 0)
                                  (Scenario.env Scenario.operator 87401)
                                  (run Scenario.one_claimed Scenario.genesis))) 0) = 100.
Proof.
  assert (Hrev : Room.state (room_at (run Scenario.one_claimed Scenario.genesis) 0) = REVEALED)
    by (vm_compute; reflexivity).
  assert (Ht : Room.revealTime (room_at (run Scenario.one_claimed Scenario.genesis) 0) = 1001)
    by (vm_compute; reflexivity).
  pose proof (fun now =>
    forceCloseRoom_semantics 0 (Scenario.env Scenario.operator now)
      (run Scenario.one_claimed Scenario.genesis)
      ltac:(vm_compute; reflexivity) ltac:(vm_compute; reflexivity)
      ltac:(vm_compute; reflexivity) ltac:(rewrite Ht; vm_compute; discriminate)) as H.
  split; [|split].
  - apply (H 87400); [exact Hrev|]. rewrite Ht. vm_compute. reflexivity.
  - rewrite (proj2 (proj2 (H 87401)) Hrev ltac:(rewrite Ht; vm_compute; discriminate)).
    vm_compute. reflexivity.
  - rewrite (proj2 (proj2 (H 87401)) Hrev ltac:(rewrite Ht; vm_compute; discriminate)).
    vm_compute. reflexivity.
Defined.

(** ** Claims and the state of the room *)

(** X16. A successful [claimPrize] claims exactly one more winning ticket
    and marks the round's fee as collected.  While a winning ticket is left
    unclaimed it changes neither the room's state nor its recorded pool
    (payouts are not deducted from [prizePool]); the claim of the last
    winning ticket closes the room and zeroes the pool. *)
Theorem claim_closes_round_when_last (roomId ticketId : N) (env : Env)
    (s s' : Storage) (effects : list Effect) :
  execute (ClaimPrize roomId ticketId) env s = (s', Success effects) ->
  unclaimed_winners s roomId = unclaimed_winners s' roomId + 1 /\
  Room.feesCollected (room_at s' roomId) = true /\
  (0 < unclaimed_winners s' roomId ->
   Room.state (room_at s' roomId) = Room.state (room_at s roomId) /\
   Room.prizePool (room_at s' roomId) = Room.prizePool (room_at s roomId)) /\
  (unclaimed_winners s' roomId = 0 ->
   Room.state (room_at s' roomId) = CLOSED /\ Room.prizePool (room_at s' roomId) = 0).
Proof.
  intros O%claimPrize_success.
  split; [apply (claim_marks_one _ _ _ _ _ _ O)|].
  split; [apply (claim_keeps_round _ _ _ _ _ _ O)|].
  split.
  - intros Hleft.
    assert (Hns : round_settled s' roomId = false).
    { destruct (round_settled s' roomId) eqn:E; [|done].
      apply settled_iff_none_unclaimed in E. lia. }
    by rewrite (co_room_after _ _ _ _ _ _ O), Hns.
  - intros Hnone%settled_iff_none_unclaimed.
    by rewrite (co_room_after _ _ _ _ _ _ O), Hnone.
Qed.

Lemma claim_closes_round_when_last_witness :
  Room.state (room_at (run Scenario.one_claimed Scenario.genesis) 0) = REVEALED /\
  Room.prizePool (room_at (run Scenario.one_claimed Scenario.genesis) 0) = 100 /\
  unclaimed_winners (run Scenario.one_claimed Scenario.genesis) 0 = 1.
Proof.
  assert (H : execute (ClaimPrize 0 0) (Scenario.env Scenario.alice 1002)
                (run Scenario.two_winners Scenario.genesis)
              = (run Scenario.one_claimed Scenario.genesis,
                 Success (effects_of (snd (execute (ClaimPrize 0 0)
                            (Scenario.env Scenario.alice 1002)
                            (run Scenario.two_winners Scenario.genesis))))))
    by (vm_compute; reflexivity).
  assert (Hleft : unclaimed_winners (run Scenario.one_claimed Scenario.genesis) 0 = 1)
    by (vm_compute; reflexivity).
  destruct (claim_closes_round_when_last _ _ _ _ _ _ H) as (_ & _ & Hopen & _).
  destruct (Hopen ltac:(rewrite Hleft; lia)) as [Hstate Hpool].
  split; [rewrite Hstate; vm_compute; reflexivity|].
  split; [rewrite Hpool; vm_compute; reflexivity | exact Hleft].
Defined.

(** X17. [claimPrize] reads neither the room's [revealed] flag nor its
    state: whether a claim succeeds, and what it pays, is the same whatever
    they are.  What it compares the ticket with is the stored
    [winningNumber], which is 0 from the start of a round until the
    reveal. *)
Theorem claimPrize_reads_no_reveal (roomId ticketId : N) (env : Env) (s : Storage)
    (revealed : bool) (st : RoomState) :
  succeeded (snd (execute (ClaimPrize roomId ticketId) env
                    (update_room roomId
                       (fun r => Room.set_state st (Room.set_revealed revealed r)) s)))
  = succeeded (snd (execute (ClaimPrize roomId ticketId) env s)) /\
  transfers (effects_of (snd (execute (ClaimPrize roomId ticketId) env
                                (update_room roomId
                                   (fun r => Room.set_state st (Room.set_revealed revealed r))
                                   s))))
  = transfers (effects_of (snd (execute (ClaimPrize roomId ticketId) env s))).
Proof.
  sym_exec. rewrite ?room_at_update_room_eq. simpl.
  repeat (branch; try (split; reflexivity);
          rewrite ?room_at_update_room_eq in *; simpl in * );
    try congruence; split; try reflexivity; try congruence.
Qed.

(** A ticket with number 0 bought in the scenario's room is paid before any
    reveal. *)
Example claim_before_reveal :
  Room.revealed (room_at (run Scenario.open_room Scenario.genesis) 0) = false /\
  transfers (effects_of (snd (execute (ClaimPrize 0 0) (Scenario.env Scenario.alice 11)
                                (run [(Scenario.env Scenario.alice 10, BuyTicket 0 0)]
                                   (run Scenario.open_room Scenario.genesis)))))
  = [(Scenario.alice, 45)].
Proof. vm_compute. split; reflexivity. Qed.

(** ** Emergency withdrawal *)

(** X18. [emergencyWithdrawTokens] never writes to storage: pools, tracked
    fees and claimed flags are the same after the call, successful or not.
    When it succeeds it is the operator's call, for an amount within the
    contract's token balance, and asks the token for exactly that amount to
    the operator; above the balance the operator's call fails with
    [InvalidAmount]. *)
Theorem emergencyWithdrawTokens_bypasses_ledger (amount : N) (env : Env) (s : Storage) :
  fst (execute (EmergencyWithdrawTokens amount) env s) = s /\
  (forall effects,
      snd (execute (EmergencyWithdrawTokens amount) env s) = Success effects ->
      msg_sender env = _owner s /\
      amount <= token_balanceOf env (this env) /\
      effects = [TokenTransfer (_owner s) amount s]) /\
  (msg_sender env = _owner s ->
   token_balanceOf env (this env) < amount ->
   snd (execute (EmergencyWithdrawTokens amount) env s) = Failure InvalidAmount) /\
  (msg_sender env = _owner s ->
   amount <= token_balanceOf env (this env) ->
   token_transfer env (_owner s) amount = ReturnsTrue ->
   snd (execute (EmergencyWithdrawTokens amount) env s)
   = Success [TokenTransfer (_owner s) amount s]).
Proof.
  split; [|split; [|split]].
  - sym_exec. repeat (branch; try reflexivity).
  - intros effects. sym_exec. repeat (branch; try discriminate).
    intros [= <-]. to_prop. done.
  - intros Ho%N.eqb_eq Hgt%N.ltb_lt. sym_exec. rewrite Ho. simpl. by rewrite Hgt.
  - intros Ho%N.eqb_eq Hle%N.ltb_ge Htok. sym_exec. rewrite Ho. simpl.
    rewrite Hle. simpl. by rewrite Htok.
Qed.

(** ** The packed encoding of a commitment *)

(** X19. The packed encoding hashed by [verifyWinningNumber] is 117 bytes
    long (1 + 32 + 32 + 20 + 32), each a byte, and on values of the five
    field types it is injective: two tuples with the same encoding are the
    same tuple.  A field is written big-endian in its fixed width, so that
    reading the bytes back gives the value modulo [256 ^ width]. *)
Theorem packed_encoding_is_injective (n k r o rd : N) :
  length (encodePacked n k r o rd) = 117%nat /\
  Forall (fun byte => byte < 256) (encodePacked n k r o rd) /\
  (forall n' k' r' o' rd',
      well_typed n k r o rd -> well_typed n' k' r' o' rd' ->
      encodePacked n k r o rd = encodePacked n' k' r' o' rd' ->
      (n, k, r, o, rd) = (n', k', r', o', rd')) /\
  (forall width v, Keccak.be_to_N (be_bytes width v) = v mod 256 ^ N.of_nat width).
Proof.
  assert (Hbyte : forall width v, Forall (fun byte => byte < 256) (be_bytes width v)).
  { induction width as [|w IH]; intros v; simpl; constructor; [|apply IH].
    apply N.mod_lt. lia. }
  split; [|split; [|split]].
  - rewrite encodePacked_eq. by rewrite !length_app, !length_be_bytes.
  - rewrite encodePacked_eq. repeat (apply Forall_app; split); apply Hbyte.
  - intros n' k' r' o' rd' T T' E.
    exact (encodePacked_inj _ _ _ _ _ _ _ _ _ _ T T' E).
  - intros width v. apply be_to_N_be_bytes.
Qed.

(** ** From commitment to reveal *)

(** X20. The digest the operator's creation script computes, the Keccak-256
    of the packed number, secret, next room index, operator address and
    round 1, opens the room it is stored in: when [createRoom] succeeds
    with that digest for a number of at most 99, verification of that
    number and secret passes in the resulting state, and in a state reached
    from deployment the operator's [revealWinningNumber] with them succeeds
    at once, at whatever time. *)
Theorem honest_commitment_verifies (name description : string)
    (entryFee drawTime n k : N) (env : Env) (s s' : Storage) (effects : list Effect) :
  n <= 99 ->
  execute (CreateRoom name description entryFee drawTime
             (keccak256 (encodePacked n k (roomCount s) (msg_sender env) 1))) env s
  = (s', Success effects) ->
  verifyWinningNumber s' (roomCount s) k n = true /\
  (reachable s ->
   forall env', msg_sender env' = msg_sender env ->
     succeeded (snd (execute (RevealWinningNumber (roomCount s) k n) env' s')) = true).
Proof.
  intros Hn. sym_exec. repeat (branch; try discriminate). intros [= <- _].
  to_prop.
  match goal with
  | |- verifyWinningNumber ?X _ _ _ = true /\ _ =>
      assert (Hv : verifyWinningNumber X (roomCount s) k n = true)
  end.
  { rewrite verifyWinningNumber_eq. autorewrite with storage. simpl.
    rewrite Heqb, N.eqb_refl. simpl. by apply N.leb_le. }
  split; [exact Hv|].
  intros W%reachable_wf env' Henv.
  assert (Hnone : tickets_of s (roomCount s) 1 = []).
  { destruct (tickets_of s (roomCount s) 1) eqn:E; [done|].
    destruct (wf_rounds _ W (roomCount s) 1) as [? _]; [by rewrite E | lia]. }
  assert (Ho : (msg_sender env' =? _owner s) = true) by (apply N.eqb_eq; congruence).
  assert (Hlt : (roomCount s <? roomCount s + 1) = true) by (apply N.ltb_lt; lia).
  sym_exec.
  repeat (first [rewrite Ho | rewrite Heqb0 | rewrite Hlt | rewrite Hv | rewrite Hnone];
          simpl; autorewrite with storage; simpl).
  reflexivity.
Qed.

Lemma honest_commitment_verifies_witness :
  verifyWinningNumber (run Scenario.open_room Scenario.genesis) 0 Scenario.secret 42 = true /\
  succeeded (snd (execute (RevealWinningNumber 0 Scenario.secret 42)
                    (Scenario.env Scenario.operator 5)
                    (run Scenario.open_room Scenario.genesis))) = true.
Proof.
  assert (H : execute (CreateRoom "room" "numbers" (50 * DECIMAL_CONVERSION) 1000
                         (keccak256 (encodePacked 42 Scenario.secret
                                       (roomCount Scenario.genesis)
                                       (msg_sender (Scenario.env Scenario.operator 1)) 1)))
                (Scenario.env Scenario.operator 1) Scenario.genesis
              = (run Scenario.open_room Scenario.genesis,
                 Success (effects_of (snd (execute
                   (CreateRoom "room" "numbers" (50 * DECIMAL_CONVERSION) 1000
                      (keccak256 (encodePacked 42 Scenario.secret
                                    (roomCount Scenario.genesis)
                                    (msg_sender (Scenario.env Scenario.operator 1)) 1)))
                   (Scenario.env Scenario.operator 1) Scenario.genesis)))))
    by (vm_compute; reflexivity).
  destruct (honest_commitment_verifies _ _ _ _ 42 Scenario.secret _ _ _ _
              ltac:(lia) H) as [Hv Hr].
  split; [exact Hv|].
  exact (Hr (scenario_reachable []) (Scenario.env Scenario.operator 5) eq_refl).
Defined.

(** * Players' statistics *)

(** X22. In every state the contract reaches, a player's wins in a room,
    together with the tickets the player holds in the room's round while
    that round awaits its reveal, are at most the tickets the player bought
    in the room.  So [getPlayerWinRate] is a percentage: whenever it returns,
    the rate is at most 100, and it is 0 for a player without tickets. *)
Theorem win_rate_is_a_percentage (s : Storage) (env : Env) (roomId : N) (player : address) :
  reachable s ->
  room_wins_of s player roomId + pending s player roomId
  <= room_tickets_of s player roomId /\
  (forall rate,
      call_view (getPlayerWinRate roomId player) env s = inl rate ->
      rate <= 100 /\ (room_tickets_of s player roomId = 0 -> rate = 0)).
Proof.
  intros W%reachable_stats_wf. split; [apply W|].
  specialize (W player roomId). unfold room_tickets_of, room_wins_of in *.
  intros rate. unfold call_view, getPlayerWinRate. sym_exec.
  repeat (branch; try discriminate); intros [= <-]; to_prop.
  - split; [lia | done].
  - split; [|intros E; by rewrite E in *].
    match goal with
    | |- ?a * 100 / ?b <= 100 => 
        assert (Hle : a <= b) by lia;
        transitivity (100 * b / b);
        [ apply N.Div0.div_le_mono; lia | rewrite N.div_mul by lia; lia ]
    end.
Qed.

Lemma win_rate_is_a_percentage_witness :
  call_view (getPlayerWinRate 0 Scenario.alice) (Scenario.env Scenario.bob 2000)
    (run Scenario.two_winners Scenario.genesis) = inl 100 /\
  room_wins_of (run Scenario.two_tickets Scenario.genesis) Scenario.alice 0
  + pending (run Scenario.two_tickets Scenario.genesis) Scenario.alice 0
  <= room_tickets_of (run Scenario.two_tickets Scenario.genesis) Scenario.alice 0.
Proof.
  split; [vm_compute; reflexivity|].
  exact (proj1 (win_rate_is_a_percentage _ (Scenario.env Scenario.bob 2000) 0 Scenario.alice
                  (scenario_reachable Scenario.two_tickets))).
Defined.

(** * The tickets of a player *)

(** X23. [getTicketsForAddress], for an existing room in a state the
    contract reaches: the call returns, with one entry for every id
    recorded for the player, and every entry is a ticket of that player
    stored at that id in one of the room's rounds: no entry is left
    zero-initialised.  While the room is in its first round, the entries
    are exactly the player's tickets of that round, in the order they were
    bought. *)
Theorem getTicketsForAddress_returns_players_tickets (s : Storage) (env : Env)
    (roomId : N) (player : address) :
  reachable s ->
  roomId < roomCount s ->
  exists ts,
    call_view (getTicketsForAddress roomId player) env s = inl ts /\
    Forall2 (found_for s roomId player (N.to_nat (Room.roundNumber (room_at s roomId))))
      (ticket_ids_of s roomId player) ts /\
    (Room.roundNumber (room_at s roomId) = 1 ->
     ts = held player (tickets_of s roomId 1)).
Proof.
  intros R Hroom%N.ltb_lt.
  pose proof (reachable_wf _ R) as L. pose proof (reachable_ids_wf _ R) as W.
  destruct (lookup_tickets_found s roomId player (Room.roundNumber (room_at s roomId))
              env (mkMachine s []) (ticket_ids_of s roomId player)) as (ts & Hts & Hf).
  { apply Forall_forall. intros ticketId Hin%list_elem_of_In.
    by apply recorded_id_found. }
  exists ts. split; [|split; [exact Hf|]].
  - unfold call_view, getTicketsForAddress. unfold_sol. simpl. rewrite Hroom. simpl.
    fold (@bind (list Ticket.t)). by rewrite Hts.
  - intros Hfirst. rewrite Hfirst in Hf.
    rewrite (W roomId player) in Hf. unfold recorded_ids in Hf. rewrite Hfirst in Hf.
    simpl in Hf. rewrite app_nil_r in Hf. unfold ids_in_round in Hf.
    pose proof (held_at_own_index player (tickets_of s roomId 1)
                  (fun i t Hi => proj1 (wf_ticket _ L _ _ _ _ Hi))) as Hown.
    apply (Forall2_determined _ _ _ _ _ Hf Hown).
    intros ticketId t u (round & Hr & Ht & _) [Hu _].
    assert (round = 1%nat) by lia. subst round.
    change (N.of_nat 1) with 1 in Ht. congruence.
Qed.

Lemma getTicketsForAddress_returns_players_tickets_witness :
  exists ts,
    call_view (getTicketsForAddress 0 Scenario.alice) (Scenario.env Scenario.bob 12)
      (run Scenario.two_tickets Scenario.genesis) = inl ts /\
    ts = [Ticket.mk 0 0 Scenario.alice 42 1 false].
Proof.
  destruct (getTicketsForAddress_returns_players_tickets
              (run Scenario.two_tickets Scenario.genesis) (Scenario.env Scenario.bob 12)
              0 Scenario.alice (scenario_reachable Scenario.two_tickets)
              ltac:(vm_compute; reflexivity)) as (ts & Hcall & _ & Hfirst).
  exists ts. split; [exact Hcall|].
  rewrite (Hfirst ltac:(vm_compute; reflexivity)). vm_compute. reflexivity.
Defined.

(** X24. [getPlayerRoomStats], for an existing room in a state the contract
    reaches, returns as the player's ticket count the number of ticket ids
    recorded for the player in that room, over all its rounds, and a win
    count that does not exceed it. *)
Theorem getPlayerRoomStats_counts_recorded_ids (s : Storage) (env : Env)
    (roomId : N) (player : address) :
  reachable s ->
  roomId < roomCount s ->
  exists wins,
    call_view (getPlayerRoomStats roomId player) env s
    = inl (N.of_nat (length (ticket_ids_of s roomId player)), wins) /\
    wins <= N.of_nat (length (ticket_ids_of s roomId player)).
Proof.
  intros R Hroom%N.ltb_lt.
  pose proof (reachable_count_wf _ R player roomId) as Hc.
  pose proof (reachable_stats_wf _ R player roomId) as Hs.
  exists (room_wins_of s player roomId). split; [|lia].
  unfold call_view, getPlayerRoomStats. sym_exec. rewrite Hroom. simpl.
  by rewrite <- Hc.
Qed.

Lemma getPlayerRoomStats_counts_recorded_ids_witness :
  exists wins,
    call_view (getPlayerRoomStats 0 Scenario.alice) (Scenario.env Scenario.bob 2000)
      (run Scenario.two_winners Scenario.genesis)
    = inl (N.of_nat (length (ticket_ids_of (run Scenario.two_winners Scenario.genesis)
                               0 Scenario.alice)), wins) /\
    wins <= N.of_nat (length (ticket_ids_of (run Scenario.two_winners Scenario.genesis)
                                0 Scenario.alice)).
Proof.
  exact (getPlayerRoomStats_counts_recorded_ids
           (run Scenario.two_winners Scenario.genesis) (Scenario.env Scenario.bob 2000)
           0 Scenario.alice (scenario_reachable Scenario.two_winners)
           ltac:(vm_compute; reflexivity)).
Defined.

(** * The countdown of the interface *)

Section CountdownFacts.
Import Countdown.
Local Open Scope Z_scope.




End CountdownFacts.
